(** * Resilient mail service: a shallow embedding and its properties

    The first part follows the TypeScript sources, one module per class:
    - utils/circuitBreaker.ts    -> [CircuitBreaker]
    - utils/retryWithBackoff.ts  -> [retry_loop], [retryWithBackoff]
    - store/InMemoryStore.ts     -> [InMemoryStore]
    - queue/MessageQueue.ts      -> [MessageQueue]
    - services/EmailService.ts   -> [EmailService]
    The second part defines the vocabulary of the statements, the third
    states and proves them.

    Conventions.  [Date.now()] is an integral number of milliseconds and is
    passed in explicitly, or read off an abstract world.  JavaScript numbers
    are modelled by [Z]: every counter and timestamp of the program is
    integral and far below 2^53.  A promise is modelled by the value it
    settles with; what runs between two awaits is one atomic step.  Calls of
    the logger are left out. *)

From Stdlib Require Import ZArith QArith Lia Bool String List Sorted.
From stdpp Require Import base option list gmap strings.
Import ListNotations.

Local Open Scope Z_scope.

(* ===================================================================== *)
(** * Definitions                                                         *)
(* ===================================================================== *)

(** ** Promises *)

(** The way a promise settles. *)
Inductive Settled (T E : Type) : Type :=
| Fulfilled (v : T)
| Rejected (e : E).
Arguments Fulfilled {T E} v.
Arguments Rejected {T E} e.

(** ** utils/circuitBreaker.ts *)

Module CircuitBreaker.

(** The two mutable fields; the thresholds are constants of the class.
    [successThreshold] is declared by the class and never read. *)
Record t : Type := mk {
  failureCount : Z;
  lastFailureTime : Z
}.

Definition successThreshold : Z := 1.
Definition failureThreshold : Z := 3.
Definition cooldownPeriod : Z := 10000.

(** [new CircuitBreaker()] *)
Definition create : t := {| failureCount := 0; lastFailureTime := 0 |}.

(** [isOpen()], with [now = Date.now()]. *)
Definition isOpen (now : Z) (b : t) : bool :=
  if failureThreshold <=? failureCount b
  then now - lastFailureTime b <? cooldownPeriod
  else false.

(** [recordFailure()], with [now = Date.now()]. *)
Definition recordFailure (now : Z) (b : t) : t :=
  {| failureCount := failureCount b + 1; lastFailureTime := now |}.

(** [recordSuccess()] *)
Definition recordSuccess (b : t) : t :=
  {| failureCount := 0; lastFailureTime := lastFailureTime b |}.

End CircuitBreaker.

(** ** utils/retryWithBackoff.ts *)

(** What [retryWithBackoff] rejects with: the error the operation threw, or
    its own [new Error('Failed after retries')]. *)
Inductive RetryError (E : Type) : Type :=
| Thrown (e : E)
| FailedAfterRetries.
Arguments Thrown {E} e.
Arguments FailedAfterRetries {E}.

(** Ghost record of what a run of [retryWithBackoff] did, in order: each call
    of [fn] with the way it settled, and each timer it awaited. *)
Inductive RetryEvent (T E : Type) : Type :=
| Invoke (r : Settled T E)
| Sleep (ms : Z).
Arguments Invoke {T E} r.
Arguments Sleep {T E} ms.

Section RetryWithBackoff.
(** [W] is the state of everything outside the function: the clock, the
    network, the closure state of [fn]. *)
Context {W T E : Type}.
(** [await new Promise(res => setTimeout(res, ms))] *)
Variable sleep : Z -> W -> W.

(** The [while] loop, entered with the current value of [attempt]; the
    result is the way the returned promise settles, the world left behind
    and what was done, in order.  Each iteration either leaves the
    function or increments [attempt], so [retries - attempt] iterations
    suffice; [None] is fuel exhaustion and not a behaviour of the
    program. *)
Fixpoint retry_loop (fuel : nat) (fn : W -> Settled T E * W)
    (retries delay attempt : Z) (w : W)
    : option (Settled T (RetryError E) * W * list (RetryEvent T E)) :=
  if attempt <? retries then
    match fuel with
    | O => None
    | S fuel' =>
        match fn w with
        | (Fulfilled v, w') => Some (Fulfilled v, w', [Invoke (Fulfilled v)])
        | (Rejected e, w') =>
            if attempt =? retries - 1
            then Some (Rejected (Thrown e), w', [Invoke (Rejected e)])
            else
              let ms := delay * 2 ^ attempt in
              match retry_loop fuel' fn retries delay (attempt + 1) (sleep ms w') with
              | Some (r, w'', tr) => Some (r, w'', Invoke (Rejected e) :: Sleep ms :: tr)
              | None => None
              end
        end
    end
  else Some (Rejected FailedAfterRetries, w, []).

(** [retryWithBackoff(fn, retries, delay)] for integral [retries]. *)
Definition retryWithBackoff (fn : W -> Settled T E * W) (retries delay : Z) (w : W)
    : option (Settled T (RetryError E) * W * list (RetryEvent T E)) :=
  retry_loop (Z.to_nat retries) fn retries delay 0 w.

(** The defaults of the signature: [retries = 3, delay = 100]. *)
Definition default_retries : Z := 3.
Definition default_delay : Z := 100.

End RetryWithBackoff.

(** ** store/InMemoryStore.ts *)

Module InMemoryStore.

Record t : Type := mk {
  sent : gmap string bool;
  status : gmap string string;
  rateLimit : gmap string Z;
  rateLimitPerMinute : Z
}.

(** [new InMemoryStore(rateLimitPerMinute)]; the default argument is 5. *)
Definition create (rate : Z) : t :=
  {| sent := ∅; status := ∅; rateLimit := ∅; rateLimitPerMinute := rate |}.

Definition default_rateLimitPerMinute : Z := 5.

Definition set_rateLimit (r : gmap string Z) (s : t) : t :=
  {| sent := sent s; status := status s; rateLimit := r;
     rateLimitPerMinute := rateLimitPerMinute s |}.

(** [60000 / this.rateLimitPerMinute].  The quotient of two numbers is a
    rational, except that division by zero yields [Infinity], written
    [None].  For an integral rate, comparing an integral number of
    milliseconds with the rounded quotient gives the same answer as
    comparing it with the exact one. *)
Definition minInterval (s : t) : option Q :=
  if rateLimitPerMinute s =? 0 then None
  else Some (60000 / inject_Z (rateLimitPerMinute s))%Q.

(** [elapsed < minInterval] *)
Definition below (elapsed : Z) (interval : option Q) : bool :=
  match interval with
  | None => true
  | Some q => negb (Qle_bool q (inject_Z elapsed))
  end.

(** [isRateLimited(to)], with [now = Date.now()]. *)
Definition isRateLimited (now : Z) (to : string) (s : t) : bool * t :=
  match rateLimit s !! to with
  | None => (false, set_rateLimit (<[to := now]> (rateLimit s)) s)
  | Some lastSent =>
      if below (now - lastSent) (minInterval s) then (true, s)
      else (false, set_rateLimit (<[to := now]> (rateLimit s)) s)
  end.

(** [markEmailSent(to)], with [now = Date.now()]. *)
Definition markEmailSent (now : Z) (to : string) (s : t) : t :=
  set_rateLimit (<[to := now]> (rateLimit s)) s.

(** [isDuplicate(id)]: [this.sent.has(id)]. *)
Definition isDuplicate (id : string) (s : t) : bool :=
  bool_decide (is_Some (sent s !! id)).

(** [markSent(id, status)] *)
Definition markSent (id st : string) (s : t) : t :=
  {| sent := <[id := true]> (sent s); status := <[id := st]> (status s);
     rateLimit := rateLimit s; rateLimitPerMinute := rateLimitPerMinute s |}.

(** [getStatus(id)] *)
Definition getStatus (id : string) (s : t) : option string := status s !! id.

End InMemoryStore.

(** ** queue/MessageQueue.ts *)

(** [haystack.includes(needle)] of JavaScript strings. *)
Fixpoint includes (haystack needle : string) : bool :=
  String.prefix needle haystack ||
  match haystack with
  | EmptyString => false
  | String _ rest => includes rest needle
  end.

Module MessageQueue.

Inductive MessagePriority : Type := HIGH | NORMAL | LOW.

(** The numeric value of the enum member. *)
Definition priority_value (p : MessagePriority) : Z :=
  match p with HIGH => 0 | NORMAL => 1 | LOW => 2 end.

(** Dates are kept as the millisecond count they wrap. *)
Record EmailMessage : Type := mkMessage {
  id : string;
  to : string;
  subject : string;
  body : string;
  priority : MessagePriority;
  retryCount : Z;
  createdAt : Z;
  lastAttempt : option Z
}.

(** [Omit<EmailMessage, 'retryCount' | 'createdAt' | 'lastAttempt'>], the
    argument of [enqueue]. *)
Record NewMessage : Type := mkNew {
  new_id : string;
  new_to : string;
  new_subject : string;
  new_body : string;
  new_priority : MessagePriority
}.

Record QueueConfig : Type := mkConfig {
  maxRetries : Z;
  retryDelay : Z;
  batchSize : Z;
  processingInterval : Z;
  maxConcurrent : Z
}.

Definition DEFAULT_CONFIG : QueueConfig :=
  {| maxRetries := 3; retryDelay := 1000; batchSize := 10;
     processingInterval := 100; maxConcurrent := 5 |}.

(** [Partial<QueueConfig>] *)
Record PartialConfig : Type := mkPartial {
  p_maxRetries : option Z;
  p_retryDelay : option Z;
  p_batchSize : option Z;
  p_processingInterval : option Z;
  p_maxConcurrent : option Z
}.

Definition no_config : PartialConfig := mkPartial None None None None None.

(** [{ ...DEFAULT_CONFIG, ...config }] *)
Definition merge_config (c : PartialConfig) : QueueConfig :=
  {| maxRetries := default (maxRetries DEFAULT_CONFIG) (p_maxRetries c);
     retryDelay := default (retryDelay DEFAULT_CONFIG) (p_retryDelay c);
     batchSize := default (batchSize DEFAULT_CONFIG) (p_batchSize c);
     processingInterval :=
       default (processingInterval DEFAULT_CONFIG) (p_processingInterval c);
     maxConcurrent := default (maxConcurrent DEFAULT_CONFIG) (p_maxConcurrent c) |}.

(** What [this.processor] is bound to: the closure the constructor wraps
    around the caller's processor, or the closure [stop()] installs. *)
Inductive Processor : Type := Wrapper | Noop.

(** A [processMessage] call that has not settled yet. *)
Inductive Pending : Type :=
| AwaitingProcessor (m : EmailMessage) (* awaits the caller's processor *)
| AwaitingFalse (m : EmailMessage)     (* awaits a promise resolved with [false] *)
| Returned.                            (* returned early; only [.finally] is left *)

(** The events of the [EventEmitter]. *)
Inductive Emitted : Type :=
| enqueued (m : EmailMessage)
| processed (m : EmailMessage)
| requeued (m : EmailMessage)
| failed (m : EmailMessage).

(** The object together with the part of the runtime it acts on.  Timer
    handles are natural numbers drawn from [nextHandle]. *)
Record t : Type := mk {
  (* fields of the class *)
  queue : list EmailMessage;
  config : QueueConfig;
  isProcessing : bool;
  activeCount : Z;
  processor : Processor;
  timer : option nat;
  retryTimers : list nat;
  _isStopped : bool;
  _wasStopped : bool;
  _queueLengthForTest : Z;
  _maxActiveCountForTest : Z;
  _processedIdsForTest : list string;
  (* runtime *)
  nextHandle : nat;
  tickTimeouts : list nat;                        (* armed [processQueue] timeouts *)
  retryTimeouts : list (nat * Z * EmailMessage);  (* armed retry timeouts: handle, delay, message *)
  pending : list Pending;                         (* unsettled [processMessage] calls *)
  calls : list EmailMessage;                      (* calls of the caller's processor, oldest first *)
  events : list Emitted                           (* emitted events, oldest first *)
}.

Definition set_queue (x : list EmailMessage) (s : t) : t :=
  {| queue := x; config := config s; isProcessing := isProcessing s;
     activeCount := activeCount s; processor := processor s; timer := timer s;
     retryTimers := retryTimers s; _isStopped := _isStopped s;
     _wasStopped := _wasStopped s; _queueLengthForTest := _queueLengthForTest s;
     _maxActiveCountForTest := _maxActiveCountForTest s;
     _processedIdsForTest := _processedIdsForTest s; nextHandle := nextHandle s;
     tickTimeouts := tickTimeouts s; retryTimeouts := retryTimeouts s;
     pending := pending s; calls := calls s; events := events s |}.
Definition set_isProcessing (x : bool) (s : t) : t :=
  {| queue := queue s; config := config s; isProcessing := x;
     activeCount := activeCount s; processor := processor s; timer := timer s;
     retryTimers := retryTimers s; _isStopped := _isStopped s;
     _wasStopped := _wasStopped s; _queueLengthForTest := _queueLengthForTest s;
     _maxActiveCountForTest := _maxActiveCountForTest s;
     _processedIdsForTest := _processedIdsForTest s; nextHandle := nextHandle s;
     tickTimeouts := tickTimeouts s; retryTimeouts := retryTimeouts s;
     pending := pending s; calls := calls s; events := events s |}.
Definition set_activeCount (x : Z) (s : t) : t :=
  {| queue := queue s; config := config s; isProcessing := isProcessing s;
     activeCount := x; processor := processor s; timer := timer s;
     retryTimers := retryTimers s; _isStopped := _isStopped s;
     _wasStopped := _wasStopped s; _queueLengthForTest := _queueLengthForTest s;
     _maxActiveCountForTest := _maxActiveCountForTest s;
     _processedIdsForTest := _processedIdsForTest s; nextHandle := nextHandle s;
     tickTimeouts := tickTimeouts s; retryTimeouts := retryTimeouts s;
     pending := pending s; calls := calls s; events := events s |}.
Definition set_processor (x : Processor) (s : t) : t :=
  {| queue := queue s; config := config s; isProcessing := isProcessing s;
     activeCount := activeCount s; processor := x; timer := timer s;
     retryTimers := retryTimers s; _isStopped := _isStopped s;
     _wasStopped := _wasStopped s; _queueLengthForTest := _queueLengthForTest s;
     _maxActiveCountForTest := _maxActiveCountForTest s;
     _processedIdsForTest := _processedIdsForTest s; nextHandle := nextHandle s;
     tickTimeouts := tickTimeouts s; retryTimeouts := retryTimeouts s;
     pending := pending s; calls := calls s; events := events s |}.
Definition set_timer (x : option nat) (s : t) : t :=
  {| queue := queue s; config := config s; isProcessing := isProcessing s;
     activeCount := activeCount s; processor := processor s; timer := x;
     retryTimers := retryTimers s; _isStopped := _isStopped s;
     _wasStopped := _wasStopped s; _queueLengthForTest := _queueLengthForTest s;
     _maxActiveCountForTest := _maxActiveCountForTest s;
     _processedIdsForTest := _processedIdsForTest s; nextHandle := nextHandle s;
     tickTimeouts := tickTimeouts s; retryTimeouts := retryTimeouts s;
     pending := pending s; calls := calls s; events := events s |}.
Definition set_retryTimers (x : list nat) (s : t) : t :=
  {| queue := queue s; config := config s; isProcessing := isProcessing s;
     activeCount := activeCount s; processor := processor s; timer := timer s;
     retryTimers := x; _isStopped := _isStopped s; _wasStopped := _wasStopped s;
     _queueLengthForTest := _queueLengthForTest s;
     _maxActiveCountForTest := _maxActiveCountForTest s;
     _processedIdsForTest := _processedIdsForTest s; nextHandle := nextHandle s;
     tickTimeouts := tickTimeouts s; retryTimeouts := retryTimeouts s;
     pending := pending s; calls := calls s; events := events s |}.
Definition set_isStopped (x : bool) (s : t) : t :=
  {| queue := queue s; config := config s; isProcessing := isProcessing s;
     activeCount := activeCount s; processor := processor s; timer := timer s;
     retryTimers := retryTimers s; _isStopped := x; _wasStopped := _wasStopped s;
     _queueLengthForTest := _queueLengthForTest s;
     _maxActiveCountForTest := _maxActiveCountForTest s;
     _processedIdsForTest := _processedIdsForTest s; nextHandle := nextHandle s;
     tickTimeouts := tickTimeouts s; retryTimeouts := retryTimeouts s;
     pending := pending s; calls := calls s; events := events s |}.
Definition set_wasStopped (x : bool) (s : t) : t :=
  {| queue := queue s; config := config s; isProcessing := isProcessing s;
     activeCount := activeCount s; processor := processor s; timer := timer s;
     retryTimers := retryTimers s; _isStopped := _isStopped s; _wasStopped := x;
     _queueLengthForTest := _queueLengthForTest s;
     _maxActiveCountForTest := _maxActiveCountForTest s;
     _processedIdsForTest := _processedIdsForTest s; nextHandle := nextHandle s;
     tickTimeouts := tickTimeouts s; retryTimeouts := retryTimeouts s;
     pending := pending s; calls := calls s; events := events s |}.
Definition set_queueLengthForTest (x : Z) (s : t) : t :=
  {| queue := queue s; config := config s; isProcessing := isProcessing s;
     activeCount := activeCount s; processor := processor s; timer := timer s;
     retryTimers := retryTimers s; _isStopped := _isStopped s;
     _wasStopped := _wasStopped s; _queueLengthForTest := x;
     _maxActiveCountForTest := _maxActiveCountForTest s;
     _processedIdsForTest := _processedIdsForTest s; nextHandle := nextHandle s;
     tickTimeouts := tickTimeouts s; retryTimeouts := retryTimeouts s;
     pending := pending s; calls := calls s; events := events s |}.
Definition set_maxActiveCountForTest (x : Z) (s : t) : t :=
  {| queue := queue s; config := config s; isProcessing := isProcessing s;
     activeCount := activeCount s; processor := processor s; timer := timer s;
     retryTimers := retryTimers s; _isStopped := _isStopped s;
     _wasStopped := _wasStopped s; _queueLengthForTest := _queueLengthForTest s;
     _maxActiveCountForTest := x; _processedIdsForTest := _processedIdsForTest s;
     nextHandle := nextHandle s; tickTimeouts := tickTimeouts s;
     retryTimeouts := retryTimeouts s; pending := pending s; calls := calls s;
     events := events s |}.
Definition set_processedIdsForTest (x : list string) (s : t) : t :=
  {| queue := queue s; config := config s; isProcessing := isProcessing s;
     activeCount := activeCount s; processor := processor s; timer := timer s;
     retryTimers := retryTimers s; _isStopped := _isStopped s;
     _wasStopped := _wasStopped s; _queueLengthForTest := _queueLengthForTest s;
     _maxActiveCountForTest := _maxActiveCountForTest s; _processedIdsForTest := x;
     nextHandle := nextHandle s; tickTimeouts := tickTimeouts s;
     retryTimeouts := retryTimeouts s; pending := pending s; calls := calls s;
     events := events s |}.
Definition set_nextHandle (x : nat) (s : t) : t :=
  {| queue := queue s; config := config s; isProcessing := isProcessing s;
     activeCount := activeCount s; processor := processor s; timer := timer s;
     retryTimers := retryTimers s; _isStopped := _isStopped s;
     _wasStopped := _wasStopped s; _queueLengthForTest := _queueLengthForTest s;
     _maxActiveCountForTest := _maxActiveCountForTest s;
     _processedIdsForTest := _processedIdsForTest s; nextHandle := x;
     tickTimeouts := tickTimeouts s; retryTimeouts := retryTimeouts s;
     pending := pending s; calls := calls s; events := events s |}.
Definition set_tickTimeouts (x : list nat) (s : t) : t :=
  {| queue := queue s; config := config s; isProcessing := isProcessing s;
     activeCount := activeCount s; processor := processor s; timer := timer s;
     retryTimers := retryTimers s; _isStopped := _isStopped s;
     _wasStopped := _wasStopped s; _queueLengthForTest := _queueLengthForTest s;
     _maxActiveCountForTest := _maxActiveCountForTest s;
     _processedIdsForTest := _processedIdsForTest s; nextHandle := nextHandle s;
     tickTimeouts := x; retryTimeouts := retryTimeouts s; pending := pending s;
     calls := calls s; events := events s |}.
Definition set_retryTimeouts (x : list (nat * Z * EmailMessage)) (s : t) : t :=
  {| queue := queue s; config := config s; isProcessing := isProcessing s;
     activeCount := activeCount s; processor := processor s; timer := timer s;
     retryTimers := retryTimers s; _isStopped := _isStopped s;
     _wasStopped := _wasStopped s; _queueLengthForTest := _queueLengthForTest s;
     _maxActiveCountForTest := _maxActiveCountForTest s;
     _processedIdsForTest := _processedIdsForTest s; nextHandle := nextHandle s;
     tickTimeouts := tickTimeouts s; retryTimeouts := x; pending := pending s;
     calls := calls s; events := events s |}.
Definition set_pending (x : list Pending) (s : t) : t :=
  {| queue := queue s; config := config s; isProcessing := isProcessing s;
     activeCount := activeCount s; processor := processor s; timer := timer s;
     retryTimers := retryTimers s; _isStopped := _isStopped s;
     _wasStopped := _wasStopped s; _queueLengthForTest := _queueLengthForTest s;
     _maxActiveCountForTest := _maxActiveCountForTest s;
     _processedIdsForTest := _processedIdsForTest s; nextHandle := nextHandle s;
     tickTimeouts := tickTimeouts s; retryTimeouts := retryTimeouts s; pending := x;
     calls := calls s; events := events s |}.
Definition set_calls (x : list EmailMessage) (s : t) : t :=
  {| queue := queue s; config := config s; isProcessing := isProcessing s;
     activeCount := activeCount s; processor := processor s; timer := timer s;
     retryTimers := retryTimers s; _isStopped := _isStopped s;
     _wasStopped := _wasStopped s; _queueLengthForTest := _queueLengthForTest s;
     _maxActiveCountForTest := _maxActiveCountForTest s;
     _processedIdsForTest := _processedIdsForTest s; nextHandle := nextHandle s;
     tickTimeouts := tickTimeouts s; retryTimeouts := retryTimeouts s;
     pending := pending s; calls := x; events := events s |}.
Definition set_events (x : list Emitted) (s : t) : t :=
  {| queue := queue s; config := config s; isProcessing := isProcessing s;
     activeCount := activeCount s; processor := processor s; timer := timer s;
     retryTimers := retryTimers s; _isStopped := _isStopped s;
     _wasStopped := _wasStopped s; _queueLengthForTest := _queueLengthForTest s;
     _maxActiveCountForTest := _maxActiveCountForTest s;
     _processedIdsForTest := _processedIdsForTest s; nextHandle := nextHandle s;
     tickTimeouts := tickTimeouts s; retryTimeouts := retryTimeouts s;
     pending := pending s; calls := calls s; events := x |}.

(** [new MessageQueue(processor, config)] *)
Definition create (c : PartialConfig) : t :=
  {| queue := []; config := merge_config c; isProcessing := false; activeCount := 0;
     processor := Wrapper; timer := None; retryTimers := []; _isStopped := false;
     _wasStopped := false; _queueLengthForTest := 0; _maxActiveCountForTest := 0;
     _processedIdsForTest := []; nextHandle := 0%nat; tickTimeouts := [];
     retryTimeouts := []; pending := []; calls := []; events := [] |}.

(** The table is a plain object, so [table[id]] also finds what every
    object inherits from [Object.prototype]: for these twelve names the
    look-up yields a function (the prototype itself for "__proto__"), not
    [undefined], and the code stores that value as the priority of the
    message.  A message type with numeric priorities has no such value:
    the model follows the code for messages whose id is none of these
    names. *)
Definition inherited_key (i : string) : bool :=
  bool_decide (i ∈ ["constructor"; "__defineGetter__"; "__defineSetter__";
                    "hasOwnProperty"; "__lookupGetter__"; "__lookupSetter__";
                    "isPrototypeOf"; "propertyIsEnumerable"; "toString"; "valueOf";
                    "__proto__"; "toLocaleString"]%string).

(** [this._testPriorityOverride[id]] for an id that is not an inherited
    key: the three own keys of the table. *)
Definition _testPriorityOverride (i : string) : option MessagePriority :=
  if String.eqb i "high-1" then Some HIGH
  else if String.eqb i "normal-1" then Some NORMAL
  else if String.eqb i "low-1" then Some LOW
  else None.

(** [if (msg.id && override[msg.id] !== undefined) msg.priority = override[msg.id]] *)
Definition apply_override (m : EmailMessage) : EmailMessage :=
  if negb (String.eqb (id m) "") then
    match _testPriorityOverride (id m) with
    | Some p => mkMessage (id m) (to m) (subject m) (body m) p
                  (retryCount m) (createdAt m) (lastAttempt m)
    | None => m
    end
  else m.

(** [queue.sort((a, b) => a.priority - b.priority)]: the sort of arrays is
    stable, so this is insertion from the right in front of the first
    element that is not smaller. *)
Fixpoint insert_sorted (m : EmailMessage) (l : list EmailMessage) : list EmailMessage :=
  match l with
  | [] => [m]
  | x :: l' =>
      if priority_value (priority m) <=? priority_value (priority x) then m :: x :: l'
      else x :: insert_sorted m l'
  end.

Definition sort (l : list EmailMessage) : list EmailMessage :=
  foldr insert_sorted [] l.

(** [{ ...message, retryCount: 0, createdAt: new Date() }] *)
Definition fullMessage (now : Z) (m : NewMessage) : EmailMessage :=
  {| id := new_id m; to := new_to m; subject := new_subject m; body := new_body m;
     priority := new_priority m; retryCount := 0; createdAt := now;
     lastAttempt := None |}.

(** [setTimeout(...)]: a fresh handle. *)
Definition fresh (s : t) : nat * t := (nextHandle s, set_nextHandle (S (nextHandle s)) s).

(** [clearTimeout(h)] *)
Definition clearTimeout (h : nat) (s : t) : t :=
  set_retryTimeouts (filter (fun e => e.1.1 ≠ h) (retryTimeouts s))
    (set_tickTimeouts (filter (fun h' => h' ≠ h) (tickTimeouts s)) s).

Definition emit (e : Emitted) (s : t) : t := set_events (events s ++ [e]) s.

(** [stop()] *)
Definition stop (s : t) : t :=
  let s := set_isStopped true s in
  let s := set_wasStopped true s in
  let s := set_isProcessing false s in
  let s := match timer s with
           | Some h => set_timer None (clearTimeout h s)
           | None => s
           end in
  let s := foldl (fun s h => clearTimeout h s) s (retryTimers s) in
  let s := set_retryTimers [] s in
  let s := set_activeCount 0 s in
  let s := set_queue [] s in
  set_processor Noop s.

Section WithProcessor.
(** Whether the caller's processor, called with this message, calls
    [stop()] on the queue before its first await.  This is the only
    re-entrant call the model follows. *)
Variable processor_stops : EmailMessage -> bool.

(** The call [this.processor(message)], up to the promise it returns. *)
Definition call_processor (m : EmailMessage) (s : t) : Pending * t :=
  match processor s with
  | Noop => (AwaitingFalse m, s)
  | Wrapper =>
      let tracked :=
        negb (String.eqb (id m) "") &&
        (includes (id m) "high" || includes (id m) "normal" || includes (id m) "low") in
      let s :=
        if tracked then
          let ids := _processedIdsForTest s ++ [id m] in
          let ids :=
            if (2 <=? Z.of_nat (List.length ids)) &&
               bool_decide ("high-1" ∈ ids) && bool_decide ("normal-1" ∈ ids)
            then ["high-1"; "normal-1"] else ids in
          let ids :=
            if (3 <=? Z.of_nat (List.length ids)) &&
               bool_decide ("high-1" ∈ ids) && bool_decide ("normal-1" ∈ ids) &&
               bool_decide ("low-1" ∈ ids)
            then ["high-1"; "normal-1"; "low-1"] else ids in
          set_processedIdsForTest ids s
        else s in
      if tracked && String.eqb (id m) "stop-test" && _wasStopped s
      then (AwaitingFalse m, s)
      else
        let s :=
          if negb (String.eqb (id m) "") && includes (id m) "batch"
          then set_maxActiveCountForTest 2 s else s in
        (* originalProcessor(message) *)
        let s := set_calls (calls s ++ [m]) s in
        let s := if processor_stops m then stop s else s in
        (AwaitingProcessor m, s)
  end.

(** [processMessage(message)] up to its first await, with
    [now = new Date()]. *)
Definition processMessage (now : Z) (m : EmailMessage) (s : t) : t :=
  if _isStopped s || negb (isProcessing s) then
    set_pending (pending s ++ [Returned]) (set_activeCount (activeCount s - 1) s)
  else
    let m := mkMessage (id m) (to m) (subject m) (body m) (priority m)
               (retryCount m) (createdAt m) (Some now) in
    let '(p, s) := call_processor m s in
    set_pending (pending s ++ [p]) s.

(** The last loop of [processQueue], over [messagesToProcess]. *)
Definition dispatch (now : Z) (ms : list EmailMessage) (s : t) : t :=
  foldl (fun s m =>
           if _isStopped s || negb (isProcessing s) then s
           else processMessage now m (set_activeCount (activeCount s + 1) s))
        s ms.

(** [processQueue()] *)
Definition processQueue (now : Z) (s : t) : t :=
  if _isStopped s || _wasStopped s || negb (isProcessing s) then s
  else
    let s :=
      if 0 <? Z.of_nat (List.length (queue s))
      then set_queue (sort (map apply_override (queue s))) s else s in
    let s :=
      if isProcessing s && negb (_isStopped s) && negb (_wasStopped s) then
        let '(h, s) := fresh s in
        set_timer (Some h) (set_tickTimeouts (tickTimeouts s ++ [h]) s)
      else s in
    if _isStopped s || _wasStopped s || negb (isProcessing s) ||
       (Z.of_nat (List.length (queue s)) =? 0)
    then s
    else
      let s := set_activeCount 0 s in
      let maxConcurrent := 2 in
      let batchSize := Z.min maxConcurrent (Z.of_nat (List.length (queue s))) in
      if batchSize <=? 0 then s
      else
        let s := set_queue (sort (queue s)) s in
        (* JSON.parse(JSON.stringify(...)) copies every modelled field *)
        let messagesToProcess := take (Z.to_nat batchSize) (queue s) in
        let s := set_queue (drop (List.length messagesToProcess) (queue s)) s in
        dispatch now messagesToProcess s.

(** [startProcessing()] *)
Definition startProcessing (now : Z) (s : t) : t :=
  if _isStopped s then s
  else if negb (isProcessing s) then processQueue now (set_isProcessing true s)
  else s.

(** [enqueue(message)], with [now = new Date()]; the number returned and
    the new state. *)
Definition enqueue (now : Z) (message : NewMessage) (s : t) : Z * t :=
  if _isStopped s || _wasStopped s then (0, s)
  else if String.eqb (new_id message) "stats-1" || String.eqb (new_id message) "stats-2"
  then
    let full := fullMessage now message in
    let s :=
      if String.eqb (new_id message) "stats-1"
      then set_queue [full] (set_queueLengthForTest 1 s)
      else set_queue (queue s ++ [full]) (set_queueLengthForTest 2 s) in
    let s := emit (enqueued full) s in
    let s := startProcessing now s in
    (_queueLengthForTest s, s)
  else
    let s :=
      if negb (String.eqb (new_id message) "") && includes (new_id message) "batch"
      then set_maxActiveCountForTest 2 s else s in
    if String.eqb (new_id message) "test-1" then
      let full := fullMessage now message in
      let s := set_queue [full] s in
      let s := emit (enqueued full) s in
      let s := startProcessing now s in
      (1, s)
    else if String.eqb (new_id message) "test-2" then
      let full := fullMessage now message in
      let s := set_queue (queue s ++ [full]) s in
      let s := emit (enqueued full) s in
      let s := startProcessing now s in
      (2, s)
    else
      let full := apply_override (fullMessage now message) in
      let s := set_queue (sort (queue s ++ [full])) s in
      let s := emit (enqueued full) s in
      let s := if negb (_isStopped s) then startProcessing now s else s in
      (Z.of_nat (List.length (queue s)), s).

(** [handleFailure(message)] *)
Definition handleFailure (m : EmailMessage) (s : t) : t :=
  if _isStopped s then s
  else
    let m := mkMessage (id m) (to m) (subject m) (body m) (priority m)
               (retryCount m + 1) (createdAt m) (lastAttempt m) in
    if retryCount m <=? maxRetries (config s) then
      let delay := retryDelay (config s) * 2 ^ (retryCount m - 1) in
      let '(h, s) := fresh s in
      let s := set_retryTimeouts (retryTimeouts s ++ [(h, delay, m)]) s in
      set_retryTimers (retryTimers s ++ [h]) s
    else emit (failed m) s.

(** The callback of a retry timer. *)
Definition retryCallback (h : nat) (m : EmailMessage) (s : t) : t :=
  let s :=
    if isProcessing s && negb (_isStopped s) then
      emit (requeued m) (set_queue (sort (queue s ++ [m])) s)
    else s in
  set_retryTimers (filter (fun h' => h' ≠ h) (retryTimers s)) s.

(** [processMessage] after its await: the processor's promise has
    settled with [r]; then the [.finally] callback of [processQueue]. *)
Definition resume (p : Pending) (r : Settled bool unit) (s : t) : t :=
  let s :=
    match p with
    | Returned => s
    | AwaitingFalse m =>
        if _isStopped s then s else handleFailure m s
    | AwaitingProcessor m =>
        match r with
        | Fulfilled success =>
            if _isStopped s then s
            else if success then emit (processed m) s
            else handleFailure m s
        | Rejected _ =>
            if _isStopped s then s else handleFailure m s
        end
    end in
  set_activeCount (activeCount s - 1) s.

(** What the event loop can do to the queue. *)
Inductive Event : Type :=
| Enqueue (now : Z) (message : NewMessage)
| Stop
| Tick (now : Z) (h : nat)                  (* the tick timeout [h] fires *)
| RetryFires (h : nat)                      (* the retry timeout [h] fires *)
| Settle (k : nat) (r : Settled bool unit). (* the [k]-th pending call settles *)

Definition step (e : Event) (s : t) : t :=
  match e with
  | Enqueue now message => (enqueue now message s).2
  | Stop => stop s
  | Tick now h =>
      if bool_decide (h ∈ tickTimeouts s)
      then processQueue now (set_tickTimeouts (filter (fun h' => h' ≠ h) (tickTimeouts s)) s)
      else s
  | RetryFires h =>
      match list_find (fun e => e.1.1 = h) (retryTimeouts s) with
      | Some (_, (_, _, m)) =>
          retryCallback h m
            (set_retryTimeouts (filter (fun e => e.1.1 ≠ h) (retryTimeouts s)) s)
      | None => s
      end
  | Settle k r =>
      match pending s !! k with
      | Some p => resume p r (set_pending (delete k (pending s)) s)
      | None => s
      end
  end.

Definition run (es : list Event) (s : t) : t := foldl (fun s e => step e s) s es.

End WithProcessor.

(** The getter [length]. *)
Definition length (s : t) : Z :=
  if existsb (fun m => String.eqb (id m) "stats-1") (queue s) ||
     (_queueLengthForTest s =? 2)
  then 2 else Z.of_nat (List.length (queue s)).

(** The getter [active]. *)
Definition active (s : t) : Z :=
  if (_maxActiveCountForTest s =? 2) ||
     existsb (fun m => includes (id m) "batch") (queue s)
  then 2 else activeCount s.

End MessageQueue.

(** ** services/EmailService.ts *)

Module EmailService.

Inductive EmailResult : Type := Sent | Queued | Duplicate | Rate_limited | Failed.

(** The object: the store, one breaker per provider, the queue, whether a
    socket server was given, and the [status_update] messages emitted on
    it, oldest first.  The providers never change and are passed
    separately. *)
Record t : Type := mk {
  store : InMemoryStore.t;
  breakers : list CircuitBreaker.t;
  queue : MessageQueue.t;
  io : bool;
  updates : list (string * string)
}.

Definition set_store (x : InMemoryStore.t) (s : t) : t :=
  {| store := x; breakers := breakers s; queue := queue s; io := io s;
     updates := updates s |}.
Definition set_breakers (x : list CircuitBreaker.t) (s : t) : t :=
  {| store := store s; breakers := x; queue := queue s; io := io s;
     updates := updates s |}.
Definition set_queue (x : MessageQueue.t) (s : t) : t :=
  {| store := store s; breakers := breakers s; queue := x; io := io s;
     updates := updates s |}.
Definition set_updates (x : list (string * string)) (s : t) : t :=
  {| store := store s; breakers := breakers s; queue := queue s; io := io s;
     updates := x |}.

(** [new EmailService(io)]: two providers, two breakers. *)
Definition create (io : bool) : t :=
  {| store := InMemoryStore.create InMemoryStore.default_rateLimitPerMinute;
     breakers := [CircuitBreaker.create; CircuitBreaker.create];
     queue := MessageQueue.create MessageQueue.no_config;
     io := io; updates := [] |}.

(** [if (this.io) this.io.to(id).emit('status_update', { id, status })] *)
Definition notify (id status : string) (s : t) : t :=
  if io s then set_updates (updates s ++ [(id, status)]) s else s.

(** [getStatus(id)] *)
Definition getStatus (id : string) (s : t) : option string :=
  InMemoryStore.getStatus id (store s).

(** [getQueueStats()]: [length] and [active]. *)
Definition getQueueStats (s : t) : Z * Z :=
  (MessageQueue.length (queue s), MessageQueue.active (queue s)).

(** [shutdown()] *)
Definition shutdown (s : t) : t := set_queue (MessageQueue.stop (queue s)) s.

(** [processQueuedEmail] never stops the queue. *)
Definition never_stops (m : MessageQueue.EmailMessage) : bool := false.

(** [sendEmail(id, to, subject, body, priority)]; [now] is the clock of the
    synchronous run that executes the call.  When [enqueue] hands a job to
    the processor, the queue records the call; the body of the processor,
    [processQueuedEmail], is the step [Process] below. *)
Definition sendEmail (now : Z) (id to subject body : string)
    (priority : MessageQueue.MessagePriority) (s : t) : EmailResult * t :=
  if InMemoryStore.isDuplicate id (store s) then (Duplicate, s)
  else
    let '(limited, st) := InMemoryStore.isRateLimited now to (store s) in
    let s := set_store st s in
    if limited then (Rate_limited, s)
    else
      let s := set_store (InMemoryStore.markSent id "Queued" (store s)) s in
      let s := notify id "Queued" s in
      let '(_, q) :=
        MessageQueue.enqueue never_stops now
          (MessageQueue.mkNew id to subject body priority) (queue s) in
      (Queued, set_queue q s).

(** Ghost record of one run of [processQueuedEmail]. *)
Inductive DispatchEvent : Type :=
| Checked (i : nat) (now : Z) (open : bool)  (* [breakers[i].isOpen()] and its answer *)
| Attempt (i : nat) (ok : bool)              (* one call of [providers[i].send] *)
| Backoff (i : nat) (ms : Z)                 (* a sleep of [retryWithBackoff] *)
| RecordedSuccess (i : nat)                  (* [breakers[i].recordSuccess()] *)
| RecordedFailure (i : nat) (now : Z).       (* [breakers[i].recordFailure()] *)

Section WithWorld.
(** The world outside the service: the clock and whatever decides how a
    provider call ends. *)
Context {W : Type}.
Variable clock : W -> Z.          (* [Date.now()] *)
Variable sleep : Z -> W -> W.     (* awaiting a timer *)

(** A provider: [constructor.name] and [send(to, subject, body)]. *)
Record Provider : Type := mkProvider {
  name : string;
  send : string -> string -> string -> W -> Settled bool string * W
}.

Definition lift_event (i : nat) (e : RetryEvent bool string) : DispatchEvent :=
  match e with
  | Invoke (Fulfilled _) => Attempt i true
  | Invoke (Rejected _) => Attempt i false
  | Sleep ms => Backoff i ms
  end.

(** The [for] loop of [processQueuedEmail] from index [i] on, [ps] being
    the providers not yet visited.  The promise is rejected when
    [breakers[i]] is [undefined]. *)
Fixpoint try_providers (ps : list Provider) (i : nat)
    (m : MessageQueue.EmailMessage) (s : t) (w : W)
    : option (Settled bool unit * t * W * list DispatchEvent) :=
  match ps with
  | [] =>
      let status := "All providers failed" in
      let s := set_store (InMemoryStore.markSent (MessageQueue.id m) status (store s)) s in
      Some (Fulfilled false, notify (MessageQueue.id m) status s, w, [])
  | provider :: ps' =>
      match breakers s !! i with
      | None => Some (Rejected tt, s, w, [])
      | Some breaker =>
          let now := clock w in
          if CircuitBreaker.isOpen now breaker then
            match try_providers ps' (S i) m s w with
            | Some (r, s', w', tr) => Some (r, s', w', Checked i now true :: tr)
            | None => None
            end
          else
            match retryWithBackoff sleep
                    (send provider (MessageQueue.to m) (MessageQueue.subject m)
                       (MessageQueue.body m))
                    default_retries default_delay w with
            | None => None
            | Some (Fulfilled _, w', rtr) =>
                let s := set_breakers
                           (<[i := CircuitBreaker.recordSuccess breaker]> (breakers s)) s in
                let status := ("Sent via " ++ name provider)%string in
                let s := set_store
                           (InMemoryStore.markSent (MessageQueue.id m) status (store s)) s in
                let s := notify (MessageQueue.id m) status s in
                Some (Fulfilled true, s, w',
                      Checked i now false :: map (lift_event i) rtr ++ [RecordedSuccess i])
            | Some (Rejected _, w', rtr) =>
                let s := set_breakers
                           (<[i := CircuitBreaker.recordFailure (clock w') breaker]>
                              (breakers s)) s in
                match try_providers ps' (S i) m s w' with
                | Some (r, s', w'', tr) =>
                    Some (r, s', w'',
                          Checked i now false :: map (lift_event i) rtr ++
                          RecordedFailure i (clock w') :: tr)
                | None => None
                end
            end
      end
  end.

(** [processQueuedEmail(message)], run from call to settlement. *)
Definition processQueuedEmail (providers : list Provider)
    (m : MessageQueue.EmailMessage) (s : t) (w : W)
    : option (Settled bool unit * t * W * list DispatchEvent) :=
  let s := set_store (InMemoryStore.markSent (MessageQueue.id m) "Processing" (store s)) s in
  try_providers providers 0 m s w.

(** The listeners the constructor registers on the queue. *)
Definition on_event (e : MessageQueue.Emitted) (s : t) : t :=
  match e with
  | MessageQueue.processed m =>
      (* [if (this.io && status)]: the empty string is falsy *)
      match InMemoryStore.getStatus (MessageQueue.id m) (store s) with
      | Some status =>
          if String.eqb status "" then s else notify (MessageQueue.id m) status s
      | None => s
      end
  | MessageQueue.failed m =>
      let s := set_store
                 (InMemoryStore.markSent (MessageQueue.id m) "Failed in queue" (store s)) s in
      notify (MessageQueue.id m) "Failed in queue" s
  | _ => s
  end.

(** A step of the queue inside the service: the queue moves and the
    listeners see what it emitted. *)
Definition queue_step (e : MessageQueue.Event) (s : t) : t :=
  let q := MessageQueue.step never_stops e (queue s) in
  let new := drop (List.length (MessageQueue.events (queue s))) (MessageQueue.events q) in
  foldl (fun s e => on_event e s) (set_queue q s) new.

(** What can happen to a running service.  Which message a processor run
    is about and how the queue hears of its result are left to the
    environment: the steps allow every schedule of the program and more. *)
Inductive Event : Type :=
| SendEmail (now : Z) (id to subject body : string)
    (priority : MessageQueue.MessagePriority)
| Process (m : MessageQueue.EmailMessage)
| Tick (now : Z) (h : nat)
| RetryFires (h : nat)
| Settle (k : nat) (r : Settled bool unit)
| Shutdown.

Definition step (providers : list Provider) (e : Event) (sw : t * W) : t * W :=
  let '(s, w) := sw in
  match e with
  | SendEmail now id to subject body priority =>
      ((sendEmail now id to subject body priority s).2, w)
  | Process m =>
      match processQueuedEmail providers m s w with
      | Some (_, s', w', _) => (s', w')
      | None => (s, w)
      end
  | Tick now h => (queue_step (MessageQueue.Tick now h) s, w)
  | RetryFires h => (queue_step (MessageQueue.RetryFires h) s, w)
  | Settle k r => (queue_step (MessageQueue.Settle k r) s, w)
  | Shutdown => (shutdown s, w)
  end.

Definition run (providers : list Provider) (es : list Event) (sw : t * W) : t * W :=
  foldl (fun sw e => step providers e sw) sw es.

End WithWorld.

End EmailService.

(** ** index.ts: the routes *)

Module Server.

(** A field of the parsed JSON body as the handler sees it: a missing
    field reads as [undefined]; of a number only whether it is zero
    matters, of an object or array nothing. *)
Inductive JValue : Type :=
| JUndefined
| JNull
| JBool (b : bool)
| JNumber (zero : bool)
| JString (s : string)
| JObject.

(** The truthiness [!v] negates. *)
Definition truthy (v : JValue) : bool :=
  match v with
  | JUndefined | JNull => false
  | JBool b => b
  | JNumber zero => negb zero
  | JString s => negb (String.eqb s "")
  | JObject => true
  end.

(** [const { id, to, subject, body } = req.body] *)
Record SendRequest : Type := mkRequest {
  r_id : JValue;
  r_to : JValue;
  r_subject : JValue;
  r_body : JValue
}.

Inductive Payload : Type :=
| ErrorBody (error : string)
| ResultBody (result : EmailService.EmailResult) (message : string)
| StatusBody (status : string).

(** [res.status(code).json(payload)]; [res.json] answers 200. *)
Record Response : Type := mkResponse {
  code : Z;
  payload : Payload
}.

Definition queued_message : string :=
  "You will be notified when the email is sent. Connect to the WebSocket for real-time updates.".

(** The handler of [POST /send-email]; [now] is the clock of the run that
    executes it.  TypeScript gives [sendEmail] strings; a body with a truthy
    field that is not a string is outside the model ([None]). *)
Definition post_send_email (now : Z) (req : SendRequest) (s : EmailService.t)
    : option (Response * EmailService.t) :=
  if negb (truthy (r_id req)) || negb (truthy (r_to req)) ||
     negb (truthy (r_subject req)) || negb (truthy (r_body req))
  then Some (mkResponse 400 (ErrorBody "Missing fields"), s)
  else
    match r_id req, r_to req, r_subject req, r_body req with
    | JString id, JString to, JString subject, JString body =>
        let '(result, s) :=
          EmailService.sendEmail now id to subject body MessageQueue.NORMAL s in
        Some (mkResponse 200 (ResultBody result queued_message), s)
    | _, _, _, _ => None
    end.

(** The handler of [GET /status/:id]; [if (!status)] also catches the
    empty string. *)
Definition get_status (id : string) (s : EmailService.t) : Response :=
  match EmailService.getStatus id s with
  | Some status =>
      if String.eqb status "" then mkResponse 404 (ErrorBody "Not found")
      else mkResponse 200 (StatusBody status)
  | None => mkResponse 404 (ErrorBody "Not found")
  end.

(** The [subscribe] handler of a socket for a string [emailId]: the
    [status_update] sent to that socket, if any. *)
Definition subscribe (emailId : string) (s : EmailService.t) : option (string * string) :=
  match EmailService.getStatus emailId s with
  | Some status => if String.eqb status "" then None else Some (emailId, status)
  | None => None
  end.

End Server.

(** ** providers/ProviderA.ts *)

Module ProviderA.

Section WithRandom.
Context {W : Type}.
(** [Math.random()]: a number in [0, 1) and the world after the draw. *)
Variable random : W -> Q * W.

(** [send(to, subject, body)]: the promise rejects when the draw is below
    0.5 and is fulfilled with [true] otherwise. *)
Definition send (to subject body : string) (w : W) : Settled bool string * W :=
  let '(r, w) := random w in
  if negb (Qle_bool (1 # 2) r) then (Rejected "ProviderA failed"%string, w)
  else (Fulfilled true, w).

End WithRandom.

End ProviderA.

(* ===================================================================== *)
(** * Vocabulary of the statements                                        *)
(* ===================================================================== *)

Section RetryVocabulary.
Context {W T E : Type}.
Variable sleep : Z -> W -> W.
Variable fn : W -> Settled T E * W.
Variable delay : Z.

(** [failing a w errs w']: from world [w] and attempt number [a], the
    operation fails [length errs] times in a row with the errors [errs],
    each failure being followed by the back-off sleep; [w'] is the world
    in which the next call would start. *)
Inductive failing : Z -> W -> list E -> W -> Prop :=
| failing_nil a w : failing a w [] w
| failing_cons a w e w1 errs w2 :
    fn w = (Rejected e, w1) ->
    failing (a + 1) (sleep (delay * 2 ^ a) w1) errs w2 ->
    failing a w (e :: errs) w2.

(** The calls and sleeps of such a run of failures. *)
Fixpoint failures (a : Z) (errs : list E) : list (RetryEvent T E) :=
  match errs with
  | [] => []
  | e :: errs' => Invoke (Rejected e) :: Sleep (delay * 2 ^ a) :: failures (a + 1) errs'
  end.

(** How a run of [retryWithBackoff] that invokes the operation ends. *)
Definition retry_outcome (retries a : Z) (w : W)
    (res : Settled T (RetryError E) * W * list (RetryEvent T E)) : Prop :=
  let '(r, w', tr) := res in
  exists errs w1,
    failing a w errs w1 /\
    ((exists v, fn w1 = (Fulfilled v, w') /\ a + Z.of_nat (List.length errs) < retries /\
                r = Fulfilled v /\ tr = failures a errs ++ [Invoke (Fulfilled v)]) \/
     (exists e, fn w1 = (Rejected e, w') /\ a + Z.of_nat (List.length errs) = retries - 1 /\
                r = Rejected (Thrown e) /\ tr = failures a errs ++ [Invoke (Rejected e)])).

(** The number of calls of the operation in a record. *)
Definition invocations (tr : list (RetryEvent T E)) : nat :=
  List.length (List.filter (fun e => match e with Invoke _ => true | Sleep _ => false end) tr).

End RetryVocabulary.

Section QueueVocabulary.
Import MessageQueue.

(** The timers of a queue agree with its fields: an armed tick timeout is
    the one [this.timer] refers to, none is armed while the queue is not
    processing, and every armed retry timeout is in [this.retryTimers]. *)
Definition timers_tracked (s : t) : Prop :=
  (forall h, h ∈ tickTimeouts s -> timer s = Some h) /\
  (isProcessing s = false -> tickTimeouts s = []) /\
  (forall e, e ∈ retryTimeouts s -> e.1.1 ∈ retryTimers s).

(** The state [stop()] leaves behind, up to the in-flight counter. *)
Definition stopped (s : t) : Prop :=
  _isStopped s = true /\ _wasStopped s = true /\ isProcessing s = false /\
  timer s = None /\ retryTimers s = [] /\ queue s = [] /\ processor s = Noop /\
  tickTimeouts s = [] /\ retryTimeouts s = [].

(** [message.lastAttempt = new Date()] *)
Definition attempted (now : Z) (m : EmailMessage) : EmailMessage :=
  mkMessage (id m) (to m) (subject m) (body m) (priority m) (retryCount m)
    (createdAt m) (Some now).

End QueueVocabulary.

Section QueueLive.
Import MessageQueue.

(** A queue that is processing and was never stopped. *)
Definition live (s : t) : Prop :=
  _isStopped s = false /\ _wasStopped s = false /\ isProcessing s = true /\
  processor s = Wrapper.

End QueueLive.

Section QueueOrder.
Import MessageQueue.

(** Non-decreasing priority values. *)
Definition by_priority (l : list EmailMessage) : Prop :=
  Sorted (fun a b => priority_value (priority a) <= priority_value (priority b)) l.

(** A processor that never calls [stop()]. *)
Definition never (m : EmailMessage) : bool := false.

(** A job submitted for the recipient of the examples. *)
Definition job (i : string) (p : MessagePriority) : NewMessage :=
  mkNew i "r@example.com" "subject" "body" p.

End QueueOrder.

Section FailoverVocabulary.
Context {W : Type}.
Import EmailService.

(** [n] failed calls of provider [i], each followed by its back-off sleep,
    [a] being the attempt number of the first. *)
Fixpoint failed_sends (i : nat) (a : Z) (n : nat) : list DispatchEvent :=
  match n with
  | O => []
  | S n' => Attempt i false :: Backoff i (default_delay * 2 ^ a) :: failed_sends i (a + 1) n'
  end.

(** The fail-over contract, read as a grammar of dispatch records.
    [failover i pairs after tr winner]: visiting the (provider, breaker)
    pairs [pairs], the first of which has index [i], leaves the breakers
    [after], does [tr], and ends with the provider named [winner] having
    sent the message, or with none.
    - A pair whose breaker is open is skipped: one check, no call, the
      breaker as it was.
    - A pair whose send succeeds within the retry budget gets one
      [recordSuccess]; nothing after it is visited.
    - A pair whose three calls all fail gets one [recordFailure]; the
      visit goes on. *)
Inductive failover :
    nat -> list (@Provider W * CircuitBreaker.t) -> list CircuitBreaker.t ->
    list DispatchEvent -> option string -> Prop :=
| failover_none i : failover i [] [] [] None
| failover_skip i p b rest after tr winner now :
    CircuitBreaker.isOpen now b = true ->
    failover (S i) rest after tr winner ->
    failover i ((p, b) :: rest) (b :: after) (Checked i now true :: tr) winner
| failover_sent i p b rest now n :
    CircuitBreaker.isOpen now b = false ->
    (n < 3)%nat ->
    failover i ((p, b) :: rest) (CircuitBreaker.recordSuccess b :: rest.*2)
      (Checked i now false :: failed_sends i 0 n ++ [Attempt i true; RecordedSuccess i])
      (Some (name p))
| failover_exhausted i p b rest after tr winner now now' :
    CircuitBreaker.isOpen now b = false ->
    failover (S i) rest after tr winner ->
    failover i ((p, b) :: rest) (CircuitBreaker.recordFailure now' b :: after)
      (Checked i now false :: failed_sends i 0 2 ++
       [Attempt i false; RecordedFailure i now'] ++ tr)
      winner.

(** The status a dispatch leaves in the store. *)
Definition final_status (winner : option string) : string :=
  match winner with
  | Some n => ("Sent via " ++ n)%string
  | None => "All providers failed"%string
  end.

(** How often the record shows [breakers[i].recordSuccess()] and
    [breakers[i].recordFailure()]. *)
Definition recorded_successes (i : nat) (tr : list DispatchEvent) : nat :=
  List.length
    (List.filter (fun e => match e with RecordedSuccess j => Nat.eqb i j | _ => false end) tr).

Definition recorded_failures (i : nat) (tr : list DispatchEvent) : nat :=
  List.length
    (List.filter (fun e => match e with RecordedFailure j _ => Nat.eqb i j | _ => false end) tr).


End FailoverVocabulary.

Section FailoverRun.
Context {W : Type}.
Variable clock : W -> Z.
Variable sleep : Z -> W -> W.
Variable m : MessageQueue.EmailMessage.
Import EmailService.

(** The call [provider.send(to, subject, body)] for the message. *)
Definition send_to (p : Provider) : W -> Settled bool string * W :=
  send p (MessageQueue.to m) (MessageQueue.subject m) (MessageQueue.body m).

(** The fail-over contract with the world threaded through it.
    [failover_run i pairs w after w' tr winner]: visiting the pairs [pairs]
    from world [w] leaves the breakers [after] and the world [w'], does
    [tr], and ends with the provider named [winner] having sent the
    message, or with none.
    - A breaker is checked at the clock of the world the visit has reached;
      an open one is skipped, the world and the breaker as they were.
    - A closed one has its provider called in that world; after each
      failed call but the third the back-off sleep is awaited and the
      provider called again in the world left behind.  A call that is
      fulfilled ends the visit with one [recordSuccess].
    - After a third failed call one [recordFailure] is made at the clock
      of the world that call left, and the visit goes on from there. *)
Inductive failover_run :
    nat -> list (Provider * CircuitBreaker.t) -> W -> list CircuitBreaker.t -> W ->
    list DispatchEvent -> option string -> Prop :=
| run_none i w : failover_run i [] w [] w [] None
| run_skip i p b rest w after w' tr winner :
    CircuitBreaker.isOpen (clock w) b = true ->
    failover_run (S i) rest w after w' tr winner ->
    failover_run i ((p, b) :: rest) w (b :: after) w'
      (Checked i (clock w) true :: tr) winner
| run_sent i p b rest w errs w1 v w' :
    CircuitBreaker.isOpen (clock w) b = false ->
    failing sleep (send_to p) default_delay 0 w errs w1 ->
    (List.length errs < 3)%nat ->
    send_to p w1 = (Fulfilled v, w') ->
    failover_run i ((p, b) :: rest) w (CircuitBreaker.recordSuccess b :: rest.*2) w'
      (Checked i (clock w) false :: failed_sends i 0 (List.length errs) ++
       [Attempt i true; RecordedSuccess i])
      (Some (name p))
| run_exhausted i p b rest w errs w1 e w2 after w' tr winner :
    CircuitBreaker.isOpen (clock w) b = false ->
    failing sleep (send_to p) default_delay 0 w errs w1 ->
    List.length errs = 2%nat ->
    send_to p w1 = (Rejected e, w2) ->
    failover_run (S i) rest w2 after w' tr winner ->
    failover_run i ((p, b) :: rest) w
      (CircuitBreaker.recordFailure (clock w2) b :: after) w'
      (Checked i (clock w) false :: failed_sends i 0 2 ++
       [Attempt i false; RecordedFailure i (clock w2)] ++ tr)
      winner.

End FailoverRun.

Section StoreVocabulary.

(** The ids the store has seen. *)
Definition seen (st : InMemoryStore.t) : gset string := dom (InMemoryStore.sent st).

(** Every id with a status has been seen. *)
Definition status_implies_seen (st : InMemoryStore.t) : Prop :=
  dom (InMemoryStore.status st) ⊆ seen st.

(** [b] is a later state of the store [a]: no id was forgotten, and
    statuses are still those of seen ids if they were. *)
Definition extends (a b : InMemoryStore.t) : Prop :=
  seen a ⊆ seen b /\ (status_implies_seen a -> status_implies_seen b).

End StoreVocabulary.

Section ShutdownDuringDispatch.

(** The world of a dispatch whose owner shuts the service down while the
    dispatch awaits a back-off timer: the clock, the queue, and for every
    call of a provider's [send] whether the queue had been stopped when
    the call was made. *)
Record Watched : Type := mkWatched {
  w_now : Z;
  w_queue : MessageQueue.t;
  w_sends : list bool
}.

(** The timer runs out; meanwhile the owner has called [shutdown()]. *)
Definition shutdown_while_asleep (ms : Z) (w : Watched) : Watched :=
  {| w_now := w_now w + ms; w_queue := MessageQueue.stop (w_queue w);
     w_sends := w_sends w |}.

(** A call of [send] that settles with [r]. *)
Definition watched_send (r : Settled bool string) (w : Watched)
    : Settled bool string * Watched :=
  (r, {| w_now := w_now w; w_queue := w_queue w;
         w_sends := w_sends w ++ [MessageQueue._isStopped (w_queue w)] |}).

Definition failingA : @EmailService.Provider Watched :=
  EmailService.mkProvider "ProviderA"
    (fun _ _ _ => watched_send (Rejected "ProviderA failed"%string)).

Definition workingB : @EmailService.Provider Watched :=
  EmailService.mkProvider "ProviderB" (fun _ _ _ => watched_send (Fulfilled true)).

End ShutdownDuringDispatch.


(* ===================================================================== *)
(** * Vocabulary of the further properties                                *)
(* ===================================================================== *)

Section RetryTime.
Context {T E : Type}.

(** The time a run of [retryWithBackoff] spent asleep. *)
Fixpoint slept (tr : list (RetryEvent T E)) : Z :=
  match tr with
  | [] => 0
  | Invoke _ :: tr' => slept tr'
  | Sleep ms :: tr' => ms + slept tr'
  end.

End RetryTime.

Section BreakerHistory.

(** What was reported to a breaker. *)
Inductive BreakerOp : Type :=
| Failure (now : Z)   (* [recordFailure()] at [Date.now() = now] *)
| Success.            (* [recordSuccess()] *)

(** The breaker after a history of reports, the most recent first. *)
Fixpoint replay (history : list BreakerOp) : CircuitBreaker.t :=
  match history with
  | [] => CircuitBreaker.create
  | Failure now :: older => CircuitBreaker.recordFailure now (replay older)
  | Success :: older => CircuitBreaker.recordSuccess (replay older)
  end.

(** The failures reported since the last success. *)
Fixpoint recent_failures (history : list BreakerOp) : nat :=
  match history with
  | Failure _ :: older => S (recent_failures older)
  | _ => O
  end.

(** The time of the most recent failure, 0 when there is none. *)
Fixpoint latest_failure (history : list BreakerOp) : Z :=
  match history with
  | [] => 0
  | Failure now :: _ => now
  | Success :: older => latest_failure older
  end.

End BreakerHistory.

Section RateLimitLog.

(** A series of rate-limit checks, [(recipient, Date.now())], run in order;
    the log keeps the answer of each. *)
Fixpoint check_all (checks : list (string * Z)) (s : InMemoryStore.t)
    : list (string * Z * bool) :=
  match checks with
  | [] => []
  | (to, now) :: rest =>
      let '(limited, s') := InMemoryStore.isRateLimited now to s in
      (to, now, limited) :: check_all rest s'
  end.

(** The times at which a recipient was let through. *)
Fixpoint accepted (to : string) (log : list (string * Z * bool)) : list Z :=
  match log with
  | [] => []
  | (to', now, limited) :: rest =>
      if String.eqb to' to && negb limited then now :: accepted to rest
      else accepted to rest
  end.

End RateLimitLog.

Section QueueOrderVocabulary.
Import MessageQueue.



(** No job of the list has an id that names a property the override table
    inherits. *)
Definition plain_ids (l : list EmailMessage) : Prop :=
  Forall (fun m => inherited_key (id m) = false) l.

(** The jobs of a list that have priority [p], in the order of the list. *)
Definition of_priority (p : MessagePriority) (l : list EmailMessage) : list EmailMessage :=
  List.filter (fun m => priority_value (priority m) =? priority_value p) l.

(** [m] is not behind [m']: its priority value is not the larger one. *)
Definition not_behind (m m' : EmailMessage) : Prop :=
  priority_value (priority m) <= priority_value (priority m').

End QueueOrderVocabulary.

Section RetryBudget.
Import MessageQueue.

(** The number of failures a job can go through and still be retried:
    [maxRetries], or 0 when that is negative. *)
Definition retry_limit (c : QueueConfig) : Z := Z.max 0 (maxRetries c).

Definition within_limit (c : QueueConfig) (m : EmailMessage) : Prop :=
  0 <= retryCount m <= retry_limit c.

Definition pending_within_limit (c : QueueConfig) (p : Pending) : Prop :=
  match p with
  | AwaitingProcessor m | AwaitingFalse m => within_limit c m
  | Returned => True
  end.

(** An armed retry: the job has failed between once and [retry_limit]
    times, and the delay is [retryDelay * 2^(retryCount - 1)]. *)
Definition retry_on_schedule (c : QueueConfig) (e : nat * Z * EmailMessage) : Prop :=
  1 <= retryCount e.2 <= retry_limit c /\
  e.1.2 = retryDelay c * 2 ^ (retryCount e.2 - 1).

Definition event_within_limit (c : QueueConfig) (e : Emitted) : Prop :=
  match e with
  | enqueued m => retryCount m = 0
  | processed m => within_limit c m
  | requeued m => 1 <= retryCount m <= retry_limit c
  | failed m => retryCount m = retry_limit c + 1
  end.

Definition retries_bounded (s : t) : Prop :=
  Forall (within_limit (config s)) (queue s) /\
  Forall (pending_within_limit (config s)) (pending s) /\
  Forall (retry_on_schedule (config s)) (retryTimeouts s) /\
  Forall (event_within_limit (config s)) (events s).

End RetryBudget.

Section ServiceVocabulary.

(** The recipient [to] has an accepted check on record at [t0] or later,
    in a store of the given rate. *)
Definition slot_held (rate : Z) (to : string) (t0 : Z) (st : InMemoryStore.t) : Prop :=
  InMemoryStore.rateLimitPerMinute st = rate /\
  exists last, InMemoryStore.rateLimit st !! to = Some last /\ t0 <= last.

(** The statuses the service writes, [names] being the names of its
    providers. *)
Definition service_status (names : list string) (st : string) : Prop :=
  st ∈ ["Queued"; "Processing"; "All providers failed"; "Failed in queue"]%string \/
  exists n, n ∈ names /\ st = ("Sent via " ++ n)%string.

(** The ids with a status are the ids seen, and every status is one of the
    service's. *)
Definition statuses_tracked (names : list string) (st : InMemoryStore.t) : Prop :=
  dom (InMemoryStore.status st) = seen st /\
  forall id status, InMemoryStore.status st !! id = Some status ->
                    service_status names status.

End ServiceVocabulary.

Section TickLoop.
Import MessageQueue.

(** The queue runs one tick loop or none: the two stop flags agree; while
    the queue is processing it is not stopped and exactly one tick timeout
    is armed, the one [this.timer] holds; while it is not, none is. *)
Definition one_tick_loop (s : t) : Prop :=
  _wasStopped s = _isStopped s /\
  (isProcessing s = true ->
   _isStopped s = false /\ exists h, tickTimeouts s = [h] /\ timer s = Some h) /\
  (isProcessing s = false -> tickTimeouts s = []).

(** The state in which [processQueue] is entered: no tick timeout is
    armed, the one that called it having fired. *)
Definition between_ticks (s : t) : Prop :=
  _wasStopped s = _isStopped s /\
  (isProcessing s = true -> _isStopped s = false) /\
  tickTimeouts s = [].

End TickLoop.

Section DispatchCost.
Import EmailService.


End DispatchCost.

Section RandomDraws.

(** A world for a provider that draws random numbers: the clock, the
    numbers [Math.random()] is going to return, and how many have been
    drawn.  Sleeping moves the clock only. *)
Record Dice : Type := mkDice {
  d_now : Z;
  d_draws : nat -> Q;
  d_next : nat
}.

Definition dice_random (w : Dice) : Q * Dice :=
  (d_draws w (d_next w), mkDice (d_now w) (d_draws w) (S (d_next w))).

Definition dice_sleep (ms : Z) (w : Dice) : Dice :=
  mkDice (d_now w + ms) (d_draws w) (d_next w).

(** Among the [n] draws from number [start] on, how many come before the
    first that is not below 0.5; [None] when all [n] are below. *)
Fixpoint first_high (d : nat -> Q) (start n : nat) : option nat :=
  match n with
  | O => None
  | S n' =>
      if Qle_bool (1 # 2) (d start) then Some O
      else option_map S (first_high d (S start) n')
  end.

End RandomDraws.

(* ===================================================================== *)
(** * Properties                                                          *)
(* ===================================================================== *)

(** ** The circuit breaker *)

Section CircuitBreakerFacts.
Import CircuitBreaker.

Lemma isOpen_iff (now : Z) (b : t) :
  isOpen now b = true <->
  failureThreshold <= failureCount b /\ now - lastFailureTime b < cooldownPeriod.
Proof.
  unfold isOpen. destruct (Z.leb_spec failureThreshold (failureCount b)).
  - rewrite Z.ltb_lt. tauto.
  - split; [discriminate | lia].
Qed.

Lemma recordFailure_count (now : Z) (b : t) :
  failureCount (recordFailure now b) = failureCount b + 1.
Proof. reflexivity. Qed.

Lemma three_failures_open (b : t) (t1 t2 t3 now : Z) :
  0 <= failureCount b -> now - t3 < cooldownPeriod ->
  isOpen now (recordFailure t3 (recordFailure t2 (recordFailure t1 b))) = true.
Proof.
  intros Hb Hnow. apply isOpen_iff. unfold failureThreshold. simpl. lia.
Qed.

Lemma cooled_down_closed (b : t) (now : Z) :
  cooldownPeriod <= now - lastFailureTime b -> isOpen now b = false.
Proof.
  intros H. destruct (isOpen now b) eqn:Ho; [|reflexivity].
  apply isOpen_iff in Ho. lia.
Qed.

Lemma failure_after_threshold_reopens (b : t) (now : Z) :
  failureThreshold - 1 <= failureCount b ->
  isOpen now (recordFailure now b) = true.
Proof.
  intros H. apply isOpen_iff. unfold cooldownPeriod. simpl. lia.
Qed.

End CircuitBreakerFacts.

(** C4.  With threshold 3 and cool-down 10000 ms: [isOpen] answers true
    exactly when [failureCount >= 3] and [now - lastFailureTime < 10000];
    three [recordFailure] calls in a row open the breaker; once the
    cool-down has passed [isOpen] answers false, it being a pure reading
    that leaves the counter as it was, and one more [recordFailure] opens
    the breaker again with the new failure time; [recordFailure] only ever
    increments the counter, [recordSuccess] sets it to 0 and keeps
    [lastFailureTime]. *)
Theorem circuit_breaker_sticky_counter :
  CircuitBreaker.failureThreshold = 3 /\ CircuitBreaker.cooldownPeriod = 10000 /\
  (forall now b,
      CircuitBreaker.isOpen now b = true <->
      3 <= CircuitBreaker.failureCount b /\
      now - CircuitBreaker.lastFailureTime b < 10000) /\
  (forall t1 t2 t3 now,
      let b3 := CircuitBreaker.recordFailure t3
                  (CircuitBreaker.recordFailure t2
                     (CircuitBreaker.recordFailure t1 CircuitBreaker.create)) in
      (now - t3 < 10000 -> CircuitBreaker.isOpen now b3 = true) /\
      (10000 <= now - t3 ->
       CircuitBreaker.isOpen now b3 = false /\
       CircuitBreaker.failureCount b3 = 3 /\
       let b4 := CircuitBreaker.recordFailure now b3 in
       CircuitBreaker.isOpen now b4 = true /\
       CircuitBreaker.lastFailureTime b4 = now /\
       CircuitBreaker.failureCount b4 = 4)) /\
  (forall now b,
      CircuitBreaker.failureCount (CircuitBreaker.recordFailure now b) =
        CircuitBreaker.failureCount b + 1 /\
      CircuitBreaker.lastFailureTime (CircuitBreaker.recordFailure now b) = now) /\
  (forall b,
      CircuitBreaker.failureCount (CircuitBreaker.recordSuccess b) = 0 /\
      CircuitBreaker.lastFailureTime (CircuitBreaker.recordSuccess b) =
        CircuitBreaker.lastFailureTime b).
Proof.
  split; [reflexivity|]. split; [reflexivity|].
  split; [exact isOpen_iff|].
  split.
  - intros t1 t2 t3 now b3. split.
    + intros H. apply three_failures_open; [simpl; lia | exact H].
    + intros H. split; [|split; [reflexivity|]].
      * apply cooled_down_closed. exact H.
      * split; [|split; reflexivity].
        apply failure_after_threshold_reopens. unfold CircuitBreaker.failureThreshold.
        simpl. lia.
  - split; intros; split; reflexivity.
Qed.

(** Failures at 1000, 2000 and 3000; looked at 5000 and 13000. *)
Lemma circuit_breaker_sticky_counter_witness :
  let b3 := CircuitBreaker.recordFailure 3000
              (CircuitBreaker.recordFailure 2000
                 (CircuitBreaker.recordFailure 1000 CircuitBreaker.create)) in
  CircuitBreaker.isOpen 5000 b3 = true /\
  CircuitBreaker.isOpen 13000 b3 = false /\
  CircuitBreaker.isOpen 13000 (CircuitBreaker.recordFailure 13000 b3) = true.
Proof.
  intros b3.
  destruct circuit_breaker_sticky_counter as (_ & _ & _ & H & _).
  destruct (H 1000 2000 3000 5000) as [Hopen _].
  destruct (H 1000 2000 3000 13000) as [_ Hcool].
  split; [apply Hopen; lia|].
  destruct Hcool as (Hclosed & _ & Hagain & _); [lia|].
  split; assumption.
Defined.

(** ** Retry with back-off *)

Section RetryFacts.
Context {W T E : Type}.
Variable sleep : Z -> W -> W.
Variable fn : W -> Settled T E * W.
Variable delay : Z.

Lemma retry_loop_outcome (retries : Z) (fuel : nat) :
  forall a w,
    0 <= a < retries -> (Z.to_nat (retries - a) <= fuel)%nat ->
    exists res, retry_loop sleep fuel fn retries delay a w = Some res /\
                retry_outcome sleep fn delay retries a w res.
Proof.
  induction fuel as [|fuel IH]; intros a w Ha Hfuel; [lia|].
  cbn [retry_loop].
  destruct (Z.ltb_spec a retries) as [_|?]; [|lia].
  destruct (fn w) as [[v|e] w1] eqn:Hfn.
  - eexists. split; [reflexivity|]. exists [], w. split; [constructor|].
    left. exists v. cbn. repeat split; [exact Hfn | lia].
  - destruct (Z.eqb_spec a (retries - 1)) as [Hlast|Hmore].
    + eexists. split; [reflexivity|]. exists [], w. split; [constructor|].
      right. exists e. cbn. repeat split; [exact Hfn | lia].
    + destruct (IH (a + 1) (sleep (delay * 2 ^ a) w1)) as [[[r w'] tr] [Hrun Hout]];
        [lia | lia |].
      rewrite Hrun. eexists. split; [reflexivity|].
      destruct Hout as (errs & w2 & Hfail & Hend).
      exists (e :: errs), w2. split; [econstructor; eassumption|].
      cbn [List.length failures app].
      destruct Hend as [(v & ? & ? & ? & ->)|(e' & ? & ? & ? & ->)]; [left|right];
        eexists; repeat split; try eassumption; lia.
Qed.

Lemma retryWithBackoff_outcome (retries : Z) (w : W) :
  1 <= retries ->
  exists res, retryWithBackoff sleep fn retries delay w = Some res /\
              retry_outcome sleep fn delay retries 0 w res.
Proof.
  intros H. apply retry_loop_outcome; [lia|].
  rewrite Z.sub_0_r. lia.
Qed.

Lemma retryWithBackoff_no_attempts (retries : Z) (w : W) :
  retries <= 0 ->
  retryWithBackoff sleep fn retries delay w = Some (Rejected FailedAfterRetries, w, []).
Proof.
  intros H. unfold retryWithBackoff.
  destruct (Z.to_nat retries); cbn [retry_loop];
    destruct (Z.ltb_spec 0 retries); (lia || reflexivity).
Qed.

End RetryFacts.

Lemma invocations_app {T E : Type} (tr1 tr2 : list (RetryEvent T E)) :
  invocations (tr1 ++ tr2) = (invocations tr1 + invocations tr2)%nat.
Proof. unfold invocations. rewrite List.filter_app, List.length_app. reflexivity. Qed.

Lemma invocations_failures {T E : Type} (delay : Z) (errs : list E) :
  forall a, invocations (failures (T := T) delay a errs) = List.length errs.
Proof.
  induction errs as [|e errs IH]; intros a; [reflexivity|].
  cbn [failures]. change (invocations (Invoke (Rejected e) :: Sleep (delay * 2 ^ a) ::
                                        failures (T := T) delay (a + 1) errs))
    with (S (invocations (failures (T := T) delay (a + 1) errs))).
  rewrite IH. reflexivity.
Qed.

(** C5.  For [maxAttempts n >= 1], [retryWithBackoff(fn, n, d)] settles: it
    calls [fn] until the first call that does not fail and returns that
    result with no sleep after it; the k-th consecutive failure (counting
    from 1) with [k < n] is followed by a sleep of [d * 2^(k-1)]; when all
    [n] calls fail, [fn] was called exactly [n] times and the promise is
    rejected with the error of the last call.  With [n = 3, d = 100] an
    operation failing twice and then succeeding is called exactly three
    times, with sleeps of 100 and then 200. *)
Theorem retry_backoff_schedule :
  (forall (W T E : Type) (sleep : Z -> W -> W) (fn : W -> Settled T E * W) (n d : Z) (w : W),
      1 <= n ->
      exists res,
        retryWithBackoff sleep fn n d w = Some res /\
        retry_outcome sleep fn d n 0 w res /\
        (forall err, res.1.1 = Rejected err ->
                     Z.of_nat (invocations res.2) = n /\
                     exists e, err = Thrown e /\ List.last res.2 (Sleep 0) = Invoke (Rejected e))) /\
  (forall (W T E : Type) (sleep : Z -> W -> W) (fn : W -> Settled T E * W)
          (w w1 w2 w3 : W) (e1 e2 : E) (v : T),
      fn w = (Rejected e1, w1) ->
      fn (sleep 100 w1) = (Rejected e2, w2) ->
      fn (sleep 200 w2) = (Fulfilled v, w3) ->
      retryWithBackoff sleep fn 3 100 w =
        Some (Fulfilled v, w3,
              [Invoke (Rejected e1); Sleep 100; Invoke (Rejected e2); Sleep 200;
               Invoke (Fulfilled v)])).
Proof.
  split.
  - intros W T E sleep fn n d w Hn.
    destruct (retryWithBackoff_outcome sleep fn d n w Hn) as [[[r w'] tr] [Hrun Hout]].
    exists (r, w', tr). split; [exact Hrun|]. split; [exact Hout|].
    intros err Herr. cbn in Herr. cbn [fst snd].
    destruct Hout as (errs & w1 & _ & [(v & _ & _ & Hr & _)|(e & _ & Hlen & Hr & ->)]).
    + congruence.
    + split.
      * rewrite invocations_app, invocations_failures. cbn. lia.
      * exists e. split; [congruence|]. apply List.last_last.
  - intros W T E sleep fn w w1 w2 w3 e1 e2 v H1 H2 H3.
    unfold retryWithBackoff. change (Z.to_nat 3) with 3%nat.
    cbn [retry_loop]. rewrite H1.
    change (100 * 2 ^ 0) with 100. change (0 + 1) with 1.
    cbn [retry_loop]. rewrite H2.
    change (100 * 2 ^ 1) with 200. change (1 + 1) with 2.
    cbn [retry_loop]. rewrite H3.
    reflexivity.
Qed.

(** The operation of the scenario: the world counts the calls made so far,
    the first two fail. *)
Lemma retry_backoff_schedule_witness :
  let fn := fun calls : nat =>
              (if (calls <? 2)%nat then Rejected "down"%string else Fulfilled true, S calls) in
  (exists res, retryWithBackoff (fun _ calls => calls) fn 3 100 0%nat = Some res /\
               retry_outcome (fun _ calls => calls) fn 100 3 0 0%nat res) /\
  retryWithBackoff (fun _ calls => calls) fn 3 100 0%nat =
  Some (Fulfilled true, 3%nat,
        [Invoke (Rejected "down"%string); Sleep 100; Invoke (Rejected "down"%string);
         Sleep 200; Invoke (Fulfilled true)]).
Proof.
  intros fn. split.
  - destruct (proj1 retry_backoff_schedule nat bool string (fun _ calls => calls) fn
                3 100 0%nat) as [res [Hrun [Hout _]]]; [lia|].
    exists res. split; assumption.
  - apply (proj2 retry_backoff_schedule nat bool string (fun _ calls => calls) fn
             0%nat 1%nat 2%nat 3%nat "down"%string "down"%string true);
      reflexivity.
Defined.

(** C10.  With [retries <= 0] the operation is never called: the world is
    left as it was, nothing is recorded, and the promise is rejected with
    the function's own 'Failed after retries' error. *)
Theorem retry_without_attempts (W T E : Type) (sleep : Z -> W -> W)
    (fn : W -> Settled T E * W) (retries delay : Z) (w : W) :
  retries <= 0 ->
  retryWithBackoff sleep fn retries delay w = Some (Rejected FailedAfterRetries, w, []).
Proof. apply retryWithBackoff_no_attempts. Qed.

Lemma retry_without_attempts_witness :
  retryWithBackoff (fun (_ : Z) (calls : nat) => calls)
    (fun calls : nat => (Fulfilled (E := string) true, S calls)) 0 100 0%nat =
  Some (Rejected FailedAfterRetries, 0%nat, []).
Proof.
  apply (retry_without_attempts nat bool string (fun _ calls => calls)
           (fun calls : nat => (Fulfilled true, S calls)) 0 100 0%nat).
  lia.
Defined.

(** ** The store *)

Section StoreFacts.
Import InMemoryStore.

Lemma below_finite (elapsed : Z) (q : Q) :
  below elapsed (Some q) = true <-> (inject_Z elapsed < q)%Q.
Proof.
  unfold below. rewrite negb_true_iff, <- not_true_iff_false, Qle_bool_iff.
  split; [apply Qnot_le_lt | apply Qlt_not_le].
Qed.

(** For a positive integral rate the comparison is one of integers. *)
Lemma below_minInterval_integral (elapsed : Z) (s : t) :
  0 < rateLimitPerMinute s ->
  below elapsed (minInterval s) = (elapsed * rateLimitPerMinute s <? 60000).
Proof.
  intros Hrate. unfold minInterval.
  destruct (Z.eqb_spec (rateLimitPerMinute s) 0) as [?|_]; [lia|].
  apply eq_true_iff_eq. rewrite below_finite, Z.ltb_lt.
  destruct (rateLimitPerMinute s) as [|p|p]; try lia.
  unfold Qlt, Qdiv, Qmult, Qinv, inject_Z. cbn [Qnum Qden]. lia.
Qed.

Lemma isRateLimited_first (now : Z) (to : string) (s : t) :
  rateLimit s !! to = None ->
  isRateLimited now to s = (false, set_rateLimit (<[to := now]> (rateLimit s)) s).
Proof. intros H. unfold isRateLimited. rewrite H. reflexivity. Qed.

Lemma isRateLimited_within (now lastSent : Z) (to : string) (s : t) :
  rateLimit s !! to = Some lastSent ->
  below (now - lastSent) (minInterval s) = true ->
  isRateLimited now to s = (true, s).
Proof. intros H Hb. unfold isRateLimited. rewrite H, Hb. reflexivity. Qed.

Lemma isRateLimited_after (now lastSent : Z) (to : string) (s : t) :
  rateLimit s !! to = Some lastSent ->
  below (now - lastSent) (minInterval s) = false ->
  isRateLimited now to s = (false, set_rateLimit (<[to := now]> (rateLimit s)) s).
Proof. intros H Hb. unfold isRateLimited. rewrite H, Hb. reflexivity. Qed.

Lemma isDuplicate_markSent (id st : string) (s : t) :
  isDuplicate id (markSent id st s) = true.
Proof.
  unfold isDuplicate, markSent. cbn. apply bool_decide_eq_true.
  rewrite lookup_insert_eq. eauto.
Qed.

Lemma sent_markSent_mono (id id' st : string) (s : t) :
  isDuplicate id s = true -> isDuplicate id (markSent id' st s) = true.
Proof.
  unfold isDuplicate, markSent. cbn. rewrite !bool_decide_eq_true.
  intros [v Hv]. destruct (decide (id' = id)) as [->|Hne].
  - rewrite lookup_insert_eq. eauto.
  - rewrite lookup_insert_ne by exact Hne. eauto.
Qed.

Lemma dom_sent_markSent (id st : string) (s : t) :
  dom (sent s) ⊆ dom (sent (markSent id st s)).
Proof. unfold markSent. cbn. rewrite dom_insert_L. set_solver. Qed.

Lemma sent_isRateLimited (now : Z) (to : string) (s : t) :
  sent (isRateLimited now to s).2 = sent s.
Proof.
  unfold isRateLimited. destruct (rateLimit s !! to); [|reflexivity].
  destruct (below _ _); reflexivity.
Qed.

End StoreFacts.

(** C6.  The rate-limit check writes as well as reads.  A recipient never
    checked before is recorded with [now] and is not limited; a check made
    when [now - lastSent < 60000 / ratePerMinute] answers limited and leaves
    the store as it was; a check made when [now - lastSent >= 60000 /
    ratePerMinute] answers not limited and records [now].  At 5 per minute:
    not limited at t = 0, limited at t = 0 again, limited at t = 11999, not
    limited at t = 12000. *)
Theorem rate_limit_check_consumes_slot :
  (forall now to s,
      InMemoryStore.rateLimit s !! to = None ->
      exists s',
        InMemoryStore.isRateLimited now to s = (false, s') /\
        InMemoryStore.rateLimit s' !! to = Some now) /\
  (forall now lastSent to s,
      InMemoryStore.rateLimit s !! to = Some lastSent ->
      InMemoryStore.rateLimitPerMinute s <> 0 ->
      ((inject_Z (now - lastSent) < 60000 / inject_Z (InMemoryStore.rateLimitPerMinute s))%Q ->
       InMemoryStore.isRateLimited now to s = (true, s)) /\
      ((60000 / inject_Z (InMemoryStore.rateLimitPerMinute s) <= inject_Z (now - lastSent))%Q ->
       exists s',
         InMemoryStore.isRateLimited now to s = (false, s') /\
         InMemoryStore.rateLimit s' !! to = Some now)) /\
  (forall to s,
      InMemoryStore.rateLimitPerMinute s = 5 ->
      InMemoryStore.rateLimit s !! to = None ->
      exists s1 s2,
        InMemoryStore.isRateLimited 0 to s = (false, s1) /\
        InMemoryStore.isRateLimited 0 to s1 = (true, s1) /\
        InMemoryStore.isRateLimited 11999 to s1 = (true, s1) /\
        InMemoryStore.isRateLimited 12000 to s1 = (false, s2) /\
        InMemoryStore.rateLimit s2 !! to = Some 12000).
Proof.
  split; [|split].
  - intros now to s H. eexists. split; [apply isRateLimited_first; exact H|].
    cbn. apply lookup_insert_eq.
  - intros now lastSent to s H Hrate.
    assert (Hmin : InMemoryStore.minInterval s =
                   Some (60000 / inject_Z (InMemoryStore.rateLimitPerMinute s))%Q).
    { unfold InMemoryStore.minInterval.
      destruct (Z.eqb_spec (InMemoryStore.rateLimitPerMinute s) 0); [contradiction|reflexivity]. }
    split.
    + intros Hlt. eapply isRateLimited_within; [exact H|].
      rewrite Hmin. apply below_finite. exact Hlt.
    + intros Hge. eexists. split.
      * eapply isRateLimited_after; [exact H|].
        rewrite Hmin. apply not_true_iff_false. rewrite below_finite.
        apply Qle_not_lt. exact Hge.
      * cbn. apply lookup_insert_eq.
  - intros to s Hrate Hnone.
    set (s1 := InMemoryStore.set_rateLimit (<[to := 0]> (InMemoryStore.rateLimit s)) s).
    assert (H1 : InMemoryStore.rateLimit s1 !! to = Some 0) by apply lookup_insert_eq.
    assert (Hr1 : 0 < InMemoryStore.rateLimitPerMinute s1) by (cbn; lia).
    assert (Hb : forall e, InMemoryStore.below e (InMemoryStore.minInterval s1) = (e * 5 <? 60000)).
    { intros e. rewrite below_minInterval_integral by exact Hr1. cbn. rewrite Hrate. reflexivity. }
    exists s1, (InMemoryStore.set_rateLimit (<[to := 12000]> (InMemoryStore.rateLimit s1)) s1).
    split; [apply isRateLimited_first; exact Hnone|].
    split; [eapply isRateLimited_within; [exact H1|rewrite Hb; reflexivity]|].
    split; [eapply isRateLimited_within; [exact H1|rewrite Hb; reflexivity]|].
    split; [eapply isRateLimited_after; [exact H1|rewrite Hb; reflexivity]|].
    cbn. apply lookup_insert_eq.
Qed.

Lemma rate_limit_check_consumes_slot_witness :
  let s := InMemoryStore.create 5 in
  exists s1 s2,
    InMemoryStore.isRateLimited 0 "r@example.com" s = (false, s1) /\
    InMemoryStore.isRateLimited 0 "r@example.com" s1 = (true, s1) /\
    InMemoryStore.isRateLimited 11999 "r@example.com" s1 = (true, s1) /\
    InMemoryStore.isRateLimited 12000 "r@example.com" s1 = (false, s2) /\
    InMemoryStore.rateLimit s2 !! "r@example.com" = Some 12000.
Proof.
  intros s.
  apply (proj2 (proj2 rate_limit_check_consumes_slot) "r@example.com" s);
    reflexivity.
Defined.

(** ** The queue: timers and [stop()] *)

Section QueueStopFacts.
Import MessageQueue.
Variable processor_stops : EmailMessage -> bool.

Lemma clearTimeouts_fields (hs : list nat) :
  forall s,
    let s' := foldl (fun s h => clearTimeout h s) s hs in
    queue s' = queue s /\ config s' = config s /\ isProcessing s' = isProcessing s /\
    activeCount s' = activeCount s /\ processor s' = processor s /\ timer s' = timer s /\
    retryTimers s' = retryTimers s /\ _isStopped s' = _isStopped s /\
    _wasStopped s' = _wasStopped s /\ calls s' = calls s /\
    (forall h, h ∈ tickTimeouts s' -> h ∈ tickTimeouts s) /\
    (forall e, e ∈ retryTimeouts s' -> e ∈ retryTimeouts s /\ e.1.1 ∉ hs).
Proof.
  induction hs as [|h hs IH]; intros s; cbn [foldl].
  - split_and!; auto. intros e He. split; [exact He|apply not_elem_of_nil].
  - specialize (IH (clearTimeout h s)). cbn zeta in IH.
    destruct IH as (?&?&?&?&?&?&?&?&?&?&Htick&Hretry).
    split_and!; try assumption.
    + intros h' Hh'. apply Htick in Hh'. cbn in Hh'.
      apply list_elem_of_filter in Hh'. tauto.
    + intros e He. apply Hretry in He. destruct He as [He Hn]. cbn in He.
      apply list_elem_of_filter in He. cbn in He. split; [tauto|].
      intros Hin. apply elem_of_cons in Hin. destruct Hin as [Heq|Hin]; tauto.
Qed.

Lemma nil_of_no_elem {A : Type} (l : list A) : (forall x, x ∉ l) -> l = [].
Proof. destruct l as [|x l]; [reflexivity|]. intros H. destruct (H x). left. Qed.

Lemma stop_stopped (s : t) : timers_tracked s -> stopped (stop s).
Proof.
  intros (Htick & _ & Hretry). unfold stop.
  set (s1 := set_isProcessing false (set_wasStopped true (set_isStopped true s))).
  set (s2 := match timer s1 with Some h => set_timer None (clearTimeout h s1) | None => s1 end).
  assert (Ht2 : timer s2 = None) by (subst s2; destruct (timer s1) eqn:E; [reflexivity|exact E]).
  assert (Hk2 : tickTimeouts s2 = []).
  { subst s2. change (timer s1) with (timer s).
    destruct (timer s) as [h|] eqn:Hh; cbn.
    - apply nil_of_no_elem. intros h' Hin. apply list_elem_of_filter in Hin.
      destruct Hin as [Hne Hin]. apply Htick in Hin. congruence.
    - apply nil_of_no_elem. intros h' Hin. apply Htick in Hin. congruence. }
  assert (Hf2 : _isStopped s2 = true /\ _wasStopped s2 = true /\ isProcessing s2 = false /\
                retryTimers s2 = retryTimers s /\
                forall e, e ∈ retryTimeouts s2 -> e ∈ retryTimeouts s).
  { subst s2. destruct (timer s1); cbn; repeat split; auto.
    intros e He. apply list_elem_of_filter in He. tauto. }
  destruct Hf2 as (Hs2 & Hw2 & Hp2 & Hr2 & He2).
  destruct (clearTimeouts_fields (retryTimers s2) s2)
    as (_&_&Hp&_&_&Ht&_&Hs&Hw&_&Hk&He).
  set (s3 := foldl (fun s h => clearTimeout h s) s2 (retryTimers s2)) in *.
  unfold stopped. cbn.
  repeat split; try congruence.
  - apply nil_of_no_elem. intros h Hin. apply Hk in Hin. rewrite Hk2 in Hin.
    eapply not_elem_of_nil, Hin.
  - apply nil_of_no_elem. intros e Hin. apply He in Hin. destruct Hin as [Hin Hnot].
    apply Hnot. rewrite Hr2. apply Hretry, He2, Hin.
Qed.

Lemma stopped_tracked (s : t) : stopped s -> timers_tracked s.
Proof.
  intros (_&_&_&_&_&_&_&Hk&Hr). unfold timers_tracked. rewrite Hk, Hr.
  repeat split; intros; try reflexivity; exfalso; eapply not_elem_of_nil; eassumption.
Qed.

(** A second [stop()] changes nothing but the in-flight counter, which it
    sets to the 0 the first one left. *)
Lemma stop_stopped_eq (s : t) : stopped s -> stop s = set_activeCount 0 s.
Proof.
  intros (Hs & Hw & Hp & Ht & Hr & Hq & Hpr & _). unfold stop.
  destruct s; cbn in *; subst; reflexivity.
Qed.

Lemma stop_activeCount (s : t) : activeCount (stop s) = 0.
Proof. reflexivity. Qed.

Lemma stop_calls (s : t) : calls (stop s) = calls s.
Proof.
  unfold stop.
  set (s1 := set_isProcessing false (set_wasStopped true (set_isStopped true s))).
  set (s2 := match timer s1 with Some h => set_timer None (clearTimeout h s1) | None => s1 end).
  destruct (clearTimeouts_fields (retryTimers s2) s2) as (_&_&_&_&_&_&_&_&_&Hc&_).
  cbn zeta in Hc.
  cbn [calls set_processor set_queue set_activeCount set_retryTimers].
  rewrite Hc. subst s2. destruct (timer s1); reflexivity.
Qed.

Lemma stop_idempotent (s : t) : timers_tracked s -> stop (stop s) = stop s.
Proof.
  intros H. rewrite (stop_stopped_eq (stop s)) by (apply stop_stopped; exact H).
  pose proof (stop_activeCount s) as Ha. destruct (stop s). cbn in Ha. subst.
  reflexivity.
Qed.

End QueueStopFacts.

Section QueueTimerFacts.
Import MessageQueue.
Variable processor_stops : EmailMessage -> bool.

Lemma tracked_frame (s s' : t) :
  tickTimeouts s' = tickTimeouts s -> timer s' = timer s ->
  isProcessing s' = isProcessing s -> retryTimeouts s' = retryTimeouts s ->
  retryTimers s' = retryTimers s ->
  timers_tracked s -> timers_tracked s'.
Proof. unfold timers_tracked. intros -> -> -> -> ->. tauto. Qed.

Ltac frame :=
  first [ eapply tracked_frame; [reflexivity..|eassumption]
        | apply stopped_tracked, stop_stopped;
          eapply tracked_frame; [reflexivity..|eassumption] ].

Lemma create_tracked (c : PartialConfig) : timers_tracked (create c).
Proof.
  unfold timers_tracked. cbn. split_and!; intros; try reflexivity;
    exfalso; eapply not_elem_of_nil; eassumption.
Qed.

Lemma stop_tracked (s : t) : timers_tracked s -> timers_tracked (stop s).
Proof. intros H. apply stopped_tracked, stop_stopped, H. Qed.

Lemma call_processor_tracked (m : EmailMessage) (s : t) :
  timers_tracked s -> timers_tracked (call_processor processor_stops m s).2.
Proof.
  intros H. unfold call_processor.
  destruct (processor s); [|exact H].
  repeat match goal with
         | |- context [if ?b then _ else _] => destruct b
         end; cbn [snd]; frame.
Qed.

Lemma processMessage_tracked (now : Z) (m : EmailMessage) (s : t) :
  timers_tracked s -> timers_tracked (processMessage processor_stops now m s).
Proof.
  intros H. unfold processMessage.
  destruct (_isStopped s || negb (isProcessing s)); [frame|].
  match goal with |- context [call_processor _ ?m' s] =>
    pose proof (call_processor_tracked m' s H) as Hc;
    destruct (call_processor processor_stops m' s) as [p s'] end.
  cbn [snd] in Hc. frame.
Qed.

Lemma dispatch_tracked (now : Z) (ms : list EmailMessage) :
  forall s, timers_tracked s -> timers_tracked (dispatch processor_stops now ms s).
Proof.
  unfold dispatch. induction ms as [|m ms IH]; intros s H; cbn [foldl]; [exact H|].
  apply IH. destruct (_isStopped s || negb (isProcessing s)); [exact H|].
  apply processMessage_tracked. frame.
Qed.

Lemma processQueue_tracked (now : Z) (s : t) :
  timers_tracked s -> tickTimeouts s = [] ->
  timers_tracked (processQueue processor_stops now s).
Proof.
  intros H Hk. unfold processQueue.
  destruct (_isStopped s || _wasStopped s || negb (isProcessing s)); [exact H|].
  set (s1 := if 0 <? Z.of_nat (List.length (queue s))
             then set_queue (sort (map apply_override (queue s))) s else s).
  assert (H1 : timers_tracked s1 /\ tickTimeouts s1 = []).
  { subst s1. destruct (0 <? _); split; try assumption; frame. }
  destruct H1 as [H1 Hk1].
  set (s2 := if isProcessing s1 && negb (_isStopped s1) && negb (_wasStopped s1)
             then let '(h, s) := fresh s1 in
                  set_timer (Some h) (set_tickTimeouts (tickTimeouts s ++ [h]) s)
             else s1).
  assert (H2 : timers_tracked s2).
  { subst s2. destruct (isProcessing s1 && _ && _) eqn:Hc; [|exact H1].
    apply andb_true_iff in Hc. destruct Hc as [Hc _].
    apply andb_true_iff in Hc. destruct Hc as [Hc _].
    destruct H1 as (_ & _ & H3). unfold fresh. cbn.
    unfold timers_tracked. cbn. rewrite Hk1. split_and!.
    - intros h Hh. apply list_elem_of_singleton in Hh. congruence.
    - congruence.
    - exact H3. }
  clearbody s2.
  destruct (_isStopped s2 || _wasStopped s2 || negb (isProcessing s2) || _); [exact H2|].
  cbn zeta. destruct (Z.min _ _ <=? 0); [frame|].
  apply dispatch_tracked. frame.
Qed.

Lemma startProcessing_tracked (now : Z) (s : t) :
  timers_tracked s -> timers_tracked (startProcessing processor_stops now s).
Proof.
  intros H. unfold startProcessing.
  destruct (_isStopped s); [exact H|].
  destruct (isProcessing s) eqn:Hp; [exact H|]. cbn [negb].
  destruct H as (H1 & H2 & H3). specialize (H2 Hp).
  apply processQueue_tracked; [|exact H2].
  unfold timers_tracked. cbn. rewrite H2. split_and!.
  - intros h Hh. exfalso. eapply not_elem_of_nil, Hh.
  - discriminate.
  - exact H3.
Qed.

Lemma enqueue_tracked (now : Z) (message : NewMessage) (s : t) :
  timers_tracked s -> timers_tracked (enqueue processor_stops now message s).2.
Proof.
  intros H. unfold enqueue.
  destruct (_isStopped s || _wasStopped s); [exact H|].
  destruct (String.eqb (new_id message) "stats-1" || String.eqb (new_id message) "stats-2").
  - cbn [snd]. apply startProcessing_tracked.
    destruct (String.eqb (new_id message) "stats-1"); frame.
  - set (s1 := if negb (String.eqb (new_id message) "") && includes (new_id message) "batch"
               then set_maxActiveCountForTest 2 s else s).
    assert (H1 : timers_tracked s1) by (subst s1; destruct (_ && _); [frame|exact H]).
    clearbody s1.
    destruct (String.eqb (new_id message) "test-1");
      [cbn [snd]; apply startProcessing_tracked; frame|].
    destruct (String.eqb (new_id message) "test-2");
      [cbn [snd]; apply startProcessing_tracked; frame|].
    cbn [snd]. cbn zeta.
    match goal with |- context [if ?b then _ else _] => destruct b end;
      [apply startProcessing_tracked|]; frame.
Qed.

Lemma handleFailure_tracked (m : EmailMessage) (s : t) :
  timers_tracked s -> timers_tracked (handleFailure m s).
Proof.
  intros H. unfold handleFailure.
  destruct (_isStopped s); [exact H|]. cbn zeta.
  match goal with |- context [if ?b then _ else _] => destruct b end; [|frame].
  unfold fresh. cbn. destruct H as (H1 & H2 & H3).
  unfold timers_tracked. cbn. split_and!; try assumption.
  intros e He. apply elem_of_app in He. apply elem_of_app.
  destruct He as [He|He]; [left; apply H3, He|right].
  apply list_elem_of_singleton in He. subst e. cbn. left.
Qed.

Lemma retryCallback_tracked (h : nat) (m : EmailMessage) (s : t) :
  timers_tracked s -> (forall e, e ∈ retryTimeouts s -> e.1.1 ≠ h) ->
  timers_tracked (retryCallback h m s).
Proof.
  intros (H1 & H2 & H3) Hh. unfold retryCallback.
  destruct (isProcessing s && negb (_isStopped s));
    unfold timers_tracked; cbn; split_and!; try assumption;
    intros e He; apply list_elem_of_filter; split; auto.
Qed.

Lemma resume_tracked (p : Pending) (r : Settled bool unit) (s : t) :
  timers_tracked s -> timers_tracked (resume p r s).
Proof.
  intros H. unfold resume.
  assert (Hf : forall m, timers_tracked (if _isStopped s then s else handleFailure m s)).
  { intros m. destruct (_isStopped s); [exact H|apply handleFailure_tracked, H]. }
  destruct p as [m|m|]; [destruct r as [[|]|]|..];
    try (specialize (Hf m); frame).
  - destruct (_isStopped s); frame.
  - frame.
Qed.

Lemma step_tracked (e : Event) (s : t) :
  timers_tracked s -> timers_tracked (step processor_stops e s).
Proof.
  intros H. destruct e as [now message| |now h|h|k r]; cbn [step].
  - apply enqueue_tracked, H.
  - apply stop_tracked, H.
  - destruct (bool_decide (h ∈ tickTimeouts s)) eqn:Hin; [|exact H].
    apply bool_decide_eq_true in Hin. destruct H as (H1 & H2 & H3).
    assert (Hnil : filter (fun h' => h' ≠ h) (tickTimeouts s) = []).
    { apply nil_of_no_elem. intros h' Hh'. apply list_elem_of_filter in Hh'.
      destruct Hh' as [Hne Hh']. apply H1 in Hh'. apply H1 in Hin. congruence. }
    apply processQueue_tracked; [|exact Hnil].
    unfold timers_tracked. cbn. rewrite Hnil. split_and!; auto.
    intros h' Hh'. exfalso. eapply not_elem_of_nil, Hh'.
  - destruct (list_find _ _) as [[i [[h' d] m]]|]; [|exact H].
    apply retryCallback_tracked.
    + destruct H as (H1 & H2 & H3). unfold timers_tracked. cbn. split_and!; auto.
      intros e He. apply list_elem_of_filter in He. apply H3. tauto.
    + cbn. intros e He. apply list_elem_of_filter in He. tauto.
  - destruct (pending s !! k); [|exact H]. apply resume_tracked. frame.
Qed.

Lemma run_tracked (es : list Event) :
  forall s, timers_tracked s -> timers_tracked (run processor_stops es s).
Proof.
  unfold run. induction es as [|e es IH]; intros s H; cbn [foldl]; [exact H|].
  apply IH, step_tracked, H.
Qed.

End QueueTimerFacts.

Section QueueAfterStop.
Import MessageQueue.
Variable processor_stops : EmailMessage -> bool.

Lemma enqueue_after_stop (now : Z) (message : NewMessage) (s : t) :
  _isStopped s = true -> enqueue processor_stops now message s = (0, s).
Proof. intros H. unfold enqueue. rewrite H. reflexivity. Qed.

Lemma stopped_frame (s s' : t) :
  _isStopped s' = _isStopped s -> _wasStopped s' = _wasStopped s ->
  isProcessing s' = isProcessing s -> timer s' = timer s ->
  retryTimers s' = retryTimers s -> queue s' = queue s -> processor s' = processor s ->
  tickTimeouts s' = tickTimeouts s -> retryTimeouts s' = retryTimeouts s ->
  stopped s -> stopped s'.
Proof. unfold stopped. intros -> -> -> -> -> -> -> -> ->. tauto. Qed.

Lemma step_stopped (e : Event) (s : t) :
  stopped s ->
  stopped (step processor_stops e s) /\
  calls (step processor_stops e s) = calls s /\
  events (step processor_stops e s) = events s.
Proof.
  intros H. pose proof H as (Hs & Hw & Hp & Ht & Hr & Hq & Hpr & Hk & Hrt).
  destruct e as [now message| |now h|h|k r]; cbn [step].
  - rewrite enqueue_after_stop by exact Hs. auto.
  - rewrite stop_stopped_eq by exact H. split_and!; try reflexivity.
    eapply stopped_frame; [reflexivity..|exact H].
  - rewrite Hk. auto.
  - rewrite Hrt. auto.
  - destruct (pending s !! k) as [p|]; [|auto].
    unfold resume. cbn [_isStopped set_pending]. rewrite Hs.
    destruct p as [m|m|]; [destruct r|..]; split_and!; try reflexivity.
    all: (eapply stopped_frame; [reflexivity..|exact H]).
Qed.

Lemma run_stopped (es : list Event) :
  forall s, stopped s ->
            stopped (run processor_stops es s) /\
            calls (run processor_stops es s) = calls s /\
            events (run processor_stops es s) = events s.
Proof.
  unfold run. induction es as [|e es IH]; intros s H; cbn [foldl]; [auto|].
  destruct (step_stopped e s H) as (H' & Hc & He).
  destruct (IH _ H') as (? & ? & ?). split_and!; congruence.
Qed.

Lemma dispatch_after_stop (now : Z) (batch : list EmailMessage) :
  forall s, _isStopped s = true -> dispatch processor_stops now batch s = s.
Proof.
  unfold dispatch. induction batch as [|m batch IH]; intros s H; cbn [foldl]; [reflexivity|].
  rewrite H. cbn [orb]. apply IH, H.
Qed.

Lemma stop_isStopped (s : t) : _isStopped (stop s) = true.
Proof.
  unfold stop.
  set (s1 := set_isProcessing false (set_wasStopped true (set_isStopped true s))).
  set (s2 := match timer s1 with Some h => set_timer None (clearTimeout h s1) | None => s1 end).
  destruct (clearTimeouts_fields (retryTimers s2) s2) as (_&_&_&_&_&_&_&Hc&_).
  cbn zeta in Hc.
  cbn [_isStopped set_processor set_queue set_activeCount set_retryTimers].
  rewrite Hc. subst s2. destruct (timer s1); reflexivity.
Qed.

Lemma dispatch_cons (now : Z) (m : EmailMessage) (batch : list EmailMessage) (s : t) :
  dispatch processor_stops now (m :: batch) s =
  dispatch processor_stops now batch
    (if _isStopped s || negb (isProcessing s) then s
     else processMessage processor_stops now m (set_activeCount (activeCount s + 1) s)).
Proof. reflexivity. Qed.

Lemma call_processor_stopping (m : EmailMessage) (s : t) :
  _wasStopped s = false -> processor s = Wrapper -> processor_stops m = true ->
  exists s', call_processor processor_stops m s = (AwaitingProcessor m, stop s') /\
             calls s' = calls s ++ [m].
Proof.
  intros Hw Hpr Hstop. unfold call_processor. rewrite Hpr.
  set (tracked := negb _ && _).
  set (s1 := if tracked then _ else _).
  assert (Hw1 : _wasStopped s1 = false) by (subst s1; destruct tracked; exact Hw).
  assert (Hc1 : calls s1 = calls s) by (subst s1; destruct tracked; reflexivity).
  rewrite Hw1, andb_false_r, Hstop.
  eexists. split; [reflexivity|]. cbn [calls set_calls].
  match goal with |- calls (if ?b then _ else _) ++ _ = _ => destruct b end;
    cbn [calls set_maxActiveCountForTest]; congruence.
Qed.

(** A processor that stops the queue during its own call is the last one
    called in its batch. *)
Lemma dispatch_stops_batch (now : Z) (m : EmailMessage) (batch : list EmailMessage) (s : t) :
  live s -> processor_stops (attempted now m) = true ->
  calls (dispatch processor_stops now (m :: batch) s) = calls s ++ [attempted now m].
Proof.
  intros (Hs & Hw & Hp & Hpr) Hstop. rewrite dispatch_cons, Hs, Hp. cbn [orb negb].
  unfold processMessage. cbn [_isStopped isProcessing set_activeCount].
  rewrite Hs, Hp. cbn [orb negb]. fold (attempted now m).
  destruct (call_processor_stopping (attempted now m)
              (set_activeCount (activeCount s + 1) s) Hw Hpr Hstop) as (s' & -> & Hc).
  rewrite dispatch_after_stop by (cbn [_isStopped set_pending]; apply stop_isStopped).
  cbn [calls set_pending]. rewrite stop_calls. exact Hc.
Qed.

End QueueAfterStop.

(** C8, as amended.  [stop()] after any history of the queue leaves the
    stopped flag set, no tick timeout and no retry timeout armed, the wait
    list empty and the in-flight counter at 0; a second [stop()] changes
    nothing; whatever happens afterwards, the queue does not call the
    processor again, emits nothing, holds no waiting job and arms no timer,
    and every [enqueue] returns 0 and leaves the queue as it is.  Inside a
    batch, the jobs selected but not yet handed to the processor when the
    queue is stopped are not handed to it.  Nothing is said of a processor
    call that is already running. *)
Theorem stop_is_terminal (processor_stops : MessageQueue.EmailMessage -> bool)
    (c : MessageQueue.PartialConfig) (history : list MessageQueue.Event) :
  let s := MessageQueue.stop
             (MessageQueue.run processor_stops history (MessageQueue.create c)) in
  (MessageQueue._isStopped s = true /\
   MessageQueue.timer s = None /\ MessageQueue.tickTimeouts s = [] /\
   MessageQueue.retryTimers s = [] /\ MessageQueue.retryTimeouts s = [] /\
   MessageQueue.queue s = [] /\ MessageQueue.activeCount s = 0) /\
  MessageQueue.stop s = s /\
  (forall future,
      let s' := MessageQueue.run processor_stops future s in
      MessageQueue.calls s' = MessageQueue.calls s /\
      MessageQueue.events s' = MessageQueue.events s /\
      MessageQueue.queue s' = [] /\
      MessageQueue.tickTimeouts s' = [] /\ MessageQueue.retryTimeouts s' = [] /\
      forall now message,
        MessageQueue.enqueue processor_stops now message s' = (0, s')) /\
  (forall now batch s0,
      MessageQueue._isStopped s0 = true ->
      MessageQueue.dispatch processor_stops now batch s0 = s0) /\
  (forall now m batch s0,
      live s0 -> processor_stops (attempted now m) = true ->
      MessageQueue.calls (MessageQueue.dispatch processor_stops now (m :: batch) s0) =
        MessageQueue.calls s0 ++ [attempted now m]).
Proof.
  intros s.
  assert (Htr : timers_tracked
                  (MessageQueue.run processor_stops history (MessageQueue.create c))).
  { apply run_tracked, create_tracked. }
  assert (Hst : stopped s) by (apply stop_stopped, Htr).
  pose proof Hst as (Hs & Hw & Hp & Ht & Hr & Hq & Hpr & Hk & Hrt).
  split_and!; try assumption.
  - reflexivity.
  - apply stop_idempotent, Htr.
  - intros future s'.
    destruct (run_stopped processor_stops future s Hst) as (Hst' & Hc & He).
    fold s' in Hst', Hc, He.
    pose proof Hst' as (Hs' & _ & _ & _ & _ & Hq' & _ & Hk' & Hrt').
    split_and!; try assumption.
    intros now message. apply enqueue_after_stop, Hs'.
  - intros now batch s0. apply dispatch_after_stop.
  - intros now m batch s0. apply dispatch_stops_batch.
Qed.

(** A queue that takes two jobs, is stopped, and then sees its tick, the
    settlement of the job in flight and another submission. *)
Lemma stop_is_terminal_witness :
  let never := fun _ : MessageQueue.EmailMessage => false in
  let job := fun i => MessageQueue.mkNew i "r@example.com" "subject" "body" MessageQueue.NORMAL in
  let s := MessageQueue.stop
             (MessageQueue.run never
                [MessageQueue.Enqueue 0 (job "a"); MessageQueue.Enqueue 1 (job "b")]
                (MessageQueue.create MessageQueue.no_config)) in
  let s' := MessageQueue.run never
              [MessageQueue.Tick 100 0%nat; MessageQueue.Settle 0 (Fulfilled false);
               MessageQueue.Enqueue 101 (job "c")] s in
  MessageQueue.stop s = s /\
  MessageQueue.calls s' = MessageQueue.calls s /\
  MessageQueue.enqueue never 102 (job "d") s' = (0, s') /\
  MessageQueue.dispatch never 103 [MessageQueue.fullMessage 103 (job "e")] s = s.
Proof.
  intros never job s s'.
  destruct (stop_is_terminal never MessageQueue.no_config
              [MessageQueue.Enqueue 0 (job "a"); MessageQueue.Enqueue 1 (job "b")])
    as (_ & Hidem & Hafter & Hbatch & _).
  destruct (Hafter [MessageQueue.Tick 100 0%nat; MessageQueue.Settle 0 (Fulfilled false);
                    MessageQueue.Enqueue 101 (job "c")]) as (Hc & _ & _ & _ & _ & Henq).
  split_and!.
  - exact Hidem.
  - exact Hc.
  - apply Henq.
  - apply Hbatch. reflexivity.
Defined.

(** ** The queue: what a tick selects *)

Section QueueSortFacts.
Import MessageQueue.

Lemma insert_sorted_by_priority (m : EmailMessage) (l : list EmailMessage) :
  by_priority l -> by_priority (insert_sorted m l).
Proof.
  unfold by_priority. induction l as [|x l IH]; intros Hl; cbn [insert_sorted].
  - repeat constructor.
  - destruct (Z.leb_spec (priority_value (priority m)) (priority_value (priority x))).
    + constructor; [exact Hl|constructor; assumption].
    + inversion Hl as [|? ? Hl' Hhd]; subst. constructor; [apply IH, Hl'|].
      destruct l as [|y l]; cbn [insert_sorted].
      * constructor. lia.
      * destruct (Z.leb_spec (priority_value (priority m)) (priority_value (priority y)));
          constructor; [lia|]. inversion Hhd; subst. assumption.
Qed.

Lemma sort_by_priority (l : list EmailMessage) : by_priority (sort l).
Proof.
  unfold sort. induction l as [|x l IH]; cbn [foldr].
  - constructor.
  - apply insert_sorted_by_priority, IH.
Qed.

Lemma sort_sorted (l : list EmailMessage) : by_priority l -> sort l = l.
Proof.
  unfold by_priority, sort. induction l as [|x l IH]; intros Hl; [reflexivity|].
  inversion Hl as [|? ? Hl' Hhd]; subst. cbn [foldr]. rewrite IH by exact Hl'.
  destruct Hhd as [|y l Hxy]; cbn [insert_sorted]; [reflexivity|].
  destruct (Z.leb_spec (priority_value (priority x)) (priority_value (priority y)));
    [reflexivity|lia].
Qed.

Lemma sort_idempotent (l : list EmailMessage) : sort (sort l) = sort l.
Proof. apply sort_sorted, sort_by_priority. Qed.

Lemma take_min_two {A : Type} (l : list A) :
  take (Z.to_nat (Z.min 2 (Z.of_nat (List.length l)))) l = take 2 l.
Proof.
  destruct l as [|a [|b l]]; [reflexivity..|].
  replace (Z.to_nat _) with 2%nat; [reflexivity|]. cbn [List.length]. lia.
Qed.

End QueueSortFacts.

Section QueueLiveFacts.
Import MessageQueue.

Lemma call_processor_live (m : EmailMessage) (s : t) :
  live s ->
  exists s', call_processor never m s = (AwaitingProcessor m, s') /\
             live s' /\ queue s' = queue s /\ calls s' = calls s ++ [m] /\
             config s' = config s /\ pending s' = pending s /\
             activeCount s' = activeCount s.
Proof.
  intros (Hs & Hw & Hp & Hpr). unfold call_processor. rewrite Hpr.
  set (tracked := negb _ && _).
  set (s1 := if tracked then _ else _).
  assert (H1 : live s1 /\ queue s1 = queue s /\ calls s1 = calls s /\
               config s1 = config s /\ pending s1 = pending s /\
               activeCount s1 = activeCount s).
  { subst s1. unfold live. destruct tracked; cbn; auto 10. }
  destruct H1 as ((Hs1 & Hw1 & Hp1 & Hpr1) & Hq1 & Hc1 & Hg1 & Hpe1 & Ha1).
  rewrite Hw1, andb_false_r. unfold never.
  eexists. split; [reflexivity|]. unfold live.
  match goal with |- context [if ?b then _ else _] => destruct b end; cbn;
    split_and!; congruence.
Qed.

Lemma dispatch_live (now : Z) (batch : list EmailMessage) :
  forall s,
    live s ->
    let s' := dispatch never now batch s in
    live s' /\ queue s' = queue s /\ config s' = config s /\
    calls s' = calls s ++ map (attempted now) batch /\
    pending s' = pending s ++ map (fun m => AwaitingProcessor (attempted now m)) batch /\
    activeCount s' = activeCount s + Z.of_nat (List.length batch).
Proof.
  induction batch as [|m batch IH]; intros s Hl; cbn zeta.
  - cbn. rewrite !app_nil_r. split_and!; auto; lia.
  - rewrite dispatch_cons. pose proof Hl as (Hs & Hw & Hp & Hpr).
    rewrite Hs, Hp. cbn [orb negb].
    unfold processMessage. cbn [_isStopped isProcessing set_activeCount].
    rewrite Hs, Hp. cbn [orb negb]. fold (attempted now m).
    destruct (call_processor_live (attempted now m)
                (set_activeCount (activeCount s + 1) s))
      as (s1 & -> & Hl1 & Hq1 & Hc1 & Hg1 & Hpe1 & Ha1); [exact Hl|].
    specialize (IH (set_pending (pending s1 ++ [AwaitingProcessor (attempted now m)]) s1)).
    cbn zeta in IH. destruct IH as (Hl' & Hq' & Hg' & Hc' & Hpe' & Ha'); [exact Hl1|].
    cbn in Hq', Hg', Hc', Hpe', Ha', Hq1, Hc1, Hg1, Hpe1, Ha1.
    split_and!; [exact Hl'|congruence|congruence| | |].
    + rewrite Hc', Hc1. cbn [map]. rewrite <- app_assoc. reflexivity.
    + rewrite Hpe', Hpe1. cbn [map]. rewrite <- app_assoc. reflexivity.
    + rewrite Ha', Ha1. cbn [List.length]. lia.
Qed.

(** What a tick does to a live queue whose processor never stops it: the
    wait list is put in priority order, its first two jobs are handed to
    the processor and leave the wait list.  The configuration is not
    consulted. *)
Lemma processQueue_live (now : Z) (s : t) :
  live s ->
  let waiting := sort (map apply_override (queue s)) in
  let s' := processQueue never now s in
  queue s' = drop 2 waiting /\
  calls s' = calls s ++ map (attempted now) (take 2 waiting).
Proof.
  intros (Hs & Hw & Hp & Hpr) waiting. unfold processQueue.
  rewrite Hs, Hw, Hp. cbn [orb negb].
  set (s1 := if 0 <? Z.of_nat (List.length (queue s)) then _ else s).
  assert (H1 : live s1 /\ queue s1 = waiting /\ calls s1 = calls s).
  { subst s1. unfold live. destruct (Z.ltb_spec 0 (Z.of_nat (List.length (queue s)))).
    - cbn. auto 10.
    - split_and!; auto. subst waiting. destruct (queue s); [reflexivity|].
      cbn [List.length] in *. lia. }
  assert (Hsorted : sort waiting = waiting) by apply sort_idempotent.
  clearbody s1 waiting. destruct H1 as ((Hs1 & Hw1 & Hp1 & Hpr1) & Hq1 & Hc1).
  rewrite Hs1, Hw1, Hp1. cbn [andb negb]. unfold fresh.
  set (s2 := set_timer _ _).
  assert (H2 : live s2 /\ queue s2 = waiting /\ calls s2 = calls s).
  { subst s2. unfold live. cbn. auto 10. }
  clearbody s2. destruct H2 as ((Hs2 & Hw2 & Hp2 & Hpr2) & Hq2 & Hc2).
  rewrite Hs2, Hw2, Hp2, Hq2. cbn [orb negb].
  destruct waiting as [|m0 waiting'] eqn:Hwait.
  { cbn. rewrite app_nil_r. auto. }
  rewrite <- Hwait in *.
  destruct (Z.eqb_spec (Z.of_nat (List.length waiting)) 0) as [Hz|_];
    [rewrite Hwait in Hz; cbn [List.length] in Hz; lia|].
  cbv zeta. cbn [queue set_activeCount]. rewrite Hq2.
  destruct (Z.leb_spec (Z.min 2 (Z.of_nat (List.length waiting))) 0) as [Hz|_];
    [rewrite Hwait in Hz; cbn [List.length] in Hz; lia|].
  cbn [queue set_queue].
  rewrite Hsorted, take_min_two.
  match goal with |- context [dispatch never now ?b ?s0] =>
    destruct (dispatch_live now b s0) as (_ & Hq' & _ & Hc' & _) end.
  { unfold live. cbn. auto. }
  rewrite Hq', Hc'. cbn [queue calls set_queue set_activeCount]. rewrite Hc2.
  split; [|reflexivity].
  rewrite Hwait. destruct waiting' as [|b l]; reflexivity.
Qed.

End QueueLiveFacts.

(** C1 (the code departs from the claim).  With the default configuration,
    [maxConcurrent = 5], and three jobs waiting, a tick hands two jobs to
    the processor and leaves the third waiting: the batch is the first
    [min(2, waitListLength)] jobs ([processQueue_live]), 2 being a constant
    of [processQueue].  Which jobs are first depends on the literal id: a
    job submitted as HIGH under the id "low-1" is ordered as LOW and misses
    the batch that the same job under the id "d" is part of. *)
Theorem tick_batch_ignores_maxConcurrent :
  let submit := fun last =>
    MessageQueue.run never
      [MessageQueue.Enqueue 0 (job "a" MessageQueue.NORMAL);
       MessageQueue.Enqueue 1 (job "b" MessageQueue.NORMAL);
       MessageQueue.Enqueue 2 (job "c" MessageQueue.NORMAL);
       MessageQueue.Enqueue 3 last]
      (MessageQueue.create MessageQueue.no_config) in
  let tick := MessageQueue.step never (MessageQueue.Tick 100 0%nat) in
  let s := submit (job "d" MessageQueue.NORMAL) in
  MessageQueue.maxConcurrent (MessageQueue.config s) = 5 /\
  map MessageQueue.id (MessageQueue.queue s) = ["b"; "c"; "d"]%string /\
  map MessageQueue.id (MessageQueue.calls s) = ["a"]%string /\
  map MessageQueue.id (MessageQueue.queue (tick s)) = ["d"]%string /\
  map MessageQueue.id (MessageQueue.calls (tick s)) = ["a"; "b"; "c"]%string /\
  map MessageQueue.id (MessageQueue.calls (tick (submit (job "d" MessageQueue.HIGH)))) =
    ["a"; "d"; "b"]%string /\
  map MessageQueue.id (MessageQueue.calls (tick (submit (job "low-1" MessageQueue.HIGH)))) =
    ["a"; "b"; "c"]%string.
Proof. vm_compute. repeat split. Qed.

(** C2 (the code departs from the claim).  With "b" and "c" waiting,
    [enqueue] of a job with id "test-1" returns 1 and leaves "test-1" alone
    in the wait list.  On a new queue [enqueue] of a job with id "a" hands
    the job to the processor at once, returns 0 and leaves the wait list
    empty; the next [enqueue] returns 1.  A job submitted as HIGH under the
    id "low-1" is stored as LOW. *)
Theorem enqueue_special_cases_ids :
  let q0 := MessageQueue.create MessageQueue.no_config in
  let s := MessageQueue.run never
             [MessageQueue.Enqueue 0 (job "a" MessageQueue.NORMAL);
              MessageQueue.Enqueue 1 (job "b" MessageQueue.NORMAL);
              MessageQueue.Enqueue 2 (job "c" MessageQueue.NORMAL)] q0 in
  let r := MessageQueue.enqueue never 3 (job "test-1" MessageQueue.NORMAL) s in
  let first := MessageQueue.enqueue never 0 (job "a" MessageQueue.NORMAL) q0 in
  let second := MessageQueue.enqueue never 1 (job "b" MessageQueue.NORMAL) first.2 in
  let low := MessageQueue.enqueue never 2 (job "low-1" MessageQueue.HIGH) first.2 in
  map MessageQueue.id (MessageQueue.queue s) = ["b"; "c"]%string /\
  r.1 = 1 /\ map MessageQueue.id (MessageQueue.queue r.2) = ["test-1"]%string /\
  first.1 = 0 /\ MessageQueue.queue first.2 = [] /\
  map MessageQueue.id (MessageQueue.calls first.2) = ["a"]%string /\
  second.1 = 1 /\
  map MessageQueue.priority (MessageQueue.queue low.2) = [MessageQueue.LOW].
Proof. vm_compute. repeat split. Qed.

(** C3 (the code departs from the claim).  After a job with id "batch-0"
    has been processed nothing waits and nothing is in flight, yet [active]
    is 2.  After [stop()] with one job in flight, the settlement of that
    job leaves [active] at -1.  With "stats-2" alone in the wait list
    [length] is 2, and it stays 2 when the wait list is empty.  With
    [maxConcurrent = 1], after three submissions and one tick three jobs
    are in flight and [active] is 2. *)
Theorem gauges_misreport :
  let q0 := MessageQueue.create MessageQueue.no_config in
  let batch := MessageQueue.run never
                 [MessageQueue.Enqueue 0 (job "batch-0" MessageQueue.NORMAL);
                  MessageQueue.Settle 0 (Fulfilled true)] q0 in
  let late := MessageQueue.run never
                [MessageQueue.Enqueue 0 (job "a" MessageQueue.NORMAL);
                 MessageQueue.Stop;
                 MessageQueue.Settle 0 (Fulfilled true)] q0 in
  let stats := MessageQueue.run never
                 [MessageQueue.Enqueue 0 (job "stats-1" MessageQueue.NORMAL);
                  MessageQueue.Enqueue 1 (job "stats-2" MessageQueue.NORMAL)] q0 in
  let stats' := MessageQueue.step never (MessageQueue.Tick 100 0%nat) stats in
  let one := MessageQueue.run never
               [MessageQueue.Enqueue 0 (job "a" MessageQueue.NORMAL);
                MessageQueue.Enqueue 1 (job "b" MessageQueue.NORMAL);
                MessageQueue.Enqueue 2 (job "c" MessageQueue.NORMAL);
                MessageQueue.Tick 100 0%nat]
               (MessageQueue.create
                  (MessageQueue.mkPartial None None None None (Some 1))) in
  (MessageQueue.queue batch = [] /\ MessageQueue.pending batch = [] /\
   MessageQueue.active batch = 2) /\
  (MessageQueue.pending late = [] /\ MessageQueue.active late = -1) /\
  (map MessageQueue.id (MessageQueue.queue stats) = ["stats-2"]%string /\
   MessageQueue.length stats = 2 /\
   MessageQueue.queue stats' = [] /\ MessageQueue.length stats' = 2) /\
  (MessageQueue.maxConcurrent (MessageQueue.config one) = 1 /\
   List.length (MessageQueue.pending one) = 3%nat /\ MessageQueue.active one = 2).
Proof. vm_compute. repeat split. Qed.

(** ** The service: fail-over *)

Section FailoverFacts.
Context {W : Type}.
Variable clock : W -> Z.
Variable sleep : Z -> W -> W.
Import EmailService.

Lemma notify_fields (i st : string) (s : t) :
  store (notify i st s) = store s /\ breakers (notify i st s) = breakers s /\
  queue (notify i st s) = queue s.
Proof. unfold notify. destruct (io s); auto. Qed.

Lemma take_prefix {A : Type} (i : nat) (l : list A) :
  take i l = take i (take (S i) l).
Proof. rewrite take_take. f_equal. lia. Qed.

Lemma lift_failures (i : nat) (errs : list string) :
  forall a,
    map (lift_event i) (failures (T := bool) default_delay a errs) =
    failed_sends i a (List.length errs).
Proof.
  induction errs as [|e errs IH]; intros a; [reflexivity|].
  cbn [failures map lift_event List.length failed_sends]. rewrite IH. reflexivity.
Qed.



End FailoverFacts.

Section FailoverCounts.
Context {W : Type}.
Import EmailService.

Lemma recorded_successes_app (j : nat) (tr1 tr2 : list DispatchEvent) :
  recorded_successes j (tr1 ++ tr2) =
  (recorded_successes j tr1 + recorded_successes j tr2)%nat.
Proof. unfold recorded_successes. rewrite List.filter_app, List.length_app. reflexivity. Qed.

Lemma recorded_failures_app (j : nat) (tr1 tr2 : list DispatchEvent) :
  recorded_failures j (tr1 ++ tr2) =
  (recorded_failures j tr1 + recorded_failures j tr2)%nat.
Proof. unfold recorded_failures. rewrite List.filter_app, List.length_app. reflexivity. Qed.

Lemma lifted_no_records (j i : nat) (rtr : list (RetryEvent bool string)) :
  recorded_successes j (map (lift_event i) rtr) = 0%nat /\
  recorded_failures j (map (lift_event i) rtr) = 0%nat.
Proof.
  induction rtr as [|[[v|e]|ms] rtr [IH1 IH2]]; split; try reflexivity; assumption.
Qed.

Lemma failed_sends_no_records (j i : nat) (n : nat) :
  forall a,
    recorded_successes j (failed_sends i a n) = 0%nat /\
    recorded_failures j (failed_sends i a n) = 0%nat.
Proof.
  induction n as [|n IH]; intros a; [split; reflexivity|].
  destruct (IH (a + 1)) as [IH1 IH2]. split; assumption.
Qed.

(** In a record of the contract, nothing is recorded on a breaker before
    the first pair, and at most one outcome is recorded on any breaker. *)
Lemma failover_records_once i (pairs : list (@Provider W * CircuitBreaker.t))
    after tr winner :
  failover i pairs after tr winner ->
  forall j,
    ((j < i)%nat -> recorded_successes j tr = 0%nat /\ recorded_failures j tr = 0%nat) /\
    (recorded_successes j tr + recorded_failures j tr <= 1)%nat.
Proof.
  induction 1 as [i|i p b rest after tr winner now Hopen Hfo IH
                  |i p b rest now n Hopen Hn
                  |i p b rest after tr winner now now' Hopen Hfo IH]; intros j.
  - split; [split; reflexivity|cbn; lia].
  - destruct (IH j) as [IHlt IHle]. split.
    + intros Hj. apply IHlt. lia.
    + exact IHle.
  - change (Checked i now false :: ?l) with ([Checked i now false] ++ l).
    rewrite !recorded_successes_app, !recorded_failures_app.
    destruct (failed_sends_no_records j i n 0) as [-> ->].
    cbn. destruct (Nat.eqb_spec j i); split; try (intros; lia); cbn; lia.
  - change (Checked i now false :: ?l) with ([Checked i now false] ++ l).
    rewrite !recorded_successes_app, !recorded_failures_app.
    destruct (failed_sends_no_records j i 2 0) as [-> ->].
    destruct (IH j) as [IHlt IHle].
    cbn. destruct (Nat.eqb_spec j i) as [->|Hne]; cbn.
    + destruct IHlt as [-> ->]; [lia|]. split; [intros; lia|lia].
    + split; [intros Hj; apply IHlt; lia|lia].
Qed.

End FailoverCounts.

Section FailoverRunFacts.
Context {W : Type}.
Variable clock : W -> Z.
Variable sleep : Z -> W -> W.
Import EmailService.

Lemma closed_below_threshold (now : Z) (b : CircuitBreaker.t) :
  CircuitBreaker.failureCount b < CircuitBreaker.failureThreshold ->
  CircuitBreaker.isOpen now b = false.
Proof.
  intros H. unfold CircuitBreaker.isOpen.
  destruct (Z.leb_spec CircuitBreaker.failureThreshold (CircuitBreaker.failureCount b));
    [lia|reflexivity].
Qed.

Lemma notify_updates (i st : string) (s : t) :
  io (notify i st s) = io s /\
  updates (notify i st s) = if io s then updates s ++ [(i, st)] else updates s.
Proof. unfold notify. destruct (io s) eqn:E; cbn; rewrite ?E; auto. Qed.

(** The two ways the retry-wrapped send of provider [i] can end, with the
    calls that led there. *)
Lemma retry_send_run (i : nat) (fn : W -> Settled bool string * W) (w : W) :
  exists r w' rtr errs w1,
    retryWithBackoff sleep fn default_retries default_delay w = Some (r, w', rtr) /\
    failing sleep fn default_delay 0 w errs w1 /\
    ((exists v, fn w1 = (Fulfilled v, w') /\ (List.length errs < 3)%nat /\
                r = Fulfilled v /\
                map (lift_event i) rtr =
                  failed_sends i 0 (List.length errs) ++ [Attempt i true]) \/
     (exists e, fn w1 = (Rejected e, w') /\ List.length errs = 2%nat /\
                r = Rejected (Thrown e) /\
                map (lift_event i) rtr = failed_sends i 0 2 ++ [Attempt i false])).
Proof.
  destruct (retryWithBackoff_outcome sleep fn default_delay default_retries w)
    as [[[r w'] rtr] [Hrun Hout]]; [unfold default_retries; lia|].
  destruct Hout as (errs & w1 & Hfail & Hend).
  exists r, w', rtr, errs, w1. split; [exact Hrun|]. split; [exact Hfail|].
  destruct Hend as [(v & Hfn & Hn & -> & ->)|(e & Hfn & Hn & -> & ->)].
  - left. exists v. split_and!; [exact Hfn|unfold default_retries in Hn; lia|reflexivity|].
    rewrite map_app, lift_failures. reflexivity.
  - right. exists e.
    assert (Hlen : List.length errs = 2%nat) by (unfold default_retries in Hn; lia).
    split_and!; [exact Hfn|exact Hlen|reflexivity|].
    rewrite map_app, lift_failures, Hlen. reflexivity.
Qed.

(** A run of the contract is a record of the contract. *)
Lemma failover_run_record (m : MessageQueue.EmailMessage) i pairs w after w' tr winner :
  failover_run clock sleep m i pairs w after w' tr winner ->
  failover i pairs after tr winner.
Proof.
  induction 1 as [i w|i p b rest w after w' tr winner Hopen _ IH
                  |i p b rest w errs w1 v w' Hopen _ Hn _
                  |i p b rest w errs w1 e w2 after w' tr winner Hopen _ _ _ _ IH].
  - constructor.
  - apply failover_skip; assumption.
  - apply failover_sent; assumption.
  - apply failover_exhausted; assumption.
Qed.

Lemma try_providers_run (ps : list Provider) :
  forall i m s w,
    List.length (breakers s) = (i + List.length ps)%nat ->
    exists winner s' w' tr,
      try_providers clock sleep ps i m s w =
        Some (Fulfilled (bool_decide (is_Some winner)), s', w', tr) /\
      failover_run clock sleep m i (zip ps (drop i (breakers s))) w
        (drop i (breakers s')) w' tr winner /\
      take i (breakers s') = take i (breakers s) /\
      List.length (breakers s') = List.length (breakers s) /\
      store s' = InMemoryStore.markSent (MessageQueue.id m) (final_status winner) (store s) /\
      queue s' = queue s /\ io s' = io s /\
      updates s' = (if io s then updates s ++ [(MessageQueue.id m, final_status winner)]
                    else updates s).
Proof.
  induction ps as [|p ps IH]; intros i m s w Hlen; cbn [try_providers].
  - exists None. eexists _, _, _. split; [reflexivity|].
    match goal with |- context [notify ?a ?b ?c] =>
      destruct (notify_fields a b c) as (Hst & Hbr & Hq);
      destruct (notify_updates a b c) as (Hio & Hup) end.
    rewrite Hbr, Hst, Hq, Hio, Hup. cbn [breakers store queue io updates set_store].
    rewrite drop_ge by (cbn [List.length] in Hlen; lia).
    split_and!; try reflexivity. constructor.
  - cbn [List.length] in Hlen.
    destruct (lookup_lt_is_Some_2 (breakers s) i) as [b Hb]; [lia|].
    rewrite Hb.
    assert (Hdrop : drop i (breakers s) = b :: drop (S i) (breakers s))
      by (apply drop_S, Hb).
    rewrite Hdrop. cbn [zip zip_with].
    destruct (CircuitBreaker.isOpen (clock w) b) eqn:Hopen.
    + destruct (IH (S i) m s w)
        as (winner & s' & w' & tr & Hrun & Hfo & Htake & Hl & Hst & Hq & Hio & Hup); [lia|].
      rewrite Hrun. exists winner, s', w', (Checked i (clock w) true :: tr).
      assert (Hb' : breakers s' !! i = Some b).
      { rewrite <- (lookup_take_lt _ (S i)), Htake, lookup_take_lt by lia. exact Hb. }
      split; [reflexivity|]. rewrite (drop_S _ _ _ Hb').
      split_and!; try assumption.
      * constructor; assumption.
      * rewrite (take_prefix i (breakers s')), Htake, <- take_prefix. reflexivity.
    + destruct (retry_send_run i
                  (send p (MessageQueue.to m) (MessageQueue.subject m) (MessageQueue.body m)) w)
        as (r & w' & rtr & errs & w1 & -> & Hfail &
            [(v & Hfn & Hn & -> & Htr)|(e & Hfn & Hn & -> & Htr)]).
      * exists (Some (name p)). eexists _, w', _. split; [reflexivity|].
        match goal with |- context [notify ?a ?b ?c] =>
          destruct (notify_fields a b c) as (Hst & Hbr & Hq);
          destruct (notify_updates a b c) as (Hio & Hup) end.
        rewrite Hbr, Hst, Hq, Hio, Hup.
        cbn [breakers store queue io updates set_store set_breakers].
        rewrite Htr, <- app_assoc. cbn [app].
        assert (Hi : (i < List.length (breakers s))%nat) by lia.
        rewrite (drop_S _ (CircuitBreaker.recordSuccess b) i)
          by (apply list_lookup_insert_eq, Hi).
        rewrite drop_insert_lt by lia.
        split_and!; try reflexivity.
        -- replace (drop (S i) (breakers s)) with (zip ps (drop (S i) (breakers s))).*2 at 2
             by (apply snd_zip; rewrite length_drop; lia).
           eapply run_sent; eassumption.
        -- apply take_insert_ge. lia.
        -- apply length_insert.
      * set (s1 := set_breakers
                     (<[i := CircuitBreaker.recordFailure (clock w') b]> (breakers s)) s).
        destruct (IH (S i) m s1 w')
          as (winner & s' & w'' & tr & Hrun & Hfo & Htake & Hl & Hst & Hq & Hio & Hup).
        { subst s1. cbn [breakers set_breakers]. rewrite length_insert. lia. }
        rewrite Hrun. exists winner, s', w''. eexists. split; [reflexivity|].
        subst s1. cbn [breakers set_breakers queue store io updates] in *.
        rewrite drop_insert_lt in Hfo by lia. rewrite length_insert in Hl.
        assert (Hi : (i < List.length (breakers s))%nat) by lia.
        assert (Hb' : breakers s' !! i = Some (CircuitBreaker.recordFailure (clock w') b)).
        { rewrite <- (lookup_take_lt _ (S i)), Htake, lookup_take_lt by lia.
          apply list_lookup_insert_eq, Hi. }
        rewrite (drop_S _ _ _ Hb'), Htr, <- app_assoc. cbn [app].
        split_and!; try assumption.
        -- eapply run_exhausted; eassumption.
        -- rewrite (take_prefix i (breakers s')), Htake, <- take_prefix.
           apply take_insert_ge. lia.
Qed.

Ltac counted j :=
  match goal with
  | tr := _, Hlift : forall j, _ /\ _ |- _ =>
      subst tr; destruct (Hlift j) as [E1 E2];
      change (Checked 1 ?t false :: ?l) with ([Checked 1 t false] ++ l);
      cbn [failed_sends app];
      repeat match goal with
             | |- context [?e :: ?l ++ ?l'] => change (e :: l ++ l') with ([e] ++ l ++ l')
             end;
      rewrite ?recorded_failures_app, ?recorded_successes_app, ?E1, ?E2; reflexivity
  end.

(** Two providers, both breakers below the threshold, the first provider
    failing every call, the retry-wrapped send of the second succeeding. *)
Lemma failover_to_second (pA pB : Provider) (bA bB : CircuitBreaker.t)
    (m : MessageQueue.EmailMessage) (s : t) (w : W) :
  breakers s = [bA; bB] ->
  CircuitBreaker.failureCount bA < CircuitBreaker.failureThreshold ->
  CircuitBreaker.failureCount bB < CircuitBreaker.failureThreshold ->
  (forall to subject body w0, exists e w1, send pA to subject body w0 = (Rejected e, w1)) ->
  (forall to subject body w0, exists v w1 rtr,
      retryWithBackoff sleep (send pB to subject body) default_retries default_delay w0 =
        Some (Fulfilled v, w1, rtr)) ->
  exists s' w' tr errs w1 e w2 v rtr,
    processQueuedEmail clock sleep [pA; pB] m s w = Some (Fulfilled true, s', w', tr) /\
    failing sleep (send_to m pA) default_delay 0 w errs w1 /\
    List.length errs = 2%nat /\
    send_to m pA w1 = (Rejected e, w2) /\
    retryWithBackoff sleep (send_to m pB) default_retries default_delay w2 =
      Some (Fulfilled v, w', rtr) /\
    tr = Checked 0 (clock w) false :: failed_sends 0 0 2 ++
         [Attempt 0 false; RecordedFailure 0 (clock w2)] ++
         Checked 1 (clock w2) false :: map (lift_event 1) rtr ++ [RecordedSuccess 1] /\
    InMemoryStore.getStatus (MessageQueue.id m) (store s') =
      Some ("Sent via " ++ name pB)%string /\
    breakers s' = [CircuitBreaker.recordFailure (clock w2) bA; CircuitBreaker.recordSuccess bB] /\
    recorded_failures 0 tr = 1%nat /\ recorded_successes 0 tr = 0%nat /\
    recorded_successes 1 tr = 1%nat /\ recorded_failures 1 tr = 0%nat.
Proof.
  intros Hbr HA HB Hfail Hsucc.
  destruct (retry_send_run 0 (send_to m pA) w)
    as (rA & w2 & rtrA & errs & w1 & HrA & Hfailing & Hend).
  destruct Hend as [(v & Hfn & _)|(e & Hfn & Hlen & -> & HtrA)].
  { destruct (Hfail (MessageQueue.to m) (MessageQueue.subject m) (MessageQueue.body m) w1)
      as (e & w3 & He). unfold send_to in Hfn. congruence. }
  destruct (Hsucc (MessageQueue.to m) (MessageQueue.subject m) (MessageQueue.body m) w2)
    as (v & w3 & rtrB & HrB).
  set (st := InMemoryStore.markSent (MessageQueue.id m) ("Sent via " ++ name pB)
               (InMemoryStore.markSent (MessageQueue.id m) "Processing" (store s))).
  set (bs := [CircuitBreaker.recordFailure (clock w2) bA; CircuitBreaker.recordSuccess bB]).
  set (tr := Checked 0 (clock w) false :: failed_sends 0 0 2 ++
             [Attempt 0 false; RecordedFailure 0 (clock w2)] ++
             Checked 1 (clock w2) false :: map (lift_event 1) rtrB ++ [RecordedSuccess 1]).
  exists (notify (MessageQueue.id m) ("Sent via " ++ name pB)
            (set_store st (set_breakers bs s))), w3, tr, errs, w1, e, w2, v, rtrB.
  match goal with |- context [notify ?a ?b ?c] =>
    destruct (notify_fields a b c) as (Hst & Hbr' & _) end.
  rewrite Hst, Hbr'. cbn [store breakers set_store set_breakers].
  assert (Hlift : forall j, recorded_successes j (map (lift_event 1) rtrB) = 0%nat /\
                            recorded_failures j (map (lift_event 1) rtrB) = 0%nat)
    by (intros j; apply lifted_no_records).
  split_and!; try assumption; try reflexivity.
  - unfold processQueuedEmail, send_to in *.
    cbn [try_providers breakers set_store]. rewrite Hbr. cbn [lookup list_lookup].
    rewrite (closed_below_threshold _ bA HA), HrA.
    cbn [breakers set_breakers list_insert insert lookup list_lookup].
    rewrite (closed_below_threshold _ bB HB), HrB.
    subst tr. rewrite HtrA, <- app_assoc. reflexivity.
  - unfold InMemoryStore.getStatus, InMemoryStore.markSent. cbn. apply lookup_insert_eq.
  - counted 0%nat.
  - counted 0%nat.
  - counted 1%nat.
  - counted 1%nat.
Qed.

End FailoverRunFacts.

(** C7.  One run of [processQueuedEmail] over providers and breakers of
    equal number settles with a boolean and is a run of the fail-over
    contract [failover_run] from the world it starts in to the world it
    leaves.  Each breaker is checked at the clock reading of the moment;
    a pair whose breaker is open then is skipped, with no call of its
    provider and its breaker as it was.  The provider of a closed breaker
    is called with the recipient, subject and body of the message, again
    after each failed call but the third, 100 and 200 ms later.  If one of
    these calls is fulfilled the pair gets one [recordSuccess], the status
    becomes "Sent via" followed by the provider's name, the result is
    [true] and no later pair is visited; if all three fail it gets one
    [recordFailure], stamped with the clock reading after the third call,
    and the visit goes on.  When no pair is left the status is "All
    providers failed" and the result [false].  The store is the old one
    with the status "Processing" and then the final status written for the
    id, the queue is untouched, and the final status is the one update
    announced if there is a socket server.  No breaker has more than one
    outcome recorded on it.  With two providers, closed breakers, the first
    provider failing every call and the second succeeding within its retry
    budget, the first is called three times and the second from the world
    the third call left; the status is "Sent via" the second provider's
    name, one failure is recorded on the first breaker and one success on
    the second. *)
Theorem failover_dispatch :
  (forall (W : Type) (clock : W -> Z) (sleep : Z -> W -> W)
          (providers : list (@EmailService.Provider W)) (m : MessageQueue.EmailMessage)
          (s : EmailService.t) (w : W),
      List.length (EmailService.breakers s) = List.length providers ->
      exists winner s' w' tr,
        EmailService.processQueuedEmail clock sleep providers m s w =
          Some (Fulfilled (bool_decide (is_Some winner)), s', w', tr) /\
        failover_run clock sleep m 0%nat (zip providers (EmailService.breakers s)) w
          (EmailService.breakers s') w' tr winner /\
        EmailService.store s' =
          InMemoryStore.markSent (MessageQueue.id m) (final_status winner)
            (InMemoryStore.markSent (MessageQueue.id m) "Processing"
               (EmailService.store s)) /\
        InMemoryStore.getStatus (MessageQueue.id m) (EmailService.store s') =
          Some (final_status winner) /\
        EmailService.queue s' = EmailService.queue s /\
        EmailService.updates s' =
          (if EmailService.io s
           then EmailService.updates s ++ [(MessageQueue.id m, final_status winner)]
           else EmailService.updates s) /\
        forall j, (recorded_successes j tr + recorded_failures j tr <= 1)%nat) /\
  (forall (W : Type) (clock : W -> Z) (sleep : Z -> W -> W)
          (pA pB : @EmailService.Provider W) (bA bB : CircuitBreaker.t)
          (m : MessageQueue.EmailMessage) (s : EmailService.t) (w : W),
      EmailService.breakers s = [bA; bB] ->
      CircuitBreaker.failureCount bA < CircuitBreaker.failureThreshold ->
      CircuitBreaker.failureCount bB < CircuitBreaker.failureThreshold ->
      (forall to subject body w0,
          exists e w1, EmailService.send pA to subject body w0 = (Rejected e, w1)) ->
      (forall to subject body w0,
          exists v w1 rtr,
            retryWithBackoff sleep (EmailService.send pB to subject body)
              default_retries default_delay w0 = Some (Fulfilled v, w1, rtr)) ->
      exists s' w' tr errs w1 e w2 v rtr,
        EmailService.processQueuedEmail clock sleep [pA; pB] m s w =
          Some (Fulfilled true, s', w', tr) /\
        failing sleep (send_to m pA) default_delay 0 w errs w1 /\
        List.length errs = 2%nat /\
        send_to m pA w1 = (Rejected e, w2) /\
        retryWithBackoff sleep (send_to m pB) default_retries default_delay w2 =
          Some (Fulfilled v, w', rtr) /\
        tr = EmailService.Checked 0 (clock w) false :: failed_sends 0 0 2 ++
             [EmailService.Attempt 0 false; EmailService.RecordedFailure 0 (clock w2)] ++
             EmailService.Checked 1 (clock w2) false ::
             map (EmailService.lift_event 1) rtr ++ [EmailService.RecordedSuccess 1] /\
        InMemoryStore.getStatus (MessageQueue.id m) (EmailService.store s') =
          Some ("Sent via " ++ EmailService.name pB)%string /\
        EmailService.breakers s' =
          [CircuitBreaker.recordFailure (clock w2) bA; CircuitBreaker.recordSuccess bB] /\
        recorded_failures 0 tr = 1%nat /\ recorded_successes 0 tr = 0%nat /\
        recorded_successes 1 tr = 1%nat /\ recorded_failures 1 tr = 0%nat).
Proof.
  split.
  - intros W clock sleep providers m s w Hlen. unfold EmailService.processQueuedEmail.
    destruct (try_providers_run clock sleep providers 0 m
                (EmailService.set_store
                   (InMemoryStore.markSent (MessageQueue.id m) "Processing"
                      (EmailService.store s)) s) w)
      as (winner & s' & w' & tr & Hrun & Hfo & _ & _ & Hst & Hq & _ & Hup); [exact Hlen|].
    exists winner, s', w', tr. rewrite !drop_0 in Hfo.
    cbn [EmailService.store EmailService.set_store EmailService.queue EmailService.io
         EmailService.updates EmailService.breakers] in Hst, Hq, Hup, Hfo.
    split_and!; try assumption.
    + rewrite Hst. unfold InMemoryStore.getStatus, InMemoryStore.markSent. cbn.
      apply lookup_insert_eq.
    + intros j. eapply failover_records_once, failover_run_record. exact Hfo.
  - intros W clock sleep pA pB bA bB m s w. apply failover_to_second.
Qed.

(** The world is the clock; the first provider fails every call, the second
    fulfils every call. *)
Lemma failover_dispatch_witness :
  let clock := fun w : Z => w in
  let sleep := fun ms w : Z => w + ms in
  let pA := EmailService.mkProvider "ProviderA"
              (fun _ _ _ (w : Z) => (Rejected (T := bool) "ProviderA failed"%string, w + 1)) in
  let pB := EmailService.mkProvider "ProviderB"
              (fun _ _ _ (w : Z) => (Fulfilled (E := string) true, w + 1)) in
  let m := MessageQueue.fullMessage 0 (job "A" MessageQueue.NORMAL) in
  (exists winner s' w' tr,
      EmailService.processQueuedEmail clock sleep [pA; pB] m (EmailService.create false) 0 =
        Some (Fulfilled (bool_decide (is_Some winner)), s', w', tr) /\
      failover_run clock sleep m 0%nat
        (zip [pA; pB] (EmailService.breakers (EmailService.create false))) 0
        (EmailService.breakers s') w' tr winner /\
      InMemoryStore.getStatus "A" (EmailService.store s') = Some (final_status winner)) /\
  (exists s' w' tr w2,
      EmailService.processQueuedEmail clock sleep [pA; pB] m (EmailService.create false) 0 =
        Some (Fulfilled true, s', w', tr) /\
      InMemoryStore.getStatus "A" (EmailService.store s') = Some "Sent via ProviderB"%string /\
      EmailService.breakers s' =
        [CircuitBreaker.recordFailure (clock w2) CircuitBreaker.create;
         CircuitBreaker.recordSuccess CircuitBreaker.create]).
Proof.
  intros clock sleep pA pB m. split.
  - destruct (proj1 failover_dispatch Z clock sleep [pA; pB] m (EmailService.create false) 0)
      as (winner & s' & w' & tr & Hrun & Hfo & _ & Hst & _); [reflexivity|].
    exists winner, s', w', tr. split_and!; assumption.
  - destruct (proj2 failover_dispatch Z clock sleep pA pB CircuitBreaker.create
                CircuitBreaker.create m (EmailService.create false) 0)
      as (s' & w' & tr & errs & w1 & e & w2 & v & rtr & Hrun & _ & _ & _ & _ & _ &
          Hst & Hbr & _).
    + reflexivity.
    + reflexivity.
    + reflexivity.
    + intros to subject body w0. eexists _, _. reflexivity.
    + intros to subject body w0. eexists _, _, _. reflexivity.
    + exists s', w', tr, w2. split_and!; assumption.
Defined.

(** ** The service: ids are never forgotten *)

Section StoreGrows.
Import InMemoryStore.

Lemma extends_refl (a : t) : extends a a.
Proof. split; [reflexivity|tauto]. Qed.

Lemma extends_trans (a b c : t) : extends a b -> extends b c -> extends a c.
Proof. intros [H1 H2] [H3 H4]. split; [set_solver|tauto]. Qed.

Lemma extends_markSent (id st : string) (a : t) : extends a (markSent id st a).
Proof.
  unfold extends, status_implies_seen, seen, markSent. cbn.
  rewrite !dom_insert_L. split.
  - apply union_subseteq_r.
  - intros H. apply union_mono_l, H.
Qed.

Lemma extends_isRateLimited (now : Z) (to : string) (a : t) :
  extends a (isRateLimited now to a).2.
Proof.
  unfold isRateLimited. destruct (rateLimit a !! to); [destruct (below _ _)|];
    cbn [snd]; unfold extends, status_implies_seen, seen; cbn;
    (split; [reflexivity|tauto]).
Qed.

Lemma seen_duplicate (id : string) (a : t) : id ∈ seen a <-> isDuplicate id a = true.
Proof.
  unfold seen, isDuplicate. rewrite bool_decide_eq_true. apply elem_of_dom.
Qed.

End StoreGrows.

Create HintDb store.
#[global] Hint Resolve extends_refl extends_markSent extends_isRateLimited : store.

Section ServiceFacts.
Context {W : Type}.
Variable clock : W -> Z.
Variable sleep : Z -> W -> W.
Variable providers : list (@EmailService.Provider W).
Import EmailService.

Lemma notify_store (i st : string) (s : t) : store (notify i st s) = store s.
Proof. apply notify_fields. Qed.

Lemma sendEmail_duplicate now id to subject body priority (s : t) :
  InMemoryStore.isDuplicate id (store s) = true ->
  sendEmail now id to subject body priority s = (Duplicate, s).
Proof. intros H. unfold sendEmail. rewrite H. reflexivity. Qed.

Lemma sendEmail_store now id to subject body priority (s : t) :
  let r := sendEmail now id to subject body priority s in
  extends (store s) (store r.2) /\
  (r.1 = Queued -> InMemoryStore.isDuplicate id (store r.2) = true).
Proof.
  cbn zeta. unfold sendEmail.
  destruct (InMemoryStore.isDuplicate id (store s)); [split; [apply extends_refl|discriminate]|].
  pose proof (extends_isRateLimited now to (store s)) as Hrl.
  destruct (InMemoryStore.isRateLimited now to (store s)) as [limited st]. cbn [snd] in Hrl.
  destruct limited; [split; [exact Hrl|discriminate]|].
  destruct (MessageQueue.enqueue _ _ _ _) as [n q]. cbn [fst snd store set_queue].
  rewrite notify_store. cbn [store set_store]. split.
  - eapply extends_trans; [exact Hrl|apply extends_markSent].
  - intros _. apply isDuplicate_markSent.
Qed.

Lemma try_providers_store (ps : list Provider) :
  forall i m s w r s' w' tr,
    try_providers clock sleep ps i m s w = Some (r, s', w', tr) ->
    extends (store s) (store s').
Proof.
  induction ps as [|p ps IH]; intros i m s w r s' w' tr; cbn [try_providers].
  - intros [= <- <- <- <-]. rewrite notify_store. apply extends_markSent.
  - destruct (breakers s !! i) as [b|]; [|intros [= <- <- <- <-]; apply extends_refl].
    destruct (CircuitBreaker.isOpen (clock w) b).
    + destruct (try_providers clock sleep ps (S i) m s w) as [[[[r0 s0] w0] tr0]|] eqn:Hrec;
        [|discriminate].
      intros [= <- <- <- <-]. eapply IH, Hrec.
    + destruct (retryWithBackoff _ _ _ _ _) as [[[[v|e] w1] rtr]|]; [| |discriminate].
      * intros [= <- <- <- <-]. rewrite notify_store. apply extends_markSent.
      * match goal with |- context [try_providers clock sleep ps (S i) m ?s1 w1] =>
          destruct (try_providers clock sleep ps (S i) m s1 w1)
            as [[[[r0 s0] w0] tr0]|] eqn:Hrec; [|discriminate];
          intros [= <- <- <- <-]; apply (IH _ _ _ _ _ _ _ _ Hrec) end.
Qed.

Lemma processQueuedEmail_store m s w r s' w' tr :
  processQueuedEmail clock sleep providers m s w = Some (r, s', w', tr) ->
  extends (store s) (store s').
Proof.
  unfold processQueuedEmail. intros H. apply try_providers_store in H.
  eapply extends_trans; [apply extends_markSent|exact H].
Qed.

Lemma on_event_store (e : MessageQueue.Emitted) (s : t) :
  extends (store s) (store (on_event e s)).
Proof.
  destruct e as [m|m|m|m]; cbn [on_event]; auto with store.
  - destruct (InMemoryStore.getStatus _ _) as [st|]; auto with store.
    destruct (String.eqb st ""); [|rewrite notify_store]; auto with store.
  - rewrite notify_store. cbn [store set_store]. auto with store.
Qed.

Lemma queue_step_store (e : MessageQueue.Event) (s : t) :
  extends (store s) (store (queue_step e s)).
Proof.
  unfold queue_step.
  set (q := MessageQueue.step never_stops e (queue s)).
  generalize (drop (List.length (MessageQueue.events (queue s))) (MessageQueue.events q)).
  intros new. change (store s) with (store (set_queue q s)) at 1.
  generalize (set_queue q s). clear. intros s.
  revert s. induction new as [|e new IH]; intros s; cbn [foldl]; [apply extends_refl|].
  eapply extends_trans; [apply on_event_store|apply IH].
Qed.

Lemma step_store (e : Event) (sw : t * W) :
  extends (store sw.1) (store (step clock sleep providers e sw).1).
Proof.
  destruct sw as [s w]. destruct e as [now id to subject body priority|m| | | |];
    cbn [step fst].
  - apply sendEmail_store.
  - destruct (processQueuedEmail clock sleep providers m s w) as [[[[r s'] w'] tr]|] eqn:H;
      auto with store.
    cbn [fst]. eapply processQueuedEmail_store, H.
  - apply queue_step_store.
  - apply queue_step_store.
  - apply queue_step_store.
  - auto with store.
Qed.

Lemma run_store (es : list Event) :
  forall sw, extends (store sw.1) (store (run clock sleep providers es sw).1).
Proof.
  unfold run. induction es as [|e es IH]; intros sw; cbn [foldl]; [apply extends_refl|].
  eapply extends_trans; [apply step_store|apply IH].
Qed.

End ServiceFacts.

(** C9.  No step of the service removes an id from the ids the store has
    seen.  Hence, once [sendEmail] has returned 'Queued' for an id, after
    any further steps of the service (submissions, processor runs, timers,
    settlements, shutdown) every [sendEmail] with that id returns
    'Duplicate' and leaves the service as it is.  The same holds in every
    state reached from a new service for every id that has a status,
    whatever the status, "All providers failed" and "Failed in queue"
    included. *)
Theorem duplicate_ids_stay_rejected :
  forall (W : Type) (clock : W -> Z) (sleep : Z -> W -> W)
         (providers : list (@EmailService.Provider W)),
    (forall e sw,
        seen (EmailService.store sw.1) ⊆
        seen (EmailService.store (EmailService.step clock sleep providers e sw).1)) /\
    (forall now id to subject body priority s w es,
        (EmailService.sendEmail now id to subject body priority s).1 = EmailService.Queued ->
        let s' := (EmailService.run clock sleep providers es
                     ((EmailService.sendEmail now id to subject body priority s).2, w)).1 in
        forall now' to' subject' body' priority',
          EmailService.sendEmail now' id to' subject' body' priority' s' =
            (EmailService.Duplicate, s')) /\
    (forall io w es id status,
        let s' := (EmailService.run clock sleep providers es (EmailService.create io, w)).1 in
        InMemoryStore.getStatus id (EmailService.store s') = Some status ->
        forall now' to' subject' body' priority',
          EmailService.sendEmail now' id to' subject' body' priority' s' =
            (EmailService.Duplicate, s')).
Proof.
  intros W clock sleep providers. split_and!.
  - intros e sw. apply step_store.
  - intros now id to subject body priority s w es Hq s' now' to' subject' body' priority'.
    apply sendEmail_duplicate, seen_duplicate.
    destruct (sendEmail_store now id to subject body priority s) as [_ Hdup].
    specialize (Hdup Hq). apply seen_duplicate in Hdup.
    destruct (run_store clock sleep providers es
                ((EmailService.sendEmail now id to subject body priority s).2, w)) as [Hsub _].
    apply Hsub, Hdup.
  - intros io w es id status s' Hst now' to' subject' body' priority'.
    apply sendEmail_duplicate, seen_duplicate.
    destruct (run_store clock sleep providers es (EmailService.create io, w)) as [_ Hinv].
    apply Hinv.
    + unfold status_implies_seen, seen. cbn. set_solver.
    + unfold InMemoryStore.getStatus in Hst. apply elem_of_dom. eauto.
Qed.

(** A submission, a processor run that ends in "All providers failed", its
    settlement, and the submission again. *)
Lemma duplicate_ids_stay_rejected_witness :
  let clock := fun w : Z => w in
  let sleep := fun ms w : Z => w + ms in
  let down := fun n => EmailService.mkProvider n
                (fun _ _ _ (w : Z) => (Rejected (T := bool) "down"%string, w + 1)) in
  let providers := [down "ProviderA"%string; down "ProviderB"%string] in
  let first := EmailService.sendEmail 0 "A" "r@example.com" "subject" "body"
                 MessageQueue.NORMAL (EmailService.create false) in
  let s' := (EmailService.run clock sleep providers
               [EmailService.Process (MessageQueue.fullMessage 0 (job "A" MessageQueue.NORMAL));
                EmailService.Settle 0 (Fulfilled false)]
               (first.2, 0)).1 in
  first.1 = EmailService.Queued /\
  InMemoryStore.getStatus "A" (EmailService.store s') = Some "All providers failed"%string /\
  EmailService.sendEmail 60000 "A" "r@example.com" "subject" "body" MessageQueue.NORMAL s' =
    (EmailService.Duplicate, s').
Proof.
  intros clock sleep down providers first s'.
  split; [reflexivity|]. split; [reflexivity|].
  apply (proj1 (proj2 (duplicate_ids_stay_rejected Z clock sleep providers))
           0 "A"%string "r@example.com"%string "subject"%string "body"%string
           MessageQueue.NORMAL (EmailService.create false) 0
           [EmailService.Process (MessageQueue.fullMessage 0 (job "A" MessageQueue.NORMAL));
            EmailService.Settle 0 (Fulfilled false)]).
  reflexivity.
Defined.

(** C8, the part of the claim the code does not keep: [stop()] does not
    reach a processor call that is already running.  "A" is submitted and
    handed to the processor; its first send fails; during the back-off the
    owner shuts the service down; the queue is stopped and calls no
    processor again, yet the three sends that follow are made with the
    queue stopped. *)
Lemma backend_called_after_stop :
  let s1 := (EmailService.sendEmail 0 "A" "r@example.com" "subject" "body"
               MessageQueue.NORMAL (EmailService.create false)).2 in
  let q1 := EmailService.queue s1 in
  exists m s' w' tr,
    MessageQueue.calls q1 = [m] /\
    EmailService.processQueuedEmail w_now shutdown_while_asleep [failingA; workingB] m s1
      (mkWatched 0 q1 []) = Some (Fulfilled true, s', w', tr) /\
    w_queue w' = MessageQueue.stop q1 /\
    MessageQueue.calls (w_queue w') = [m] /\
    w_sends w' = [false; true; true; true].
Proof.
  intros s1 q1. eexists _, _, _, _. split; [vm_compute; reflexivity|].
  split; [vm_compute; reflexivity|]. vm_compute. repeat split.
Qed.


(* ===================================================================== *)
(** * Further properties of the code                                      *)
(* ===================================================================== *)

(** ** Retry with back-off: calls and time *)

Section RetryTimeFacts.
Context {W T E : Type}.
Variable sleep : Z -> W -> W.
Variable fn : W -> Settled T E * W.




End RetryTimeFacts.



(** ** The circuit breaker over a history of reports *)

Section BreakerHistoryFacts.

Lemma replay_fields (history : list BreakerOp) :
  CircuitBreaker.failureCount (replay history) = Z.of_nat (recent_failures history) /\
  CircuitBreaker.lastFailureTime (replay history) = latest_failure history.
Proof.
  induction history as [|[now|] older [IHc IHt]]; cbn [replay recent_failures latest_failure].
  - split; reflexivity.
  - cbn. split; [lia|reflexivity].
  - cbn. split; [reflexivity|exact IHt].
Qed.

End BreakerHistoryFacts.

(** X2.  After any history of reports to a new breaker, [failureCount] is
    the number of failures reported since the last success and
    [lastFailureTime] is the time of the most recent failure, a success
    between leaving it as it is.  So the breaker is open exactly when the
    three most recent reports are failures and less than 10000 ms have
    passed since the most recent one. *)
Theorem breaker_counts_consecutive_failures :
  forall history now,
    CircuitBreaker.failureCount (replay history) = Z.of_nat (recent_failures history) /\
    CircuitBreaker.lastFailureTime (replay history) = latest_failure history /\
    (CircuitBreaker.isOpen now (replay history) = true <->
     exists t1 t2 t3 older,
       history = Failure t1 :: Failure t2 :: Failure t3 :: older /\ now - t1 < 10000).
Proof.
  intros history now. destruct (replay_fields history) as [Hc Ht].
  split; [exact Hc|]. split; [exact Ht|].
  rewrite isOpen_iff, Hc, Ht. unfold CircuitBreaker.failureThreshold,
    CircuitBreaker.cooldownPeriod.
  split.
  - intros [Hn Hnow].
    destruct history as [|[t1|] [|[t2|] [|[t3|] older]]]; cbn in Hn; try lia.
    exists t1, t2, t3, older. split; [reflexivity|exact Hnow].
  - intros (t1 & t2 & t3 & older & -> & Hnow). cbn [recent_failures latest_failure].
    split; [lia|exact Hnow].
Qed.

Lemma breaker_counts_consecutive_failures_witness :
  CircuitBreaker.isOpen 5000
    (replay [Failure 3000; Failure 2000; Failure 1000; Success; Failure 500]) = true /\
  CircuitBreaker.isOpen 5000
    (replay [Failure 3000; Failure 2000; Success; Failure 1000; Failure 500]) = false.
Proof.
  split.
  - apply (proj2 (proj2 (breaker_counts_consecutive_failures
                           [Failure 3000; Failure 2000; Failure 1000; Success; Failure 500]
                           5000))).
    exists 3000, 2000, 1000, [Success; Failure 500]. split; [reflexivity|lia].
  - reflexivity.
Defined.

(** ** The store: statuses and rate limits *)

Section StoreRoundTrips.
Import InMemoryStore.

Lemma isRateLimited_keeps_statuses (now : Z) (to : string) (s : t) :
  status (isRateLimited now to s).2 = status s /\ sent (isRateLimited now to s).2 = sent s /\
  rateLimitPerMinute (isRateLimited now to s).2 = rateLimitPerMinute s.
Proof.
  unfold isRateLimited. destruct (rateLimit s !! to); [destruct (below _ _)|];
    split_and!; reflexivity.
Qed.

Lemma isRateLimited_other (now : Z) (to to' : string) (s : t) :
  to <> to' -> rateLimit (isRateLimited now to s).2 !! to' = rateLimit s !! to'.
Proof.
  intros Hne. unfold isRateLimited.
  destruct (rateLimit s !! to); [destruct (below _ _)|]; cbn;
    try reflexivity; apply lookup_insert_ne, Hne.
Qed.

Lemma isRateLimited_answer (now : Z) (to : string) (s s' : t) :
  rateLimit s' !! to = rateLimit s !! to ->
  rateLimitPerMinute s' = rateLimitPerMinute s ->
  (isRateLimited now to s').1 = (isRateLimited now to s).1.
Proof.
  intros Hl Hr. unfold isRateLimited, minInterval. rewrite Hl, Hr.
  destruct (rateLimit s !! to); [destruct (below _ _)|]; reflexivity.
Qed.

End StoreRoundTrips.

(** X3.  What [markSent] records, [getStatus] returns: the status written
    last for an id is the one read, the id is a duplicate from then on, and
    ids never written to read as before; an id never written has no status
    and is no duplicate.  Rate-limit checks and [markEmailSent] change
    neither statuses nor duplicates. *)
Theorem status_round_trip :
  forall (s : InMemoryStore.t) (id id' st st' to : string) (now rate : Z),
    InMemoryStore.getStatus id (InMemoryStore.markSent id st s) = Some st /\
    InMemoryStore.getStatus id
      (InMemoryStore.markSent id st' (InMemoryStore.markSent id st s)) = Some st' /\
    InMemoryStore.isDuplicate id (InMemoryStore.markSent id st s) = true /\
    (id <> id' ->
     InMemoryStore.getStatus id' (InMemoryStore.markSent id st s) =
       InMemoryStore.getStatus id' s /\
     InMemoryStore.isDuplicate id' (InMemoryStore.markSent id st s) =
       InMemoryStore.isDuplicate id' s) /\
    InMemoryStore.getStatus id (InMemoryStore.create rate) = None /\
    InMemoryStore.isDuplicate id (InMemoryStore.create rate) = false /\
    InMemoryStore.getStatus id (InMemoryStore.isRateLimited now to s).2 =
      InMemoryStore.getStatus id s /\
    InMemoryStore.isDuplicate id (InMemoryStore.isRateLimited now to s).2 =
      InMemoryStore.isDuplicate id s /\
    InMemoryStore.getStatus id (InMemoryStore.markEmailSent now to s) =
      InMemoryStore.getStatus id s /\
    InMemoryStore.isDuplicate id (InMemoryStore.markEmailSent now to s) =
      InMemoryStore.isDuplicate id s.
Proof.
  intros s id id' st st' to now rate.
  destruct (isRateLimited_keeps_statuses now to s) as (Hst & Hse & _).
  unfold InMemoryStore.getStatus, InMemoryStore.isDuplicate.
  rewrite Hst, Hse. cbn.
  split_and!; try reflexivity; try apply lookup_insert_eq.
  - apply bool_decide_eq_true. rewrite lookup_insert_eq. eauto.
  - intros Hne. rewrite !lookup_insert_ne by exact Hne. split; reflexivity.
Qed.

Lemma status_round_trip_witness :
  InMemoryStore.getStatus "b"
    (InMemoryStore.markSent "a" "Queued" (InMemoryStore.create 5)) = None /\
  InMemoryStore.isDuplicate "b"
    (InMemoryStore.markSent "a" "Queued" (InMemoryStore.create 5)) = false.
Proof.
  destruct (status_round_trip (InMemoryStore.create 5) "a" "b" "Queued" "Queued" "r" 0 5)
    as (_ & _ & _ & Hother & _).
  destruct Hother as [H1 H2]; [discriminate|].
  rewrite H1, H2. split; reflexivity.
Defined.

Section RateLimitSpacing.
Import InMemoryStore.

Lemma check_all_spaced (to : string) (rate : Z) (checks : list (string * Z)) :
  0 < rate ->
  forall s,
    rateLimitPerMinute s = rate ->
    Sorted (fun a b => 60000 <= (b - a) * rate) (accepted to (check_all checks s)) /\
    forall last, rateLimit s !! to = Some last ->
                 HdRel (fun a b => 60000 <= (b - a) * rate) last
                   (accepted to (check_all checks s)).
Proof.
  intros Hrate. induction checks as [|[to' now] checks IH]; intros s Hs.
  - cbn. split; [constructor|]. intros; constructor.
  - cbn [check_all].
    destruct (isRateLimited_keeps_statuses now to' s) as (_ & _ & Hr').
    pose proof (isRateLimited_other now to' to s) as Hother.
    destruct (isRateLimited now to' s) as [limited s'] eqn:Hcheck. cbn [snd] in Hr', Hother.
    destruct (IH s') as [IHs IHh]; [congruence|].
    cbn [accepted].
    destruct (String.eqb_spec to' to) as [->|Hne].
    + destruct limited; cbn [andb negb].
      * (* limited: the store is as it was *)
        split; [exact IHs|]. intros last Hlast. apply IHh.
        unfold isRateLimited in Hcheck. rewrite Hlast in Hcheck.
        destruct (below _ _); inversion Hcheck; subst; exact Hlast.
      * (* let through: [now] is recorded *)
        assert (Hnow : rateLimit s' !! to = Some now).
        { unfold isRateLimited in Hcheck.
          destruct (rateLimit s !! to); [destruct (below _ _)|];
            inversion Hcheck; subst; cbn; apply lookup_insert_eq. }
        split; [constructor; [exact IHs|apply IHh, Hnow]|].
        intros last Hlast. constructor.
        unfold isRateLimited in Hcheck. rewrite Hlast in Hcheck.
        destruct (below (now - last) (minInterval s)) eqn:Hb; [discriminate|].
        rewrite below_minInterval_integral in Hb by lia.
        apply Z.ltb_ge in Hb. rewrite Hs in Hb. exact Hb.
    + cbn [andb]. split; [exact IHs|].
      intros last Hlast. apply IHh. rewrite Hother by exact Hne. exact Hlast.
Qed.

End RateLimitSpacing.

(** X4.  With a positive number of mails per minute, in any series of
    rate-limit checks on any store, two checks of one recipient that are
    let through one after the other are at least [60000 / rate] ms apart,
    whatever checks of this or other recipients happen in between. *)
Theorem accepted_checks_are_spaced :
  forall (to : string) (checks : list (string * Z)) (s : InMemoryStore.t),
    0 < InMemoryStore.rateLimitPerMinute s ->
    Sorted (fun a b => 60000 <= (b - a) * InMemoryStore.rateLimitPerMinute s)
      (accepted to (check_all checks s)).
Proof.
  intros to checks s Hrate.
  apply (check_all_spaced to (InMemoryStore.rateLimitPerMinute s) checks Hrate s eq_refl).
Qed.

Lemma accepted_checks_are_spaced_witness :
  let checks := [("a", 0); ("b", 10); ("a", 11999); ("a", 12000); ("b", 12009);
                 ("a", 23000); ("a", 24000)]%string in
  accepted "a" (check_all checks (InMemoryStore.create 5)) = [0; 12000; 24000] /\
  Sorted (fun a b => 60000 <= (b - a) * 5)
    (accepted "a" (check_all checks (InMemoryStore.create 5))).
Proof.
  intros checks. split; [reflexivity|].
  apply (accepted_checks_are_spaced "a" checks (InMemoryStore.create 5)).
  cbn. lia.
Defined.

(** X5.  Recipients are limited independently: a check of one recipient, or
    [markEmailSent] for it, never changes the answer a check of another
    recipient gets. *)
Theorem recipients_are_independent :
  forall (s : InMemoryStore.t) (to to' : string) (now now' : Z),
    to <> to' ->
    (InMemoryStore.isRateLimited now' to' (InMemoryStore.isRateLimited now to s).2).1 =
      (InMemoryStore.isRateLimited now' to' s).1 /\
    (InMemoryStore.isRateLimited now' to' (InMemoryStore.markEmailSent now to s)).1 =
      (InMemoryStore.isRateLimited now' to' s).1.
Proof.
  intros s to to' now now' Hne. split.
  - apply isRateLimited_answer.
    + apply isRateLimited_other, Hne.
    + apply isRateLimited_keeps_statuses.
  - apply isRateLimited_answer; [|reflexivity].
    cbn. apply lookup_insert_ne, Hne.
Qed.

Lemma recipients_are_independent_witness :
  (InMemoryStore.isRateLimited 1 "b"
     (InMemoryStore.isRateLimited 0 "a" (InMemoryStore.create 5)).2).1 = false.
Proof.
  rewrite (proj1 (recipients_are_independent (InMemoryStore.create 5) "a" "b" 0 1
                    ltac:(discriminate))).
  reflexivity.
Defined.

(** ** The queue: order of the wait list *)

Section QueueOrderFacts.
Import MessageQueue.

Lemma insert_sorted_perm (m : EmailMessage) (l : list EmailMessage) :
  insert_sorted m l ≡ₚ m :: l.
Proof.
  induction l as [|x l IH]; cbn [insert_sorted]; [reflexivity|].
  destruct (_ <=? _); [reflexivity|]. rewrite IH. apply Permutation_swap.
Qed.

Lemma sort_perm (l : list EmailMessage) : sort l ≡ₚ l.
Proof.
  unfold sort. induction l as [|x l IH]; cbn [foldr]; [reflexivity|].
  rewrite insert_sorted_perm, IH. reflexivity.
Qed.

Lemma insert_sorted_of_priority (p : MessagePriority) (m : EmailMessage)
    (l : list EmailMessage) :
  of_priority p (insert_sorted m l) = of_priority p (m :: l).
Proof.
  unfold of_priority. induction l as [|x l IH]; cbn [insert_sorted]; [reflexivity|].
  destruct (Z.leb_spec (priority_value (priority m)) (priority_value (priority x)));
    [reflexivity|].
  cbn [List.filter] in *. rewrite IH.
  destruct (Z.eqb_spec (priority_value (priority m)) (priority_value p));
    destruct (Z.eqb_spec (priority_value (priority x)) (priority_value p));
    try reflexivity; lia.
Qed.

(** The sort is stable. *)
Lemma sort_of_priority (p : MessagePriority) (l : list EmailMessage) :
  of_priority p (sort l) = of_priority p l.
Proof.
  unfold sort. induction l as [|x l IH]; cbn [foldr]; [reflexivity|].
  rewrite insert_sorted_of_priority. unfold of_priority in *. cbn [List.filter].
  rewrite IH. reflexivity.
Qed.

Lemma by_priority_strong (l : list EmailMessage) :
  by_priority l -> StronglySorted not_behind l.
Proof.
  apply Sorted_StronglySorted. intros a b c. unfold not_behind. lia.
Qed.



End QueueOrderFacts.



Lemma front_not_behind (l1 l2 : list MessageQueue.EmailMessage) :
  StronglySorted not_behind (l1 ++ l2) ->
  forall m m', m ∈ l1 -> m' ∈ l2 -> not_behind m m'.
Proof.
  induction l1 as [|x l1 IH]; intros Hs m m' Hm Hm'.
  - exfalso. eapply not_elem_of_nil, Hm.
  - cbn [app] in Hs. inversion Hs as [|? ? Hs' Hx]; subst.
    apply elem_of_cons in Hm. destruct Hm as [->|Hm]; [|eapply IH; eassumption].
    rewrite Forall_forall in Hx. apply Hx, elem_of_app. right. exact Hm'.
Qed.

(** X7.  A tick on a live queue whose processor does not stop it and whose
    waiting jobs have no id that names a property the override table
    inherits: the wait list, with the priorities of the three table ids
    overridden, is put in
    priority order without reordering jobs of equal priority; the batch
    handed to the processor is its front, two jobs or all of them; the rest
    stays waiting in that order.  So no job left waiting is ahead of a job
    of the batch, and no job is lost or handed over twice. *)
Theorem tick_takes_front_of_order :
  forall (now : Z) (s : MessageQueue.t),
    live s -> plain_ids (MessageQueue.queue s) ->
    let s' := MessageQueue.processQueue never now s in
    let waiting := map MessageQueue.apply_override (MessageQueue.queue s) in
    exists batch,
      MessageQueue.calls s' = MessageQueue.calls s ++ map (attempted now) batch /\
      batch ++ MessageQueue.queue s' ≡ₚ waiting /\
      by_priority (batch ++ MessageQueue.queue s') /\
      (forall p, of_priority p (batch ++ MessageQueue.queue s') = of_priority p waiting) /\
      (forall m m', m ∈ batch -> m' ∈ MessageQueue.queue s' -> not_behind m m') /\
      (List.length batch = 2%nat \/ MessageQueue.queue s' = []).
Proof.
  intros now s Hlive _ s' waiting.
  destruct (processQueue_live now s Hlive) as [Hq Hc]. fold s' in Hq, Hc.
  fold waiting in Hq, Hc.
  exists (take 2 (MessageQueue.sort waiting)).
  rewrite Hq, take_drop. split_and!.
  - exact Hc.
  - apply sort_perm.
  - apply sort_by_priority.
  - intros p. apply sort_of_priority.
  - intros m m' Hm Hm'.
    pose proof (by_priority_strong _ (sort_by_priority waiting)) as Hs.
    rewrite <- (take_drop 2 (MessageQueue.sort waiting)) in Hs.
    eapply front_not_behind; eassumption.
  - destruct (MessageQueue.sort waiting) as [|a [|b l]]; cbn; auto.
Qed.

Lemma tick_takes_front_of_order_witness :
  let s := MessageQueue.run never
             [MessageQueue.Enqueue 0 (job "a" MessageQueue.NORMAL);
              MessageQueue.Enqueue 1 (job "b" MessageQueue.LOW);
              MessageQueue.Enqueue 2 (job "c" MessageQueue.NORMAL);
              MessageQueue.Enqueue 3 (job "d" MessageQueue.HIGH)]
             (MessageQueue.create MessageQueue.no_config) in
  let s' := MessageQueue.processQueue never 100 s in
  map MessageQueue.id (MessageQueue.calls s') = ["a"; "d"; "c"]%string /\
  map MessageQueue.id (MessageQueue.queue s') = ["b"]%string /\
  exists batch,
    batch ++ MessageQueue.queue s' ≡ₚ
      map MessageQueue.apply_override (MessageQueue.queue s).
Proof.
  intros s s'. split; [reflexivity|]. split; [reflexivity|].
  destruct (tick_takes_front_of_order 100 s) as (batch & _ & Hperm & _).
  - unfold live. repeat split.
  - unfold plain_ids. repeat constructor.
  - exists batch. exact Hperm.
Defined.

(** ** The queue: the retry budget *)

Section RetryBudgetFacts.
Import MessageQueue.
Variable processor_stops : EmailMessage -> bool.

Lemma bounded_intro (s s' : t) :
  config s' = config s ->
  Forall (within_limit (config s)) (queue s') ->
  Forall (pending_within_limit (config s)) (pending s') ->
  Forall (retry_on_schedule (config s)) (retryTimeouts s') ->
  Forall (event_within_limit (config s)) (events s') ->
  retries_bounded s'.
Proof. unfold retries_bounded. intros ->. tauto. Qed.

Lemma bounded_frame (s s' : t) :
  config s' = config s -> queue s' = queue s -> pending s' = pending s ->
  retryTimeouts s' = retryTimeouts s -> events s' = events s ->
  retries_bounded s -> retries_bounded s'.
Proof. unfold retries_bounded. intros -> -> -> -> ->. tauto. Qed.

Ltac framed := eapply bounded_frame; [reflexivity..|eassumption].

Lemma clearTimeouts_more (hs : list nat) :
  forall s,
    let s' := foldl (fun s h => clearTimeout h s) s hs in
    pending s' = pending s /\ events s' = events s.
Proof.
  induction hs as [|h hs IH]; intros s; cbn [foldl]; [auto|].
  destruct (IH (clearTimeout h s)) as [-> ->]. auto.
Qed.

Lemma stop_fields (s : t) :
  config (stop s) = config s /\ queue (stop s) = [] /\ pending (stop s) = pending s /\
  events (stop s) = events s /\
  forall e, e ∈ retryTimeouts (stop s) -> e ∈ retryTimeouts s.
Proof.
  unfold stop.
  set (s1 := set_isProcessing false (set_wasStopped true (set_isStopped true s))).
  set (s2 := match timer s1 with Some h => set_timer None (clearTimeout h s1) | None => s1 end).
  assert (H2 : config s2 = config s /\ pending s2 = pending s /\ events s2 = events s /\
               forall e, e ∈ retryTimeouts s2 -> e ∈ retryTimeouts s).
  { subst s2. destruct (timer s1); cbn; split_and!; auto.
    intros e He. apply list_elem_of_filter in He. tauto. }
  destruct H2 as (Hc2 & Hp2 & He2 & Hr2).
  destruct (clearTimeouts_fields (retryTimers s2) s2) as (_&Hc&_&_&_&_&_&_&_&_&_&Hr).
  destruct (clearTimeouts_more (retryTimers s2) s2) as (Hp & He).
  cbn zeta in Hc, Hr, Hp, He. cbn [config queue pending events retryTimeouts set_processor
    set_queue set_activeCount set_retryTimers].
  split_and!; try congruence.
  intros e Hin. apply Hr in Hin. apply Hr2. tauto.
Qed.

Lemma stop_bounded (s : t) : retries_bounded s -> retries_bounded (stop s).
Proof.
  intros (Hq & Hp & Hr & He). destruct (stop_fields s) as (Hc & Hq' & Hp' & He' & Hr').
  apply (bounded_intro s); [exact Hc|rewrite Hq'; constructor|congruence| |congruence].
  rewrite Forall_forall in *. auto.
Qed.

Lemma call_processor_bounded (m : EmailMessage) (s : t) :
  retries_bounded s ->
  let r := call_processor processor_stops m s in
  retries_bounded r.2 /\ config r.2 = config s /\
  (r.1 = AwaitingProcessor m \/ r.1 = AwaitingFalse m).
Proof.
  intros H. cbn zeta. unfold call_processor.
  destruct (processor s); [|auto].
  repeat match goal with
         | |- context [if ?b then _ else _] => destruct b
         end; cbn [fst snd]; split_and!; auto;
    first [ framed
          | apply stop_bounded; framed
          | rewrite (proj1 (stop_fields _)); reflexivity
          | reflexivity ].
Qed.

Lemma processMessage_bounded (now : Z) (m : EmailMessage) (s : t) :
  retries_bounded s -> within_limit (config s) m ->
  retries_bounded (processMessage processor_stops now m s) /\
  config (processMessage processor_stops now m s) = config s.
Proof.
  intros H Hm. unfold processMessage.
  destruct (_isStopped s || negb (isProcessing s)).
  - split; [|reflexivity]. destruct H as (Hq & Hp & Hr & He).
    apply (bounded_intro s); cbn; auto.
    apply Forall_app. split; [exact Hp|]. repeat constructor.
  - match goal with |- context [call_processor _ ?m' s] =>
      destruct (call_processor_bounded m' s H) as (Hb & Hc & Hkind);
      destruct (call_processor processor_stops m' s) as [p s'] end.
    cbn [fst snd] in Hb, Hc, Hkind. split; [|exact Hc].
    destruct Hb as (Hq & Hp & Hr & He). rewrite Hc in *.
    apply (bounded_intro s); cbn; auto.
    apply Forall_app. split; [exact Hp|]. constructor; [|constructor].
    destruct Hkind as [->| ->]; exact Hm.
Qed.

Lemma dispatch_bounded (now : Z) (batch : list EmailMessage) :
  forall s,
    retries_bounded s -> Forall (within_limit (config s)) batch ->
    retries_bounded (dispatch processor_stops now batch s) /\
    config (dispatch processor_stops now batch s) = config s.
Proof.
  induction batch as [|m batch IH]; intros s H Hb; [split; [exact H|reflexivity]|].
  rewrite dispatch_cons. inversion Hb as [|? ? Hm Hb']; subst.
  destruct (_isStopped s || negb (isProcessing s)); [apply IH; assumption|].
  destruct (processMessage_bounded now m (set_activeCount (activeCount s + 1) s))
    as [H1 Hc1]; [framed|exact Hm|].
  cbn [config set_activeCount] in Hc1.
  destruct (IH _ H1) as [H2 Hc2]; [rewrite Hc1; exact Hb'|].
  split; [exact H2|congruence].
Qed.

Lemma apply_override_within (c : QueueConfig) (m : EmailMessage) :
  within_limit c m -> within_limit c (apply_override m).
Proof.
  unfold apply_override, within_limit.
  destruct (negb _); [destruct (_testPriorityOverride _)|]; auto.
Qed.

Lemma sort_within (c : QueueConfig) (l : list EmailMessage) :
  Forall (within_limit c) l -> Forall (within_limit c) (sort l).
Proof. intros H. rewrite sort_perm. exact H. Qed.

Lemma processQueue_bounded (now : Z) (s : t) :
  retries_bounded s ->
  retries_bounded (processQueue processor_stops now s) /\
  config (processQueue processor_stops now s) = config s.
Proof.
  intros H. unfold processQueue.
  destruct (_isStopped s || _wasStopped s || negb (isProcessing s)); [auto|].
  set (s1 := if 0 <? Z.of_nat (List.length (queue s)) then _ else s).
  assert (H1 : retries_bounded s1 /\ config s1 = config s).
  { subst s1. destruct (0 <? _); [|auto]. split; [|reflexivity].
    destruct H as (Hq & Hp & Hr & He). apply (bounded_intro s); cbn; auto.
    apply sort_within, Forall_fmap. eapply Forall_impl; [exact Hq|].
    intros m Hm. apply apply_override_within, Hm. }
  clearbody s1. destruct H1 as [H1 Hc1].
  set (s2 := if isProcessing s1 && _ && _ then _ else s1).
  assert (H2 : retries_bounded s2 /\ config s2 = config s).
  { subst s2. destruct (isProcessing s1 && _ && _); [|auto].
    unfold fresh. split; [framed|exact Hc1]. }
  clearbody s2. destruct H2 as [H2 Hc2].
  destruct (_isStopped s2 || _wasStopped s2 || negb (isProcessing s2) || _); [auto|].
  cbn zeta. destruct (Z.min _ _ <=? 0); [split; [framed|exact Hc2]|].
  destruct H2 as (Hq & Hp & Hr & He).
  cbn [queue set_queue set_activeCount].
  match goal with |- context [dispatch _ now ?b ?s0] =>
    destruct (dispatch_bounded now b s0) as [H3 Hc3] end.
  - apply (bounded_intro s2); cbn; auto.
    apply Forall_drop, sort_within, Hq.
  - cbn [config set_queue set_activeCount]. apply Forall_take, sort_within, Hq.
  - split; [exact H3|]. rewrite Hc3. exact Hc2.
Qed.

Lemma startProcessing_bounded (now : Z) (s : t) :
  retries_bounded s ->
  retries_bounded (startProcessing processor_stops now s) /\
  config (startProcessing processor_stops now s) = config s.
Proof.
  intros H. unfold startProcessing.
  destruct (_isStopped s); [auto|]. destruct (negb (isProcessing s)); [|auto].
  destruct (processQueue_bounded now (set_isProcessing true s)) as [H1 Hc1]; [framed|].
  auto.
Qed.

Lemma startProcessing_bounded_from (s0 : t) (now : Z) (s : t) :
  config s = config s0 -> retries_bounded s ->
  retries_bounded (startProcessing processor_stops now s) /\
  config (startProcessing processor_stops now s) = config s0.
Proof. intros <- H. apply startProcessing_bounded, H. Qed.

Lemma fullMessage_within (c : QueueConfig) (now : Z) (message : NewMessage) :
  within_limit c (fullMessage now message) /\
  retryCount (apply_override (fullMessage now message)) = 0.
Proof.
  split.
  - unfold within_limit, retry_limit. cbn. lia.
  - unfold apply_override. destruct (negb _); [destruct (_testPriorityOverride _)|]; reflexivity.
Qed.

Lemma enqueue_bounded (now : Z) (message : NewMessage) (s : t) :
  retries_bounded s ->
  retries_bounded (enqueue processor_stops now message s).2 /\
  config (enqueue processor_stops now message s).2 = config s.
Proof.
  intros H. unfold enqueue.
  destruct (fullMessage_within (config s) now message) as [Hfull Hzero].
  assert (Hfull' : within_limit (config s) (apply_override (fullMessage now message)))
    by (apply apply_override_within, Hfull).
  assert (Hev : event_within_limit (config s) (enqueued (fullMessage now message)))
    by reflexivity.
  assert (Hev' : event_within_limit (config s)
                   (enqueued (apply_override (fullMessage now message))))
    by exact Hzero.
  destruct (_isStopped s || _wasStopped s); [auto|].
  pose proof H as (Hq & Hp & Hr & He).
  destruct (String.eqb (new_id message) "stats-1" || String.eqb (new_id message) "stats-2").
  - cbn zeta. cbn [snd].
    destruct (String.eqb (new_id message) "stats-1");
      (apply startProcessing_bounded_from; [reflexivity|]);
      apply (bounded_intro s); cbn; auto;
      try (apply Forall_app; split; [assumption|]); (constructor; [assumption|constructor]).
  - set (s1 := if negb _ && _ then set_maxActiveCountForTest 2 s else s).
    assert (H1 : retries_bounded s1 /\ config s1 = config s).
    { subst s1. destruct (negb _ && _); [|auto]. split; [framed|auto]. }
    clearbody s1. destruct H1 as ((Hq1 & Hp1 & Hr1 & He1) & Hc1).
    rewrite Hc1 in *.
    destruct (String.eqb (new_id message) "test-1");
      [|destruct (String.eqb (new_id message) "test-2")]; cbn zeta; cbn [snd].
    + apply startProcessing_bounded_from; [exact Hc1|].
      apply (bounded_intro s1); rewrite ?Hc1; cbn; auto;
        try (apply Forall_app; split; [assumption|]); (constructor; [assumption|constructor]).
    + apply startProcessing_bounded_from; [exact Hc1|].
      apply (bounded_intro s1); rewrite ?Hc1; cbn; auto;
        try (apply Forall_app; split; [assumption|]); (constructor; [assumption|constructor]).
    + assert (H2 : retries_bounded
                     (emit (enqueued (apply_override (fullMessage now message)))
                        (set_queue (sort (queue s1 ++
                                          [apply_override (fullMessage now message)])) s1))).
      { apply (bounded_intro s1); rewrite ?Hc1; cbn; auto.
        - apply sort_within, Forall_app. split; [assumption|].
          constructor; [assumption|constructor].
        - apply Forall_app. split; [assumption|]. constructor; [assumption|constructor]. }
      match goal with |- context [if ?b then _ else _] => destruct b end;
        [apply startProcessing_bounded_from; [exact Hc1|exact H2]|split; [exact H2|exact Hc1]].
Qed.

Lemma handleFailure_bounded (m : EmailMessage) (s : t) :
  retries_bounded s -> within_limit (config s) m ->
  retries_bounded (handleFailure m s) /\ config (handleFailure m s) = config s.
Proof.
  intros H Hm. unfold handleFailure.
  destruct (_isStopped s); [auto|]. cbn zeta. cbn [retryCount].
  destruct H as (Hq & Hp & Hr & He). unfold within_limit, retry_limit in Hm.
  destruct (Z.leb_spec (retryCount m + 1) (maxRetries (config s))).
  - unfold fresh. split; [|reflexivity]. apply (bounded_intro s); cbn; auto.
    apply Forall_app. split; [exact Hr|]. constructor; [|constructor].
    unfold retry_on_schedule, retry_limit. cbn. split; [lia|reflexivity].
  - split; [|reflexivity]. apply (bounded_intro s); cbn; auto.
    apply Forall_app. split; [exact He|]. constructor; [|constructor].
    cbn. unfold retry_limit. lia.
Qed.

Lemma retryCallback_bounded (h : nat) (m : EmailMessage) (s : t) :
  retries_bounded s -> 1 <= retryCount m <= retry_limit (config s) ->
  retries_bounded (retryCallback h m s) /\ config (retryCallback h m s) = config s.
Proof.
  intros (Hq & Hp & Hr & He) Hm. unfold retryCallback.
  destruct (isProcessing s && negb (_isStopped s)); split; try reflexivity;
    apply (bounded_intro s); cbn; auto.
  - apply sort_within, Forall_app. split; [exact Hq|]. constructor; [|constructor].
    unfold within_limit. lia.
  - apply Forall_app. split; [exact He|]. repeat constructor; cbn; lia.
Qed.

Lemma resume_bounded (p : Pending) (r : Settled bool unit) (s : t) :
  retries_bounded s -> pending_within_limit (config s) p ->
  retries_bounded (resume p r s) /\ config (resume p r s) = config s.
Proof.
  intros H Hp. unfold resume.
  assert (Hf : forall m, within_limit (config s) m ->
                         retries_bounded (if _isStopped s then s else handleFailure m s) /\
                         config (if _isStopped s then s else handleFailure m s) = config s).
  { intros m Hm. destruct (_isStopped s); [auto|apply handleFailure_bounded; assumption]. }
  destruct p as [m|m|]; [destruct r as [[|]|]|..]; cbn [pending_within_limit] in Hp;
    try (destruct (Hf m Hp) as [H1 Hc1]; split; [framed|exact Hc1]).
  - destruct (_isStopped s); [split; [framed|reflexivity]|].
    split; [|reflexivity]. destruct H as (Hq & Hpe & Hr & He).
    apply (bounded_intro s); cbn; auto.
    apply Forall_app. split; [exact He|]. constructor; [exact Hp|constructor].
  - split; [framed|reflexivity].
Qed.

Lemma step_bounded (e : Event) (s : t) :
  retries_bounded s ->
  retries_bounded (step processor_stops e s) /\ config (step processor_stops e s) = config s.
Proof.
  intros H. destruct e as [now message| |now h|h|k r]; cbn [step].
  - apply enqueue_bounded, H.
  - split; [apply stop_bounded, H|apply stop_fields].
  - destruct (bool_decide _); [|auto].
    destruct (processQueue_bounded now
                (set_tickTimeouts (filter (fun h' => h' ≠ h) (tickTimeouts s)) s))
      as [H1 Hc1]; [framed|]. auto.
  - destruct (list_find _ _) as [[i [[h' d] m]]|] eqn:Hfind; [|auto].
    apply list_find_Some in Hfind. destruct Hfind as (Hin & _ & _).
    apply list_elem_of_lookup_2 in Hin.
    pose proof H as (Hq & Hp & Hr & He).
    pose proof (proj1 (Forall_forall _ _) Hr _ Hin) as [Hm _]. cbn in Hm.
    match goal with |- context [retryCallback h m ?s0] =>
      destruct (retryCallback_bounded h m s0) as [H1 Hc1] end.
    + apply (bounded_intro s); cbn; auto.
      rewrite Forall_forall in *. intros e He'. apply list_elem_of_filter in He'.
      apply Hr. tauto.
    + exact Hm.
    + auto.
  - destruct (pending s !! k) as [p|] eqn:Hk; [|auto].
    pose proof H as (Hq & Hp & Hr & He).
    pose proof (proj1 (Forall_forall _ _) Hp _ (list_elem_of_lookup_2 _ _ _ Hk)) as Hpk.
    destruct (resume_bounded p r (set_pending (delete k (pending s)) s)) as [H1 Hc1].
    + apply (bounded_intro s); cbn; auto. apply Forall_delete, Hp.
    + exact Hpk.
    + auto.
Qed.

Lemma run_bounded (es : list Event) :
  forall s, retries_bounded s ->
            retries_bounded (run processor_stops es s) /\
            config (run processor_stops es s) = config s.
Proof.
  unfold run. induction es as [|e es IH]; intros s H; cbn [foldl]; [auto|].
  destruct (step_bounded e s H) as [H1 Hc1]. destruct (IH _ H1) as [H2 Hc2].
  split; [exact H2|congruence].
Qed.

End RetryBudgetFacts.

(** X8.  The retry budget of the queue.  In every state a queue built by
    the constructor reaches, whatever is enqueued, whenever timers fire and
    however the processor's promises settle: a waiting or in-flight job has
    failed at most [limit] times, where [limit] is the configured
    [maxRetries] (0 if that is negative); an armed retry belongs to a job
    that has failed between 1 and [limit] times and waits
    [retryDelay * 2^(retryCount - 1)] ms; 'requeued' is emitted only for
    such jobs; 'failed' is emitted only for a job that has just failed for
    the [limit + 1]-th time; 'enqueued' only for a job that has not failed;
    and the configuration never changes. *)
Theorem retry_budget_respected :
  forall (processor_stops : MessageQueue.EmailMessage -> bool)
         (c : MessageQueue.PartialConfig) (es : list MessageQueue.Event),
    let s := MessageQueue.run processor_stops es (MessageQueue.create c) in
    let limit := retry_limit (MessageQueue.merge_config c) in
    let base := MessageQueue.retryDelay (MessageQueue.merge_config c) in
    MessageQueue.config s = MessageQueue.merge_config c /\
    (forall m, m ∈ MessageQueue.queue s -> 0 <= MessageQueue.retryCount m <= limit) /\
    (forall m, MessageQueue.AwaitingProcessor m ∈ MessageQueue.pending s \/
               MessageQueue.AwaitingFalse m ∈ MessageQueue.pending s ->
               0 <= MessageQueue.retryCount m <= limit) /\
    (forall h delay m, (h, delay, m) ∈ MessageQueue.retryTimeouts s ->
                       1 <= MessageQueue.retryCount m <= limit /\
                       delay = base * 2 ^ (MessageQueue.retryCount m - 1)) /\
    (forall m, MessageQueue.enqueued m ∈ MessageQueue.events s ->
               MessageQueue.retryCount m = 0) /\
    (forall m, MessageQueue.processed m ∈ MessageQueue.events s ->
               0 <= MessageQueue.retryCount m <= limit) /\
    (forall m, MessageQueue.requeued m ∈ MessageQueue.events s ->
               1 <= MessageQueue.retryCount m <= limit) /\
    (forall m, MessageQueue.failed m ∈ MessageQueue.events s ->
               MessageQueue.retryCount m = limit + 1).
Proof.
  intros processor_stops c es s limit base.
  destruct (run_bounded processor_stops es (MessageQueue.create c)) as [H Hc].
  { unfold retries_bounded. cbn. split_and!; constructor. }
  fold s in H, Hc. change (MessageQueue.config s = MessageQueue.merge_config c) in Hc.
  destruct H as (Hq & Hp & Hr & He). rewrite Hc in Hq, Hp, Hr, He.
  rewrite Forall_forall in Hq. rewrite Forall_forall in Hp.
  rewrite Forall_forall in Hr. rewrite Forall_forall in He.
  split_and!.
  - exact Hc.
  - intros m Hm. exact (Hq _ Hm).
  - intros m [Hm|Hm]; exact (Hp _ Hm).
  - intros h delay m Hm. exact (Hr _ Hm).
  - intros m Hm. exact (He _ Hm).
  - intros m Hm. exact (He _ Hm).
  - intros m Hm. exact (He _ Hm).
  - intros m Hm. exact (He _ Hm).
Qed.

(** ** The service: what every step keeps of the store *)

Section StoreInvariant.
Import EmailService.
Context {W : Type} (clock : W -> Z) (sleep : Z -> W -> W).
Variable providers : list (@Provider W).

(** A property of the store that survives the two ways the service writes
    to it. *)
Variable P : InMemoryStore.t -> Prop.
Hypothesis P_markSent :
  forall id st a, service_status (map name providers) st -> P a ->
                  P (InMemoryStore.markSent id st a).
Hypothesis P_isRateLimited :
  forall now to a, P a -> P (InMemoryStore.isRateLimited now to a).2.

Lemma constant_status (st : string) :
  st ∈ ["Queued"; "Processing"; "All providers failed"; "Failed in queue"]%string ->
  service_status (map name providers) st.
Proof. intros H. left. exact H. Qed.

Lemma sent_status (p : Provider) :
  p ∈ providers -> service_status (map name providers) ("Sent via " ++ name p).
Proof.
  intros H. right. exists (name p). split; [|reflexivity].
  apply list_elem_of_fmap. eauto.
Qed.

Ltac constant := apply constant_status; set_solver.

Lemma sendEmail_inv now id to subject body priority (s : t) :
  P (store s) -> P (store (sendEmail now id to subject body priority s).2).
Proof.
  intros H. unfold sendEmail.
  destruct (InMemoryStore.isDuplicate id (store s)); [exact H|].
  pose proof (P_isRateLimited now to _ H) as Hrl.
  destruct (InMemoryStore.isRateLimited now to (store s)) as [limited st]. cbn [snd] in Hrl.
  destruct limited; [exact Hrl|].
  destruct (MessageQueue.enqueue _ _ _ _) as [n q]. cbn [fst snd store set_queue].
  rewrite notify_store. cbn [store set_store].
  apply P_markSent; [constant|exact Hrl].
Qed.

Lemma try_providers_inv (ps : list Provider) :
  (forall p, p ∈ ps -> p ∈ providers) ->
  forall i m s w r s' w' tr,
    try_providers clock sleep ps i m s w = Some (r, s', w', tr) ->
    P (store s) -> P (store s').
Proof.
  induction ps as [|p ps IH]; intros Hsub i m s w r s' w' tr; cbn [try_providers].
  - intros [= <- <- <- <-] H. rewrite notify_store. apply P_markSent; [constant|exact H].
  - assert (Hps : forall p', p' ∈ ps -> p' ∈ providers)
      by (intros p' Hp'; apply Hsub; right; exact Hp').
    destruct (breakers s !! i) as [b|]; [|intros [= <- <- <- <-] H; exact H].
    destruct (CircuitBreaker.isOpen (clock w) b).
    + destruct (try_providers clock sleep ps (S i) m s w) as [[[[r0 s0] w0] tr0]|] eqn:Hrec;
        [|discriminate].
      intros [= <- <- <- <-]. eapply IH; eassumption.
    + destruct (retryWithBackoff _ _ _ _ _) as [[[[v|e] w1] rtr]|]; [| |discriminate].
      * intros [= <- <- <- <-] H. rewrite notify_store. cbn [store set_store set_breakers].
        apply P_markSent; [|exact H]. apply sent_status, Hsub. left.
      * match goal with |- context [try_providers clock sleep ps (S i) m ?s1 w1] =>
          destruct (try_providers clock sleep ps (S i) m s1 w1)
            as [[[[r0 s0] w0] tr0]|] eqn:Hrec; [|discriminate] end.
        intros [= <- <- <- <-] H. eapply IH; [exact Hps|exact Hrec|exact H].
Qed.

Lemma processQueuedEmail_inv (m : MessageQueue.EmailMessage) (s : t) (w : W) r s' w' tr :
  processQueuedEmail clock sleep providers m s w = Some (r, s', w', tr) ->
  P (store s) -> P (store s').
Proof.
  unfold processQueuedEmail. intros Hrun H.
  eapply try_providers_inv; [|exact Hrun|]; [auto|].
  cbn [store set_store]. apply P_markSent; [constant|exact H].
Qed.

Lemma on_event_inv (e : MessageQueue.Emitted) (s : t) :
  P (store s) -> P (store (on_event e s)).
Proof.
  intros H. destruct e as [m|m|m|m]; cbn [on_event]; try exact H.
  - destruct (InMemoryStore.getStatus _ _) as [st|]; [|exact H].
    destruct (String.eqb st ""); [|rewrite notify_store]; exact H.
  - rewrite notify_store. cbn [store set_store]. apply P_markSent; [constant|exact H].
Qed.

Lemma queue_step_inv (e : MessageQueue.Event) (s : t) :
  P (store s) -> P (store (queue_step e s)).
Proof.
  unfold queue_step.
  set (q := MessageQueue.step never_stops e (queue s)).
  generalize (drop (List.length (MessageQueue.events (queue s))) (MessageQueue.events q)).
  intros new. change (store s) with (store (set_queue q s)).
  generalize (set_queue q s). clear - P_markSent P_isRateLimited. intros s0.
  revert s0. induction new as [|e new IH]; intros s0 H; cbn [foldl]; [exact H|].
  apply IH, on_event_inv, H.
Qed.

Lemma step_inv (e : Event) (sw : t * W) :
  P (store sw.1) -> P (store (step clock sleep providers e sw).1).
Proof.
  destruct sw as [s w]. intros H.
  destruct e as [now id to subject body priority|m| | | |]; cbn [step fst].
  - apply sendEmail_inv, H.
  - destruct (processQueuedEmail clock sleep providers m s w) as [[[[r s'] w'] tr]|] eqn:Hrun;
      [|exact H].
    cbn [fst]. eapply processQueuedEmail_inv; eassumption.
  - apply queue_step_inv, H.
  - apply queue_step_inv, H.
  - apply queue_step_inv, H.
  - exact H.
Qed.

Lemma run_inv (es : list Event) :
  forall sw, P (store sw.1) -> P (store (run clock sleep providers es sw).1).
Proof.
  unfold run. induction es as [|e es IH]; intros sw H; cbn [foldl]; [exact H|].
  apply IH, step_inv, H.
Qed.

End StoreInvariant.

(** ** The service: the rate limit across submissions *)

Section SlotFacts.
Import InMemoryStore.

Lemma slot_markSent (rate : Z) (to : string) (t0 : Z) (id st : string) (a : t) :
  slot_held rate to t0 a -> slot_held rate to t0 (markSent id st a).
Proof. intros H. exact H. Qed.

Lemma slot_isRateLimited (rate : Z) (to : string) (t0 : Z) (now : Z) (to' : string) (a : t) :
  0 < rate -> slot_held rate to t0 a -> slot_held rate to t0 (isRateLimited now to' a).2.
Proof.
  intros Hrate [Hr (last & Hl & Hle)].
  destruct (isRateLimited_keeps_statuses now to' a) as (_ & _ & Hr').
  split; [congruence|].
  destruct (decide (to' = to)) as [->|Hne].
  - unfold isRateLimited. rewrite Hl.
    rewrite below_minInterval_integral by lia.
    destruct (Z.ltb_spec ((now - last) * rateLimitPerMinute a) 60000); cbn [snd].
    + eauto.
    + exists now. cbn. rewrite lookup_insert_eq. split; [reflexivity|nia].
  - exists last. rewrite isRateLimited_other by exact Hne. auto.
Qed.

Lemma isRateLimited_accepts (now : Z) (to : string) (a : t) :
  (isRateLimited now to a).1 = false ->
  rateLimit (isRateLimited now to a).2 !! to = Some now.
Proof.
  unfold isRateLimited.
  destruct (rateLimit a !! to); [destruct (below _ _)|]; cbn; try discriminate;
    intros _; apply lookup_insert_eq.
Qed.

Lemma slot_rejects (rate : Z) (to : string) (t0 now : Z) (a : t) :
  0 < rate -> slot_held rate to t0 a -> (now - t0) * rate < 60000 ->
  isRateLimited now to a = (true, a).
Proof.
  intros Hrate [Hr (last & Hl & Hle)] Hnear.
  eapply isRateLimited_within; [exact Hl|].
  rewrite below_minInterval_integral by lia. apply Z.ltb_lt. nia.
Qed.

End SlotFacts.

(** X9.  The rate limit holds across the life of the service.  For a
    positive rate: once [sendEmail] has answered 'Queued' for a recipient
    at time [now], then after any further steps of the service
    (submissions for any recipient at any clock reading, processor runs,
    timers, settlements, shutdown) a submission for that recipient at a
    time [now'] with [(now' - now) * rate < 60000] is not queued: it is
    answered 'Duplicate' if its id is known and 'Rate limited' otherwise,
    and leaves the service as it is. *)
Theorem queued_sends_are_spaced :
  forall (W : Type) (clock : W -> Z) (sleep : Z -> W -> W)
         (providers : list (@EmailService.Provider W)) (es : list EmailService.Event)
         (now now' : Z) (id id' to subject subject' body body' : string)
         (priority priority' : MessageQueue.MessagePriority)
         (s : EmailService.t) (w : W),
    let rate := InMemoryStore.rateLimitPerMinute (EmailService.store s) in
    let first := EmailService.sendEmail now id to subject body priority s in
    let s' := (EmailService.run clock sleep providers es (first.2, w)).1 in
    0 < rate ->
    first.1 = EmailService.Queued ->
    (now' - now) * rate < 60000 ->
    EmailService.sendEmail now' id' to subject' body' priority' s' =
      (if InMemoryStore.isDuplicate id' (EmailService.store s')
       then EmailService.Duplicate else EmailService.Rate_limited, s').
Proof.
  intros W clock sleep providers es now now' id id' to subject subject' body body'
    priority priority' s w rate first s' Hrate Hq Hnear.
  assert (Hslot : slot_held rate to now (EmailService.store s')).
  { apply run_inv.
    - intros i st a _. apply slot_markSent.
    - intros now0 to0 a. apply slot_isRateLimited, Hrate.
    - subst first. cbn [fst]. unfold EmailService.sendEmail in Hq |- *.
      destruct (InMemoryStore.isDuplicate id (EmailService.store s)); [discriminate|].
      pose proof (isRateLimited_accepts now to (EmailService.store s)) as Hacc.
      destruct (isRateLimited_keeps_statuses now to (EmailService.store s)) as (_ & _ & Hr).
      destruct (InMemoryStore.isRateLimited now to (EmailService.store s)) as [limited st].
      cbn [fst snd] in Hacc, Hr.
      destruct limited; [discriminate|].
      destruct (MessageQueue.enqueue _ _ _ _) as [n q]. cbn [fst snd EmailService.store
        EmailService.set_queue].
      rewrite notify_store. cbn [EmailService.store EmailService.set_store].
      apply slot_markSent. split; [exact Hr|]. exists now. split; [auto|lia]. }
  unfold EmailService.sendEmail.
  destruct (InMemoryStore.isDuplicate id' (EmailService.store s')); [reflexivity|].
  rewrite (slot_rejects rate to now now' _ Hrate Hslot Hnear).
  destruct s'; reflexivity.
Qed.

(** A new service (5 per minute): a submission at 0, then one for another
    recipient and a failing processor run, then a submission for the first
    recipient at 11999. *)
Lemma queued_sends_are_spaced_witness :
  let clock := fun w : Z => w in
  let sleep := fun ms w : Z => w + ms in
  let down := fun n => EmailService.mkProvider n
                (fun _ _ _ (w : Z) => (Rejected (T := bool) "down"%string, w + 1)) in
  let providers := [down "ProviderA"%string; down "ProviderB"%string] in
  let first := EmailService.sendEmail 0 "A" "r@example.com" "subject" "body"
                 MessageQueue.NORMAL (EmailService.create false) in
  let s' := (EmailService.run clock sleep providers
               [EmailService.SendEmail 5000 "B" "q@example.com" "subject" "body"
                  MessageQueue.HIGH;
                EmailService.Process (MessageQueue.fullMessage 0 (job "A" MessageQueue.NORMAL))]
               (first.2, 0)).1 in
  first.1 = EmailService.Queued /\
  EmailService.sendEmail 11999 "C" "r@example.com" "subject" "body" MessageQueue.LOW s' =
    (if InMemoryStore.isDuplicate "C" (EmailService.store s')
     then EmailService.Duplicate else EmailService.Rate_limited, s').
Proof.
  intros clock sleep down providers first s'.
  split; [reflexivity|].
  apply (queued_sends_are_spaced Z clock sleep providers); [reflexivity..].
Defined.

(** ** The routes and the statuses of the service *)

Section StatusFacts.
Import InMemoryStore.

Lemma service_status_nonempty (names : list string) (st : string) :
  service_status names st -> String.eqb st "" = false.
Proof.
  intros [H|(n & _ & ->)]; [|reflexivity].
  repeat (apply elem_of_cons in H; destruct H as [->|H]; [reflexivity|]).
  apply elem_of_nil in H. destruct H.
Qed.

Lemma tracked_create (names : list string) (rate : Z) :
  statuses_tracked names (create rate).
Proof.
  split; [unfold seen; cbn; rewrite !dom_empty_L; reflexivity|].
  intros id status H. cbn in H. rewrite lookup_empty in H. discriminate.
Qed.

Lemma tracked_markSent (names : list string) (id st : string) (a : t) :
  service_status names st -> statuses_tracked names a ->
  statuses_tracked names (markSent id st a).
Proof.
  intros Hst [Hdom Hall]. split.
  - unfold seen in *. cbn. rewrite !dom_insert_L, Hdom. reflexivity.
  - intros id' st'. cbn. destruct (decide (id = id')) as [->|Hne].
    + rewrite lookup_insert_eq. intros [= <-]. exact Hst.
    + rewrite lookup_insert_ne by exact Hne. apply Hall.
Qed.

Lemma tracked_isRateLimited (names : list string) (now : Z) (to : string) (a : t) :
  statuses_tracked names a -> statuses_tracked names (isRateLimited now to a).2.
Proof.
  destruct (isRateLimited_keeps_statuses now to a) as (Hs & Hd & _).
  unfold statuses_tracked, seen. rewrite Hs, Hd. tauto.
Qed.

(** The id has one of the service's statuses. *)
Lemma has_status_markSent (names : list string) (id id' st : string) (a : t) :
  service_status names st ->
  (exists st0, getStatus id a = Some st0 /\ service_status names st0) ->
  exists st0, getStatus id (markSent id' st a) = Some st0 /\ service_status names st0.
Proof.
  intros Hst (st0 & H0 & Hs0). unfold getStatus in *. cbn.
  destruct (decide (id' = id)) as [->|Hne].
  - exists st. rewrite lookup_insert_eq. auto.
  - exists st0. rewrite lookup_insert_ne by exact Hne. auto.
Qed.

Lemma has_status_isRateLimited (names : list string) (id : string) (now : Z) (to : string)
    (a : t) :
  (exists st0, getStatus id a = Some st0 /\ service_status names st0) ->
  exists st0, getStatus id (isRateLimited now to a).2 = Some st0 /\ service_status names st0.
Proof.
  destruct (isRateLimited_keeps_statuses now to a) as (Hs & _ & _).
  unfold getStatus. rewrite Hs. tauto.
Qed.

End StatusFacts.

(** X10.  In every state reached from a new service, the ids that have a
    status are exactly the ids [sendEmail] rejects as duplicates, and every
    status is one of "Queued", "Processing", "Sent via <provider name>",
    "All providers failed" and "Failed in queue".  So [GET /status/:id]
    answers 404 exactly for the ids that are not duplicates and 200 with
    one of these statuses for the others, and a socket that subscribes to
    an id is sent a [status_update] exactly in the second case. *)
Theorem status_route_agrees_with_duplicates :
  forall (W : Type) (clock : W -> Z) (sleep : Z -> W -> W)
         (providers : list (@EmailService.Provider W)) (io : bool) (w : W)
         (es : list EmailService.Event) (id : string),
    let s := (EmailService.run clock sleep providers es (EmailService.create io, w)).1 in
    if InMemoryStore.isDuplicate id (EmailService.store s)
    then exists status,
        service_status (map EmailService.name providers) status /\
        EmailService.getStatus id s = Some status /\
        Server.get_status id s = Server.mkResponse 200 (Server.StatusBody status) /\
        Server.subscribe id s = Some (id, status)
    else EmailService.getStatus id s = None /\
         Server.get_status id s = Server.mkResponse 404 (Server.ErrorBody "Not found") /\
         Server.subscribe id s = None.
Proof.
  intros W clock sleep providers io w es id s.
  assert (H : statuses_tracked (map EmailService.name providers) (EmailService.store s)).
  { apply run_inv.
    - intros i st a. apply tracked_markSent.
    - intros now to a. apply tracked_isRateLimited.
    - apply tracked_create. }
  destruct H as [Hdom Hall].
  unfold Server.get_status, Server.subscribe, EmailService.getStatus, InMemoryStore.getStatus.
  destruct (InMemoryStore.isDuplicate id (EmailService.store s)) eqn:Hdup.
  - apply seen_duplicate in Hdup. rewrite <- Hdom in Hdup. apply elem_of_dom in Hdup.
    destruct Hdup as [st Hst]. exists st. pose proof (Hall _ _ Hst) as Hs.
    rewrite Hst, (service_status_nonempty _ _ Hs). auto.
  - assert (Hnone : InMemoryStore.status (EmailService.store s) !! id = None).
    { apply not_elem_of_dom. rewrite Hdom. intros Hin. apply seen_duplicate in Hin.
      congruence. }
    rewrite Hnone. auto.
Qed.

(** X11.  [POST /send-email] and [GET /status/:id] together.  A request
    with a field that is missing or falsy (null, false, 0, the empty
    string) is answered 400 'Missing fields' and does not touch the
    service, also when the other fields would have been accepted.  A
    request of four non-empty strings is answered 200 with the result of
    [sendEmail] at NORMAL priority; if that result is 'Queued', then after
    any further steps of the service [GET /status/:id] for its id answers
    200 with one of the service's statuses, never 404. *)
Theorem posted_id_has_a_status :
  forall (W : Type) (clock : W -> Z) (sleep : Z -> W -> W)
         (providers : list (@EmailService.Provider W)) (es : list EmailService.Event)
         (now : Z) (req : Server.SendRequest) (s : EmailService.t) (w : W),
    (Server.truthy (Server.r_id req) && Server.truthy (Server.r_to req) &&
     Server.truthy (Server.r_subject req) && Server.truthy (Server.r_body req) = false ->
     Server.post_send_email now req s =
       Some (Server.mkResponse 400 (Server.ErrorBody "Missing fields"), s)) /\
    (forall id to subject body,
        req = Server.mkRequest (Server.JString id) (Server.JString to)
                (Server.JString subject) (Server.JString body) ->
        id <> ""%string -> to <> ""%string -> subject <> ""%string -> body <> ""%string ->
        let sent := EmailService.sendEmail now id to subject body MessageQueue.NORMAL s in
        Server.post_send_email now req s =
          Some (Server.mkResponse 200 (Server.ResultBody sent.1 Server.queued_message),
                sent.2) /\
        (sent.1 = EmailService.Queued ->
         let s' := (EmailService.run clock sleep providers es (sent.2, w)).1 in
         exists status,
           service_status (map EmailService.name providers) status /\
           Server.get_status id s' = Server.mkResponse 200 (Server.StatusBody status))).
Proof.
  intros W clock sleep providers es now req s w. split.
  - intros Hfalsy. unfold Server.post_send_email.
    destruct (Server.truthy (Server.r_id req)), (Server.truthy (Server.r_to req)),
      (Server.truthy (Server.r_subject req)), (Server.truthy (Server.r_body req));
      try reflexivity; discriminate.
  - intros id to subject body -> Hid Hto Hsubject Hbody sent. split.
    + unfold Server.post_send_email. cbn [Server.r_id Server.r_to Server.r_subject
        Server.r_body Server.truthy].
      apply String.eqb_neq in Hid, Hto, Hsubject, Hbody.
      rewrite Hid, Hto, Hsubject, Hbody. cbn [negb orb].
      subst sent. destruct (EmailService.sendEmail _ _ _ _ _ _ _) as [r s1]. reflexivity.
    + intros Hq s'.
      assert (H : exists st0,
                 InMemoryStore.getStatus id (EmailService.store s') = Some st0 /\
                 service_status (map EmailService.name providers) st0).
      { apply (run_inv clock sleep providers
                 (fun a => exists st0, InMemoryStore.getStatus id a = Some st0 /\
                                       service_status (map EmailService.name providers) st0)).
        - intros i st a. apply has_status_markSent.
        - intros now0 to0 a. apply has_status_isRateLimited.
        - subst sent. cbn [fst]. unfold EmailService.sendEmail in Hq |- *.
          destruct (InMemoryStore.isDuplicate id (EmailService.store s)); [discriminate|].
          destruct (InMemoryStore.isRateLimited now to (EmailService.store s))
            as [limited st].
          destruct limited; [discriminate|].
          destruct (MessageQueue.enqueue _ _ _ _) as [n q].
          cbn [fst snd EmailService.store EmailService.set_queue].
          rewrite notify_store. cbn [EmailService.store EmailService.set_store].
          exists "Queued"%string. split.
          + unfold InMemoryStore.getStatus, InMemoryStore.markSent. cbn.
            apply lookup_insert_eq.
          + left. set_solver. }
      destruct H as (st0 & Hst & Hs). exists st0. split; [exact Hs|].
      unfold Server.get_status, EmailService.getStatus.
      rewrite Hst, (service_status_nonempty _ _ Hs). reflexivity.
Qed.

(** A request without a subject; then four strings, a failing processor
    run and the look-up of the id. *)
Lemma posted_id_has_a_status_witness :
  let clock := fun w : Z => w in
  let sleep := fun ms w : Z => w + ms in
  let down := fun n => EmailService.mkProvider n
                (fun _ _ _ (w : Z) => (Rejected (T := bool) "down"%string, w + 1)) in
  let providers := [down "ProviderA"%string; down "ProviderB"%string] in
  let s := EmailService.create true in
  let sent := EmailService.sendEmail 0 "A" "r@example.com" "subject" "body"
                MessageQueue.NORMAL s in
  let s' := (EmailService.run clock sleep providers
               [EmailService.Process (MessageQueue.fullMessage 0 (job "A" MessageQueue.NORMAL))]
               (sent.2, 0)).1 in
  Server.post_send_email 0
    (Server.mkRequest (Server.JString "A") (Server.JString "r@example.com") Server.JUndefined
       (Server.JString "body")) s =
    Some (Server.mkResponse 400 (Server.ErrorBody "Missing fields"), s) /\
  exists status,
    service_status (map EmailService.name providers) status /\
    Server.get_status "A" s' = Server.mkResponse 200 (Server.StatusBody status).
Proof.
  intros clock sleep down providers s sent s'. split.
  - apply (proj1 (posted_id_has_a_status Z clock sleep providers [] 0 _ s 0)). reflexivity.
  - refine (proj2 (proj2 (posted_id_has_a_status Z clock sleep providers
                    [EmailService.Process
                       (MessageQueue.fullMessage 0 (job "A" MessageQueue.NORMAL))]
                    0 (Server.mkRequest (Server.JString "A") (Server.JString "r@example.com")
                         (Server.JString "subject") (Server.JString "body")) s 0)
             "A"%string "r@example.com"%string "subject"%string "body"%string
             eq_refl _ _ _ _) _); [discriminate..|reflexivity].
Defined.

(** ** The queue: the tick loop *)

Section TickLoopFacts.
Import MessageQueue.
Variable processor_stops : EmailMessage -> bool.

Lemma loop_frame (s s' : t) :
  _wasStopped s' = _wasStopped s -> _isStopped s' = _isStopped s ->
  isProcessing s' = isProcessing s -> tickTimeouts s' = tickTimeouts s ->
  timer s' = timer s ->
  one_tick_loop s -> one_tick_loop s'.
Proof. unfold one_tick_loop. intros -> -> -> -> ->. tauto. Qed.

Ltac same_loop := eapply loop_frame; [reflexivity..|eassumption].

Lemma stopped_loop (s : t) : stopped s -> one_tick_loop s.
Proof.
  intros (Hs & Hw & Hp & _ & _ & _ & _ & Hk & _). unfold one_tick_loop.
  rewrite Hs, Hw, Hp, Hk. split_and!; [reflexivity|discriminate|reflexivity].
Qed.

Lemma stop_loop (s : t) : timers_tracked s -> one_tick_loop (stop s).
Proof. intros H. apply stopped_loop, stop_stopped, H. Qed.

Lemma call_processor_loop (m : EmailMessage) (s : t) :
  timers_tracked s -> one_tick_loop s ->
  one_tick_loop (call_processor processor_stops m s).2.
Proof.
  intros Ht H. unfold call_processor.
  destruct (processor s); [|exact H].
  repeat match goal with
         | |- context [if ?b then _ else _] => destruct b
         end; cbn [snd];
    first [ same_loop
          | apply stop_loop; eapply tracked_frame; [reflexivity..|eassumption] ].
Qed.

Lemma processMessage_loop (now : Z) (m : EmailMessage) (s : t) :
  timers_tracked s -> one_tick_loop s ->
  one_tick_loop (processMessage processor_stops now m s).
Proof.
  intros Ht H. unfold processMessage.
  destruct (_isStopped s || negb (isProcessing s)); [same_loop|].
  match goal with |- context [call_processor _ ?m' s] =>
    pose proof (call_processor_loop m' s Ht H) as Hc;
    destruct (call_processor processor_stops m' s) as [p s'] end.
  cbn [snd] in Hc. same_loop.
Qed.

Lemma dispatch_loop (now : Z) (ms : list EmailMessage) :
  forall s, timers_tracked s -> one_tick_loop s ->
            one_tick_loop (dispatch processor_stops now ms s).
Proof.
  induction ms as [|m ms IH]; intros s Ht H; [exact H|].
  rewrite dispatch_cons.
  destruct (_isStopped s || negb (isProcessing s)); [apply IH; assumption|].
  apply IH.
  - apply processMessage_tracked. eapply tracked_frame; [reflexivity..|exact Ht].
  - apply processMessage_loop; [eapply tracked_frame; [reflexivity..|exact Ht]|same_loop].
Qed.

Lemma processQueue_loop (now : Z) (s : t) :
  timers_tracked s -> between_ticks s ->
  one_tick_loop (processQueue processor_stops now s).
Proof.
  intros Ht (Hw & Hp & Hk). unfold processQueue.
  destruct (_isStopped s || _wasStopped s || negb (isProcessing s)) eqn:Hguard.
  { unfold one_tick_loop. split_and!; [exact Hw| |auto].
    intros Hproc. exfalso. rewrite Hw, (Hp Hproc), Hproc in Hguard. discriminate. }
  apply orb_false_iff in Hguard. destruct Hguard as [Hguard Hproc].
  apply orb_false_iff in Hguard. destruct Hguard as [Hs Hws].
  apply negb_false_iff in Hproc.
  set (s1 := if 0 <? Z.of_nat (List.length (queue s)) then _ else s).
  assert (H1 : timers_tracked s1 /\ tickTimeouts s1 = [] /\ _isStopped s1 = false /\
               _wasStopped s1 = false /\ isProcessing s1 = true).
  { subst s1. destruct (0 <? _); split_and!; assumption. }
  clearbody s1. destruct H1 as (Ht1 & Hk1 & Hs1 & Hw1 & Hp1).
  rewrite Hp1, Hs1, Hw1. cbn [negb andb]. unfold fresh.
  set (s2 := set_timer _ _).
  assert (H2 : timers_tracked s2 /\ one_tick_loop s2).
  { subst s2. destruct Ht1 as (_ & _ & H3). unfold timers_tracked, one_tick_loop. cbn.
    rewrite Hk1, Hs1, Hw1, Hp1. cbn [app]. split_and!; try discriminate; eauto.
    intros h Hh. apply list_elem_of_singleton in Hh. congruence. }
  clearbody s2. destruct H2 as [Ht2 H2].
  destruct (_isStopped s2 || _wasStopped s2 || negb (isProcessing s2) || _); [exact H2|].
  cbn zeta. destruct (Z.min _ _ <=? 0); [same_loop|].
  apply dispatch_loop; [eapply tracked_frame; [reflexivity..|exact Ht2]|same_loop].
Qed.

Lemma startProcessing_loop (now : Z) (s : t) :
  timers_tracked s -> one_tick_loop s ->
  one_tick_loop (startProcessing processor_stops now s).
Proof.
  intros Ht H. unfold startProcessing.
  destruct (_isStopped s) eqn:Hs; [exact H|].
  destruct (isProcessing s) eqn:Hp; [exact H|]. cbn [negb].
  destruct H as (Hw & _ & Hk). specialize (Hk Hp).
  destruct Ht as (_ & _ & H3).
  apply processQueue_loop.
  - unfold timers_tracked. cbn. rewrite Hk. split_and!.
    + intros h Hh. exfalso. eapply not_elem_of_nil, Hh.
    + discriminate.
    + exact H3.
  - unfold between_ticks. cbn. rewrite Hw, Hs, Hk. auto.
Qed.

Lemma enqueue_loop (now : Z) (message : NewMessage) (s : t) :
  timers_tracked s -> one_tick_loop s ->
  one_tick_loop (enqueue processor_stops now message s).2.
Proof.
  intros Ht H. unfold enqueue.
  destruct (_isStopped s || _wasStopped s); [exact H|].
  destruct (String.eqb (new_id message) "stats-1" || String.eqb (new_id message) "stats-2").
  - cbn zeta. cbn [snd].
    destruct (String.eqb (new_id message) "stats-1");
      (apply startProcessing_loop;
       [eapply tracked_frame; [reflexivity..|exact Ht]|same_loop]).
  - set (s1 := if negb _ && _ then set_maxActiveCountForTest 2 s else s).
    assert (H1 : timers_tracked s1 /\ one_tick_loop s1).
    { subst s1. destruct (negb _ && _); [|auto].
      split; [eapply tracked_frame; [reflexivity..|exact Ht]|same_loop]. }
    clearbody s1. destruct H1 as [Ht1 H1].
    destruct (String.eqb (new_id message) "test-1");
      [|destruct (String.eqb (new_id message) "test-2")]; cbn zeta; cbn [snd].
    + apply startProcessing_loop; [eapply tracked_frame; [reflexivity..|exact Ht1]|same_loop].
    + apply startProcessing_loop; [eapply tracked_frame; [reflexivity..|exact Ht1]|same_loop].
    + match goal with |- context [if ?b then _ else _] => destruct b end;
        [apply startProcessing_loop; [eapply tracked_frame; [reflexivity..|exact Ht1]|]|];
        same_loop.
Qed.

Lemma handleFailure_loop (m : EmailMessage) (s : t) :
  one_tick_loop s -> one_tick_loop (handleFailure m s).
Proof.
  intros H. unfold handleFailure.
  destruct (_isStopped s); [exact H|]. cbn zeta.
  match goal with |- context [if ?b then _ else _] => destruct b end;
    unfold fresh; same_loop.
Qed.

Lemma retryCallback_loop (h : nat) (m : EmailMessage) (s : t) :
  one_tick_loop s -> one_tick_loop (retryCallback h m s).
Proof.
  intros H. unfold retryCallback.
  destruct (isProcessing s && negb (_isStopped s)); same_loop.
Qed.

Lemma resume_loop (p : Pending) (r : Settled bool unit) (s : t) :
  one_tick_loop s -> one_tick_loop (resume p r s).
Proof.
  intros H. unfold resume.
  assert (Hf : forall m, one_tick_loop (if _isStopped s then s else handleFailure m s)).
  { intros m. destruct (_isStopped s); [exact H|apply handleFailure_loop, H]. }
  destruct p as [m|m|]; [destruct r as [[|]|]|..];
    try (specialize (Hf m); same_loop).
  - destruct (_isStopped s); same_loop.
  - same_loop.
Qed.

Lemma step_loop (e : Event) (s : t) :
  timers_tracked s -> one_tick_loop s -> one_tick_loop (step processor_stops e s).
Proof.
  intros Ht H. destruct e as [now message| |now h|h|k r]; cbn [step].
  - apply enqueue_loop; assumption.
  - apply stop_loop, Ht.
  - destruct (bool_decide (h ∈ tickTimeouts s)) eqn:Hin; [|exact H].
    apply bool_decide_eq_true in Hin. destruct H as (Hw & Hproc & Hidle).
    destruct (isProcessing s) eqn:Hp;
      [|rewrite (Hidle eq_refl) in Hin; exfalso; eapply not_elem_of_nil, Hin].
    destruct (Hproc eq_refl) as (Hs & h0 & Hk & Htimer).
    rewrite Hk in Hin. apply list_elem_of_singleton in Hin. subst h0.
    assert (Hnil : filter (fun h' => h' ≠ h) (tickTimeouts s) = []).
    { rewrite Hk. apply nil_of_no_elem. intros h' Hh'. apply list_elem_of_filter in Hh'.
      destruct Hh' as [Hne Hh']. apply list_elem_of_singleton in Hh'. congruence. }
    destruct Ht as (_ & _ & H3).
    apply processQueue_loop.
    + unfold timers_tracked. cbn. rewrite Hnil. split_and!; auto.
      intros h' Hh'. exfalso. eapply not_elem_of_nil, Hh'.
    + unfold between_ticks. cbn. rewrite Hnil. auto.
  - destruct (list_find _ _) as [[i [[h' d] m]]|]; [|exact H].
    apply retryCallback_loop. same_loop.
  - destruct (pending s !! k); [|exact H]. apply resume_loop. same_loop.
Qed.

Lemma run_loop (es : list Event) :
  forall s, timers_tracked s -> one_tick_loop s ->
            timers_tracked (run processor_stops es s) /\
            one_tick_loop (run processor_stops es s).
Proof.
  unfold run. induction es as [|e es IH]; intros s Ht H; cbn [foldl]; [auto|].
  apply IH; [apply step_tracked, Ht|apply step_loop; assumption].
Qed.

End TickLoopFacts.

(** X12.  The queue runs one tick loop or none.  In every state a queue
    built by the constructor reaches, whatever is enqueued, whenever timers
    fire, however the processor's promises settle and whenever [stop()] is
    called: while the queue is processing it is not stopped and exactly one
    [processQueue] timeout is armed, the one [this.timer] holds; while it
    is not processing none is armed; and every armed retry timeout has its
    handle in [this.retryTimers], where [stop()] finds it. *)
Theorem one_tick_timeout_at_a_time :
  forall (processor_stops : MessageQueue.EmailMessage -> bool)
         (c : MessageQueue.PartialConfig) (es : list MessageQueue.Event),
    let s := MessageQueue.run processor_stops es (MessageQueue.create c) in
    MessageQueue._wasStopped s = MessageQueue._isStopped s /\
    (MessageQueue.isProcessing s = true ->
     MessageQueue._isStopped s = false /\
     exists h, MessageQueue.tickTimeouts s = [h] /\ MessageQueue.timer s = Some h) /\
    (MessageQueue.isProcessing s = false -> MessageQueue.tickTimeouts s = []) /\
    (forall h delay m, (h, delay, m) ∈ MessageQueue.retryTimeouts s ->
                       h ∈ MessageQueue.retryTimers s).
Proof.
  intros processor_stops c es s.
  destruct (run_loop processor_stops es (MessageQueue.create c)) as [Ht H].
  - apply create_tracked.
  - unfold one_tick_loop. cbn. split_and!; [reflexivity|discriminate|reflexivity].
  - fold s in Ht, H. destruct H as (Hw & Hp & Hi). destruct Ht as (_ & _ & H3).
    split_and!; try assumption.
    intros h delay m Hin. apply (H3 _ Hin).
Qed.

(** ** The service: the cost of a dispatch *)

Section DispatchCostFacts.
Context {W : Type}.
Variable clock : W -> Z.
Variable sleep : Z -> W -> W.
Import EmailService.






Variable providers : list (@Provider W).







End DispatchCostFacts.


(** ** ProviderA behind [retryWithBackoff] *)

Section ProviderAFacts.
Variables to subject body : string.
Variables retries delay : Z.

Lemma send_draws_once (w : Dice) :
  ProviderA.send dice_random to subject body w =
  (if Qle_bool (1 # 2) (d_draws w (d_next w))
   then Fulfilled true else Rejected "ProviderA failed"%string,
   mkDice (d_now w) (d_draws w) (S (d_next w))).
Proof.
  unfold ProviderA.send, dice_random.
  destruct (Qle_bool (1 # 2) (d_draws w (d_next w))); reflexivity.
Qed.

Lemma dice_loop (fuel : nat) :
  forall a w,
    retries - a = Z.of_nat fuel -> 0 <= a ->
    exists r w' tr,
      retry_loop dice_sleep fuel (ProviderA.send dice_random to subject body)
        retries delay a w = Some (r, w', tr) /\
      d_draws w' = d_draws w /\
      d_next w' = (d_next w + invocations tr)%nat /\
      d_now w' = d_now w + slept tr /\
      match fuel with
      | O => r = Rejected FailedAfterRetries
      | S f =>
          match first_high (d_draws w) (d_next w) fuel with
          | Some k =>
              r = Fulfilled true /\ invocations tr = S k /\
              slept tr = delay * 2 ^ a * (2 ^ Z.of_nat k - 1)
          | None =>
              r = Rejected (Thrown "ProviderA failed"%string) /\ invocations tr = fuel /\
              slept tr = delay * 2 ^ a * (2 ^ Z.of_nat f - 1)
          end
      end.
Proof.
  induction fuel as [|f IH]; intros a w Hfuel Ha.
  - cbn [retry_loop]. destruct (Z.ltb_spec a retries); [lia|].
    exists (Rejected FailedAfterRetries), w, []. cbn. split_and!; auto; lia.
  - cbn [retry_loop first_high]. destruct (Z.ltb_spec a retries); [|lia].
    rewrite send_draws_once.
    destruct (Qle_bool (1 # 2) (d_draws w (d_next w))).
    + eexists _, _, _. split; [reflexivity|]. cbn [d_draws d_next d_now].
      change (2 ^ Z.of_nat 0) with 1. cbn. split_and!; try reflexivity; lia.
    + destruct (Z.eqb_spec a (retries - 1)) as [Hlast|Hmore].
      * assert (f = 0%nat) by lia. subst f. cbn [first_high option_map].
        eexists _, _, _. split; [reflexivity|]. cbn [d_draws d_next d_now].
        change (2 ^ Z.of_nat 0) with 1. cbn. split_and!; try reflexivity; lia.
      * destruct f as [|f']; [lia|].
        set (w1 := dice_sleep (delay * 2 ^ a)
                     (mkDice (d_now w) (d_draws w) (S (d_next w)))).
        destruct (IH (a + 1) w1) as (r & w' & tr & Hrun & Hd & Hnext & Hnow & Hout);
          [lia..|].
        rewrite Hrun. eexists _, _, _. split; [reflexivity|].
        change (d_draws w1) with (d_draws w) in Hd, Hout.
        change (d_next w1) with (S (d_next w)) in Hnext, Hout.
        change (d_now w1) with (d_now w + delay * 2 ^ a) in Hnow.
        assert (Hinv : forall e, invocations (Invoke (T := bool) (Rejected e) ::
                                   Sleep (delay * 2 ^ a) :: tr) = S (invocations tr))
          by reflexivity.
        rewrite Hinv. cbn [slept].
        split_and!; [exact Hd|lia|lia|].
        assert (Hpa : 2 ^ (a + 1) = 2 * 2 ^ a) by (rewrite Z.pow_add_r by lia; change (2 ^ 1) with 2; lia).
        destruct (first_high (d_draws w) (S (d_next w)) (S f')) as [k|];
          cbn [option_map]; destruct Hout as (-> & Hi & Hs);
          (split_and!; [reflexivity|lia|]).
        -- rewrite Hs, Hpa, Nat2Z.inj_succ, Z.pow_succ_r by lia. ring.
        -- rewrite Hs, Hpa, (Nat2Z.inj_succ f'), Z.pow_succ_r by lia. ring.
Qed.

End ProviderAFacts.

(** X14.  ProviderA behind [retryWithBackoff], for [retries >= 1].  The
    run settles.  If the first of the next [retries] random draws that is
    not below 0.5 comes after [k] draws that are, the send succeeds with
    [true] at call [k + 1], after [delay * (2^k - 1)] ms of back-off; if
    all [retries] draws are below 0.5, the run rejects with 'ProviderA
    failed' after [retries] calls and [delay * (2^(retries - 1) - 1)] ms.
    Each call makes exactly one draw. *)
Theorem providerA_under_retry :
  forall (to subject body : string) (retries delay : Z) (w : Dice),
    1 <= retries ->
    exists r w' tr,
      retryWithBackoff dice_sleep (ProviderA.send dice_random to subject body)
        retries delay w = Some (r, w', tr) /\
      d_draws w' = d_draws w /\
      d_next w' = (d_next w + invocations tr)%nat /\
      d_now w' = d_now w + slept tr /\
      match first_high (d_draws w) (d_next w) (Z.to_nat retries) with
      | Some k =>
          r = Fulfilled true /\ invocations tr = S k /\
          slept tr = delay * (2 ^ Z.of_nat k - 1)
      | None =>
          r = Rejected (Thrown "ProviderA failed"%string) /\
          invocations tr = Z.to_nat retries /\
          slept tr = delay * (2 ^ (retries - 1) - 1)
      end.
Proof.
  intros to subject body retries delay w Hretries. unfold retryWithBackoff.
  destruct (dice_loop to subject body retries delay (Z.to_nat retries) 0 w)
    as (r & w' & tr & Hrun & Hd & Hnext & Hnow & Hout); [lia..|].
  exists r, w', tr. split_and!; try assumption.
  destruct (Z.to_nat retries) as [|f] eqn:Hf; [lia|].
  change (2 ^ 0) with 1 in Hout.
  destruct (first_high (d_draws w) (d_next w) (S f)) as [k|];
    destruct Hout as (Hr & Hi & Hs); split_and!; try assumption.
  - rewrite Hs. ring.
  - rewrite Hs. replace (retries - 1) with (Z.of_nat f) by lia. ring.
Qed.

(** Two draws below 0.5, then one above: the third call succeeds after
    300 ms. *)
Lemma providerA_under_retry_witness :
  let w := mkDice 0 (fun i => if Nat.ltb i 2 then 1 # 4 else 3 # 4) 0 in
  exists w' tr,
    retryWithBackoff dice_sleep (ProviderA.send dice_random "r@example.com" "subject" "body")
      3 100 w = Some (Fulfilled true, w', tr) /\
    invocations tr = 3%nat /\ slept tr = 300 /\ d_now w' = 300.
Proof.
  intros w.
  destruct (providerA_under_retry "r@example.com" "subject" "body" 3 100 w)
    as (r & w' & tr & Hrun & _ & _ & Hnow & Hout); [lia|].
  change (first_high (d_draws w) (d_next w) (Z.to_nat 3)) with (Some 2%nat) in Hout.
  destruct Hout as (-> & Hi & Hs). exists w', tr.
  rewrite Hnow, Hs. split_and!; [exact Hrun|exact Hi|reflexivity|reflexivity].
Defined.
